(** * DeepTutor web client: persistence library and streaming channels

    A shallow embedding of [web/lib/persistence.ts] (versioned localStorage
    wrapper, field exclusion, restore-and-merge) and of the channel logic of
    [web/context/GlobalContext.tsx] (solver, question, research and chat
    WebSocket sessions, debounced saves, the hydration restore effect).

    JavaScript values are untyped: TypeScript annotations are erased at run
    time and a snapshot read back from localStorage can have any JSON shape,
    so states, frames and snapshots are all values of one type [jsval].
    Objects are insertion-ordered property lists, as in the language. *)

From Stdlib Require Import ZArith Ascii DecimalString DecimalN DecimalFacts.
From stdpp Require Import base gmap strings list option functions.

(** ** Values *)

Local Unset Elimination Schemes.
Inductive jsval : Type :=
  | JUndefined
  | JNull
  | JBool (b : bool)
  | JNum (n : Z)
  | JStr (s : string)
  | JArr (elems : list jsval)
  | JObj (props : list (string * jsval)).
Local Set Elimination Schemes.

(** Numbers are the integers; characters are 8-bit code units.  Prototype
    chains are not modelled: a property read sees own properties only. *)

Abbreviation props := (list (string * jsval)).

(** Exceptions and completion records. *)
Inductive exn : Type :=
  | TypeError
  | SyntaxError
  | QuotaExceededError
  | SecurityError
  | InvalidStateError.

Inductive outcome (A : Type) : Type :=
  | Ok (a : A)
  | Throw (e : exn).
Arguments Ok {A} a.
Arguments Throw {A} e.

Global Instance outcome_ret : MRet outcome := λ A a, Ok a.
Global Instance outcome_bind : MBind outcome := λ A B f m,
  match m with Ok a => f a | Throw e => Throw e end.

(** [try { body } catch (e) { handler e }] *)
Definition try_catch {A} (body : outcome A) (handler : exn → outcome A) : outcome A :=
  match body with Ok a => Ok a | Throw e => handler e end.

Definition returns {A} (m : outcome A) : Prop := ∃ a, m = Ok a.

(** The value of a computation that returns, and [d] for one that throws. *)
Definition value_or {A} (d : A) (m : outcome A) : A :=
  match m with Ok a => a | Throw _ => d end.

(** ** Primitive operations *)

(** ToBoolean *)
Definition truthy (v : jsval) : bool :=
  match v with
  | JUndefined | JNull => false
  | JBool b => b
  | JNum n => negb (n =? 0)%Z
  | JStr s => negb (String.eqb s EmptyString)
  | JArr _ | JObj _ => true
  end.

(** [v === undefined], [v === "lit"], [v === n] for a literal on the right *)
Definition is_undefined (v : jsval) : bool :=
  match v with JUndefined => true | _ => false end.
Definition is_str (v : jsval) (lit : string) : bool :=
  match v with JStr s => String.eqb s lit | _ => false end.
Definition is_num (v : jsval) (lit : Z) : bool :=
  match v with JNum n => (n =? lit)%Z | _ => false end.

(** [a || b] and [a ?? b] *)
Definition js_or (a b : jsval) : jsval := if truthy a then a else b.
Definition js_nullish (a b : jsval) : jsval :=
  match a with JUndefined | JNull => b | _ => a end.

(** Decimal rendering of a number (ToString on an integer). *)
Definition N_to_string (n : N) : string :=
  NilEmpty.string_of_uint (N.to_uint n).
Definition Z_to_string (z : Z) : string :=
  if (z <? 0)%Z then String "-"%char (N_to_string (Z.abs_N z))
  else N_to_string (Z.to_N z).

Fixpoint join (sep : string) (l : list string) : string :=
  match l with
  | [] => EmptyString
  | [s] => s
  | s :: l' => s +:+ sep +:+ join sep l'
  end.

(** ToString, as used by [+] on a string and by template literals. *)
Fixpoint to_string (v : jsval) : string :=
  match v with
  | JUndefined => "undefined"
  | JNull => "null"
  | JBool true => "true"
  | JBool false => "false"
  | JNum n => Z_to_string n
  | JStr s => s
  | JArr l =>
      join "," (map (λ x, match x with
                          | JUndefined | JNull => EmptyString
                          | _ => to_string x
                          end) l)
  | JObj _ => "[object Object]"
  end.

(** ** Objects *)

(** [o[k]] on own properties; a missing property reads as [undefined]. *)
Fixpoint obj_get (o : props) (k : string) : jsval :=
  match o with
  | [] => JUndefined
  | (k', v) :: o' => if String.eqb k' k then v else obj_get o' k
  end.

(** [o[k] = v]: overwrite in place, or append a new property. *)
Fixpoint obj_set (o : props) (k : string) (v : jsval) : props :=
  match o with
  | [] => [(k, v)]
  | (k', v') :: o' =>
      if String.eqb k' k then (k', v) :: o' else (k', v') :: obj_set o' k v
  end.

(** [{ ...o, k1: v1, k2: v2, ... }] *)
Definition obj_with (o : props) (updates : props) : props :=
  foldl (λ r kv, obj_set r kv.1 kv.2) o updates.

Definition obj_keys (o : props) : list string := o.*1.

(** [arr.includes(k)] on an array of strings *)
Definition includes (l : list string) (k : string) : bool :=
  existsb (String.eqb k) l.

(** Own enumerable properties of an arbitrary value: array and string
    indices are properties named by their decimal index. *)
Definition index_key (i : nat) : string := N_to_string (N.of_nat i).

Definition chars (s : string) : list jsval :=
  map (λ c, JStr (String c EmptyString)) (String.list_ascii_of_string s).

Definition own_props (v : jsval) : props :=
  match v with
  | JObj o => o
  | JArr l => imap (λ i x, (index_key i, x)) l
  | JStr s => imap (λ i x, (index_key i, x)) (chars s)
  | _ => []
  end.

(** [Object.keys(v)] *)
Definition object_keys (v : jsval) : outcome (list string) :=
  match v with
  | JUndefined | JNull => Throw TypeError
  | _ => Ok (obj_keys (own_props v))
  end.

(** [v.k] / [v[k]]: reading a property of [undefined] or [null] throws. *)
Definition get_prop (v : jsval) (k : string) : outcome jsval :=
  match v with
  | JUndefined | JNull => Throw TypeError
  | _ => Ok (obj_get (own_props v) k)
  end.

(** [v?.k] *)
Definition get_opt (v : jsval) (k : string) : jsval :=
  match v with
  | JUndefined | JNull => JUndefined
  | _ => obj_get (own_props v) k
  end.

(** [v.length] *)
Definition js_length (v : jsval) : outcome jsval :=
  match v with
  | JUndefined | JNull => Throw TypeError
  | JArr l => Ok (JNum (Z.of_nat (length l)))
  | JStr s => Ok (JNum (Z.of_nat (String.length s)))
  | JObj o => Ok (obj_get o "length")
  | _ => Ok JUndefined
  end.

(** [[...v]]: the elements of an iterable. *)
Definition spread (v : jsval) : outcome (list jsval) :=
  match v with
  | JArr l => Ok l
  | JStr s => Ok (chars s)
  | _ => Throw TypeError
  end.

(** ** JSON

    The platform's [JSON.stringify] and [JSON.parse], on the value model
    above.  Numbers are integers (a text with a fraction or an exponent is
    outside the model and is rejected), characters are 8-bit code units
    (an escape above [ÿ] is rejected). *)

Module JSON.

Definition dquote : ascii := "034".
Definition backslash : ascii := "092".

Definition hex_digit (n : N) : ascii :=
  match n with
  | 0 => "0" | 1 => "1" | 2 => "2" | 3 => "3" | 4 => "4" | 5 => "5"
  | 6 => "6" | 7 => "7" | 8 => "8" | 9 => "9" | 10 => "a" | 11 => "b"
  | 12 => "c" | 13 => "d" | 14 => "e" | _ => "f"
  end%N%char.

(** QuoteJSONString, one code unit at a time. *)
Definition escape_char (c : ascii) : string :=
  let n := N_of_ascii c in
  if (n =? 34)%N then String backslash (String dquote EmptyString)
  else if (n =? 92)%N then String backslash (String backslash EmptyString)
  else if (n =? 8)%N then String backslash "b"
  else if (n =? 9)%N then String backslash "t"
  else if (n =? 10)%N then String backslash "n"
  else if (n =? 12)%N then String backslash "f"
  else if (n =? 13)%N then String backslash "r"
  else if (n <? 32)%N then
    String backslash
      (String "u" (String "0" (String "0"
        (String (hex_digit (n / 16)) (String (hex_digit (n mod 16)) EmptyString)))))
  else String c EmptyString.

Fixpoint escape (s : string) : string :=
  match s with
  | EmptyString => EmptyString
  | String c r => escape_char c +:+ escape r
  end.

Definition quote (s : string) : string :=
  String dquote (escape s +:+ String dquote EmptyString).

(** Serialisation of a value in element position: [undefined] prints as
    [null] inside an array and the property is dropped inside an object. *)
Fixpoint text (v : jsval) : string :=
  match v with
  | JUndefined | JNull => "null"
  | JBool true => "true"
  | JBool false => "false"
  | JNum n => Z_to_string n
  | JStr s => quote s
  | JArr l =>
      String "["
        ((fix elems (l : list jsval) : string :=
            match l with
            | [] => "]"
            | x :: l' =>
                text x +:+ match l' with [] => "]" | _ => String "," (elems l') end
            end) l)
  | JObj o =>
      String "{"
        ((fix members (first : bool) (o : props) : string :=
            match o with
            | [] => "}"
            | (k, x) :: o' =>
                if is_undefined x then members first o'
                else (if first then EmptyString else ",")
                       +:+ quote k +:+ ":" +:+ text x +:+ members false o'
            end) true o)
  end.

Definition elems_text : list jsval → string :=
  fix elems (l : list jsval) : string :=
    match l with
    | [] => "]"
    | x :: l' =>
        text x +:+ match l' with [] => "]" | _ => String "," (elems l') end
    end.

Definition members_text : bool → props → string :=
  fix members (first : bool) (o : props) : string :=
    match o with
    | [] => "}"
    | (k, x) :: o' =>
        if is_undefined x then members first o'
        else (if first then EmptyString else ",")
               +:+ quote k +:+ ":" +:+ text x +:+ members false o'
    end.

(** [JSON.stringify(v)]: [None] stands for the result [undefined]. *)
Definition stringify (v : jsval) : option string :=
  if is_undefined v then None else Some (text v).

(** *** Parsing *)

Definition is_ws (c : ascii) : bool :=
  let n := N_of_ascii c in
  (n =? 32)%N || (n =? 9)%N || (n =? 10)%N || (n =? 13)%N.

Fixpoint skip_ws (s : string) : string :=
  match s with
  | String c r => if is_ws c then skip_ws r else s
  | EmptyString => s
  end.

Fixpoint strip_prefix (p s : string) : option string :=
  match p, s with
  | EmptyString, _ => Some s
  | String a p', String b s' => if Ascii.eqb a b then strip_prefix p' s' else None
  | String _ _, EmptyString => None
  end.

Definition digit_cons (c : ascii) : option (Decimal.uint → Decimal.uint) :=
  match N_of_ascii c with
  | 48 => Some Decimal.D0 | 49 => Some Decimal.D1 | 50 => Some Decimal.D2
  | 51 => Some Decimal.D3 | 52 => Some Decimal.D4 | 53 => Some Decimal.D5
  | 54 => Some Decimal.D6 | 55 => Some Decimal.D7 | 56 => Some Decimal.D8
  | 57 => Some Decimal.D9 | _ => None
  end%N.

(** The longest prefix of decimal digits and what follows it. *)
Fixpoint read_digits (s : string) : Decimal.uint * string :=
  match s with
  | EmptyString => (Decimal.Nil, s)
  | String c r =>
      match digit_cons c with
      | Some d => let '(u, r') := read_digits r in (d u, r')
      | None => (Decimal.Nil, s)
      end
  end.

(** At least one digit and no leading zero. *)
Definition canonical (u : Decimal.uint) : bool :=
  Decimal.uint_beq (Decimal.unorm u) u.

Definition parse_number (s : string) : option (jsval * string) :=
  match s with
  | String c r =>
      if Ascii.eqb c "-" then
        let '(u, r') := read_digits r in
        if canonical u then Some (JNum (- Z.of_N (N.of_uint u)), r') else None
      else
        let '(u, r') := read_digits s in
        if canonical u then Some (JNum (Z.of_N (N.of_uint u)), r') else None
  | EmptyString => None
  end.

Definition hex_value (c : ascii) : option N :=
  let n := N_of_ascii c in
  if (48 <=? n)%N && (n <=? 57)%N then Some (n - 48)%N
  else if (97 <=? n)%N && (n <=? 102)%N then Some (n - 87)%N
  else if (65 <=? n)%N && (n <=? 70)%N then Some (n - 55)%N
  else None.

Definition unescape (c : ascii) : option ascii :=
  match N_of_ascii c with
  | 34 => Some dquote
  | 92 => Some backslash
  | 47 => Some "/"%char
  | 98 => Some "008"%char
  | 116 => Some "009"%char
  | 110 => Some "010"%char
  | 102 => Some "012"%char
  | 114 => Some "013"%char
  | _ => None
  end%N.

(** The characters of a string literal after its opening quote, up to and
    including the closing quote. *)
Fixpoint parse_string_body (s : string) : option (string * string) :=
  match s with
  | EmptyString => None
  | String c r =>
      if Ascii.eqb c dquote then Some (EmptyString, r)
      else if Ascii.eqb c backslash then
        match r with
        | EmptyString => None
        | String e r' =>
            if Ascii.eqb e "u" then
              match r' with
              | String h1 (String h2 (String h3 (String h4 r''))) =>
                  match hex_value h1, hex_value h2, hex_value h3, hex_value h4 with
                  | Some a, Some b, Some c', Some d =>
                      let n := (((a * 16 + b) * 16 + c') * 16 + d)%N in
                      if (n <? 256)%N then
                        '(str, rest) ← parse_string_body r'';
                        Some (String (ascii_of_N n) str, rest)
                      else None
                  | _, _, _, _ => None
                  end
              | _ => None
              end
            else
              ch ← unescape e;
              '(str, rest) ← parse_string_body r';
              Some (String ch str, rest)
        end
      else if (N_of_ascii c <? 32)%N then None
      else
        '(str, rest) ← parse_string_body r;
        Some (String c str, rest)
  end.

Fixpoint parse_value (fuel : nat) (s : string) : option (jsval * string) :=
  match fuel with
  | O => None
  | S fuel' =>
      match skip_ws s with
      | EmptyString => None
      | String c r =>
          if Ascii.eqb c "n" then
            r' ← strip_prefix "ull" r; Some (JNull, r')
          else if Ascii.eqb c "t" then
            r' ← strip_prefix "rue" r; Some (JBool true, r')
          else if Ascii.eqb c "f" then
            r' ← strip_prefix "alse" r; Some (JBool false, r')
          else if Ascii.eqb c dquote then
            '(str, r') ← parse_string_body r; Some (JStr str, r')
          else if Ascii.eqb c "[" then
            match skip_ws r with
            | EmptyString => None
            | String c' r' =>
                if Ascii.eqb c' "]" then Some (JArr [], r')
                else '(l, r'') ← parse_elems fuel' r; Some (JArr l, r'')
            end
          else if Ascii.eqb c "{" then
            match skip_ws r with
            | EmptyString => None
            | String c' r' =>
                if Ascii.eqb c' "}" then Some (JObj [], r')
                else
                  '(ms, r'') ← parse_members fuel' r;
                  Some (JObj (obj_with [] ms), r'')
            end
          else parse_number (String c r)
      end
  end
with parse_elems (fuel : nat) (s : string) : option (list jsval * string) :=
  match fuel with
  | O => None
  | S fuel' =>
      '(v, r) ← parse_value fuel' s;
      match skip_ws r with
      | EmptyString => None
      | String c r' =>
          if Ascii.eqb c "," then
            '(l, r'') ← parse_elems fuel' r'; Some (v :: l, r'')
          else if Ascii.eqb c "]" then Some ([v], r')
          else None
      end
  end
with parse_members (fuel : nat) (s : string) : option (props * string) :=
  match fuel with
  | O => None
  | S fuel' =>
      match skip_ws s with
      | EmptyString => None
      | String c r =>
          if Ascii.eqb c dquote then
            '(k, r1) ← parse_string_body r;
            match skip_ws r1 with
            | EmptyString => None
            | String c1 r2 =>
                if Ascii.eqb c1 ":" then
                  '(v, r3) ← parse_value fuel' r2;
                  match skip_ws r3 with
                  | EmptyString => None
                  | String c3 r4 =>
                      if Ascii.eqb c3 "," then
                        '(ms, r5) ← parse_members fuel' r4;
                        Some ((k, v) :: ms, r5)
                      else if Ascii.eqb c3 "}" then Some ([(k, v)], r4)
                      else None
                  end
                else None
            end
          else None
      end
  end.

(** [JSON.parse(s)] *)
Definition parse (s : string) : outcome jsval :=
  match parse_value (S (String.length s)) s with
  | Some (v, r) =>
      match skip_ws r with
      | EmptyString => Ok v
      | String _ _ => Throw SyntaxError
      end
  | None => Throw SyntaxError
  end.

(** The values [JSON.stringify] renders faithfully: no [undefined] at any
    depth and no repeated key in an object. *)
Fixpoint serializable (v : jsval) : bool :=
  match v with
  | JUndefined => false
  | JNull | JBool _ | JNum _ | JStr _ => true
  | JArr l => forallb serializable l
  | JObj o =>
      bool_decide (NoDup (obj_keys o))
      && (fix all (o : props) : bool :=
            match o with
            | [] => true
            | (_, x) :: o' => serializable x && all o'
            end) o
  end.

Definition serializable_props : props → bool :=
  fix all (o : props) : bool :=
    match o with
    | [] => true
    | (_, x) :: o' => serializable x && all o'
    end.

(** Number of nodes, counting list cells: the recursion depth the parser
    needs for the text of a value. *)
Fixpoint weight (v : jsval) : nat :=
  match v with
  | JArr l =>
      S ((fix go (l : list jsval) : nat :=
            match l with [] => 0 | x :: l' => S (weight x + go l') end) l)
  | JObj o =>
      S ((fix go (o : props) : nat :=
            match o with [] => 0 | (_, x) :: o' => S (weight x + go o') end) o)
  | _ => 1
  end.

Definition weight_list : list jsval → nat :=
  fix go (l : list jsval) : nat :=
    match l with [] => 0 | x :: l' => S (weight x + go l') end.

Definition weight_props : props → nat :=
  fix go (o : props) : nat :=
    match o with [] => 0 | (_, x) :: o' => S (weight x + go o') end.

(** *** Character classes used to state the round trip *)

(** What may follow a number: anything but a digit. *)
Definition no_digit (r : string) : Prop :=
  match r with String c _ => digit_cons c = None | EmptyString => True end.

(** The characters a number can start with. *)
Definition number_start (c : ascii) : bool :=
  Ascii.eqb c "-" || bool_decide (is_Some (digit_cons c)).

(** The characters a value can start with. *)
Definition value_start (c : ascii) : bool :=
  number_start c || Ascii.eqb c "n" || Ascii.eqb c "t" || Ascii.eqb c "f"
  || Ascii.eqb c dquote || Ascii.eqb c "[" || Ascii.eqb c "{".

End JSON.

(** ** The browser store *)

(** [window.localStorage]: string items, an optional quota on the total
    size of keys and values, and a flag for a store whose every access is
    refused (storage disabled by the user agent). *)
Record Storage : Type := {
  items : gmap string string;
  quota : option nat;
  blocked : bool;
}.

Definition usage (m : gmap string string) : nat :=
  map_fold (λ k v n, String.length k + String.length v + n) 0 m.

(** [localStorage.getItem(k)]; [None] is [null]. *)
Definition getItem (ls : Storage) (k : string) : outcome (option string) :=
  if blocked ls then Throw SecurityError else Ok (items ls !! k).

(** [localStorage.setItem(k, v)] *)
Definition setItem (ls : Storage) (k v : string) : outcome Storage :=
  if blocked ls then Throw SecurityError
  else
    let m := <[k := v]> (items ls) in
    match quota ls with
    | Some q =>
        if decide (usage m ≤ q)
        then Ok {| items := m; quota := quota ls; blocked := false |}
        else Throw QuotaExceededError
    | None => Ok {| items := m; quota := None; blocked := false |}
    end.

(** [localStorage.removeItem(k)] *)
Definition removeItem (ls : Storage) (k : string) : outcome Storage :=
  if blocked ls then Throw SecurityError
  else Ok {| items := delete k (items ls); quota := quota ls; blocked := false |}.

(** The keys as [localStorage.key(i)] numbers them; the order is the user
    agent's own, here that of the map. *)
Definition key_list (ls : Storage) : list string := (map_to_list (items ls)).*1.

(** [localStorage.length] *)
Definition storage_length (ls : Storage) : outcome nat :=
  if blocked ls then Throw SecurityError else Ok (length (key_list ls)).

(** [localStorage.key(i)]; [None] is [null]. *)
Definition key_at (ls : Storage) (i : nat) : outcome (option string) :=
  if blocked ls then Throw SecurityError else Ok (key_list ls !! i).

(** A loop whose body may throw. *)
Fixpoint for_each {A B} (f : B → A → outcome B) (l : list A) (b : B)
  : outcome B :=
  match l with
  | [] => Ok b
  | x :: l' => b' ← f b x; for_each f l' b'
  end.

(** What a call can observe of its surroundings: whether [window] exists
    (it does not during server rendering), the store, and the clock read
    by [Date.now()]. *)
Record Env : Type := {
  has_window : bool;
  localStorage : Storage;
  now : Z;
}.

Definition with_storage (env : Env) (ls : Storage) : Env :=
  {| has_window := has_window env; localStorage := ls; now := now env |}.

(** ** lib/persistence.ts *)

Module Persistence.

Definition STORAGE_PREFIX : string := "deeptutor_".
Definition STORAGE_VERSION : Z := 1.

(** The [StorageWrapper] written around every value. *)
Definition wrap (value : jsval) (timestamp : Z) : jsval :=
  JObj [("version", JNum STORAGE_VERSION); ("data", value);
        ("timestamp", JNum timestamp)].

Definition loadFromStorage (env : Env) (key : string) (defaultValue : jsval)
  : outcome jsval :=
  if negb (has_window env) then Ok defaultValue
  else
    try_catch
      (let prefixedKey := STORAGE_PREFIX +:+ key in
       raw ← getItem (localStorage env) prefixedKey;
       match raw with
       | None => Ok defaultValue
       | Some raw =>
           if negb (truthy (JStr raw)) then Ok defaultValue
           else
             wrapper ← JSON.parse raw;
             version ← get_prop wrapper "version";
             if negb (is_num version STORAGE_VERSION) then Ok defaultValue
             else get_prop wrapper "data"
       end)
      (λ error, Ok defaultValue).

(** [setItem] receives [JSON.stringify(wrapper)] converted to a string. *)
Definition string_arg (s : option string) : string :=
  match s with Some s => s | None => "undefined" end.

Definition saveToStorage (env : Env) (key : string) (value : jsval)
  : outcome Env :=
  if negb (has_window env) then Ok env
  else
    try_catch
      (let prefixedKey := STORAGE_PREFIX +:+ key in
       let wrapper := wrap value (now env) in
       ls ← setItem (localStorage env) prefixedKey
              (string_arg (JSON.stringify wrapper));
       Ok (with_storage env ls))
      (λ error, Ok env).

Definition removeFromStorage (env : Env) (key : string) : outcome Env :=
  if negb (has_window env) then Ok env
  else
    try_catch
      (let prefixedKey := STORAGE_PREFIX +:+ key in
       ls ← removeItem (localStorage env) prefixedKey;
       Ok (with_storage env ls))
      (λ error, Ok env).

(** [key && key.startsWith(STORAGE_PREFIX)] *)
Definition is_own_key (key : option string) : bool :=
  match key with
  | Some k => truthy (JStr k) && String.prefix STORAGE_PREFIX k
  | None => false
  end.

(** The first loop of [clearAllStorage] and of [getStorageStats]: the
    keys of the store that carry the prefix, in the store's order.  The
    loop changes nothing, so [localStorage.length] is read once. *)
Definition own_keys (ls : Storage) : outcome (list string) :=
  n ← storage_length ls;
  for_each (λ keys i,
              key ← key_at ls i;
              Ok (if is_own_key key then keys ++ [default EmptyString key]
                  else keys))
           (seq 0 n) [].

Definition clearAllStorage (env : Env) : outcome Env :=
  if negb (has_window env) then Ok env
  else
    try_catch
      (keysToRemove ← own_keys (localStorage env);
       ls ← for_each removeItem keysToRemove (localStorage env);
       Ok (with_storage env ls))
      (λ error, Ok env).

(** [new Blob([s]).size]: the length of [s] in UTF-8, a code unit below
    128 taking one byte and any other two. *)
Fixpoint blob_size (s : string) : nat :=
  match s with
  | EmptyString => 0
  | String c r => (if (N_of_ascii c <? 128)%N then 1 else 2) + blob_size r
  end.

(** [s.replace(pattern, by)] with a string pattern: the first occurrence
    only. *)
Fixpoint replace (pattern by_ s : string) : string :=
  match JSON.strip_prefix pattern s with
  | Some rest => by_ +:+ rest
  | None =>
      match s with
      | EmptyString => EmptyString
      | String c r => String c (replace pattern by_ r)
      end
  end.

Record StorageStats : Type := {
  totalSize : nat;
  stat_items : list (string * nat);
}.

(** The body of the loop of [getStorageStats] for index [i]. *)
Definition stats_step (ls : Storage) (acc : StorageStats) (i : nat)
  : outcome StorageStats :=
  key ← key_at ls i;
  if is_own_key key then
    let key := default EmptyString key in
    raw ← getItem ls key;
    let value := js_or (from_option JStr JNull raw) (JStr EmptyString) in
    let size := blob_size (key +:+ to_string value) in
    Ok {| totalSize := totalSize acc + size;
          stat_items :=
            stat_items acc ++ [(replace STORAGE_PREFIX EmptyString key, size)] |}
  else Ok acc.

(** The loop inside [try]: what was gathered when an access throws is
    what the function returns. *)
Fixpoint stats_loop (ls : Storage) (indices : list nat) (acc : StorageStats)
  : StorageStats :=
  match indices with
  | [] => acc
  | i :: rest =>
      match stats_step ls acc i with
      | Ok acc' => stats_loop ls rest acc'
      | Throw _ => acc
      end
  end.

Definition getStorageStats (env : Env) : StorageStats :=
  let empty := {| totalSize := 0; stat_items := [] |} in
  if negb (has_window env) then empty
  else
    match storage_length (localStorage env) with
    | Ok n => stats_loop (localStorage env) (seq 0 n) empty
    | Throw _ => empty
    end.

(** What [getStorageStats] lists for the key [k] of the store. *)
Definition stat_entry (ls : Storage) (k : string) : string * nat :=
  (replace STORAGE_PREFIX EmptyString k,
   blob_size (k +:+ default EmptyString (items ls !! k))).

(** The entry a read can see under [key]: none without a window or when
    the store refuses access. *)
Definition stored_entry (env : Env) (key : string) : option string :=
  if has_window env && negb (blocked (localStorage env))
  then items (localStorage env) !! (STORAGE_PREFIX +:+ key)
  else None.

(** The version tag a decoded entry carries, if it carries a number. *)
Definition version_tag (wrapper : jsval) : option Z :=
  match get_opt wrapper "version" with JNum n => Some n | _ => None end.

Definition persistState (state : props) (exclude : list string) : props :=
  foldl (λ result key,
           if negb (includes exclude key)
           then obj_set result key (obj_get state key)
           else result)
        [] (obj_keys state).

Definition mergeWithDefaults (persistedState : jsval) (defaultState : props)
    (exclude : list string) : props :=
  if negb (truthy persistedState) then defaultState
  else
    foldl (λ result key,
             if includes exclude key then result
             else
               let value := obj_get (own_props persistedState) key in
               if negb (is_undefined value) then obj_set result key value
               else result)
          defaultState (obj_keys (own_props persistedState)).

Inductive module : Type :=
  | CHAT | SOLVER | QUESTION | RESEARCH | IDEAGEN | GUIDE.

Definition STORAGE_KEYS (m : module) : string :=
  match m with
  | CHAT => "chat_state"
  | SOLVER => "solver_state"
  | QUESTION => "question_state"
  | RESEARCH => "research_state"
  | IDEAGEN => "ideagen_state"
  | GUIDE => "guide_session"
  end.

Definition EXCLUDE_FIELDS (m : module) : list string :=
  match m with
  | CHAT => ["isLoading"; "currentStage"]
  | SOLVER => ["isSolving"; "logs"; "agentStatus"; "tokenStats"; "progress"]
  | QUESTION => ["logs"; "progress"; "agentStatus"; "tokenStats"; "uploadedFile"]
  | RESEARCH => ["status"; "logs"; "progress"]
  | IDEAGEN => ["isGenerating"; "progress"]
  | GUIDE => ["isLoading"; "loadingMessage"]
  end.

End Persistence.

(** ** context/GlobalContext.tsx *)

Module GlobalContext.
Import Persistence.

(** The five states the provider owns. *)
Inductive channel : Type := Solver | Question | Research | IdeaGen | Chat.

Global Instance channel_eq_dec : EqDecision channel.
Proof. solve_decision. Defined.

Definition storage_key (c : channel) : string :=
  match c with
  | Solver => STORAGE_KEYS SOLVER
  | Question => STORAGE_KEYS QUESTION
  | Research => STORAGE_KEYS RESEARCH
  | IdeaGen => STORAGE_KEYS IDEAGEN
  | Chat => STORAGE_KEYS CHAT
  end.

Definition exclude_fields (c : channel) : list string :=
  match c with
  | Solver => EXCLUDE_FIELDS SOLVER
  | Question => EXCLUDE_FIELDS QUESTION
  | Research => EXCLUDE_FIELDS RESEARCH
  | IdeaGen => EXCLUDE_FIELDS IDEAGEN
  | Chat => EXCLUDE_FIELDS CHAT
  end.

(** *** Default states *)

Definition solver_agents (status : string) : jsval :=
  JObj [("InvestigateAgent", JStr status); ("NoteAgent", JStr status);
        ("ManagerAgent", JStr status); ("SolveAgent", JStr status);
        ("ToolAgent", JStr status); ("ResponseAgent", JStr status);
        ("PrecisionAnswerAgent", JStr status)].

Definition question_agents : jsval :=
  JObj [("QuestionGenerationAgent", JStr "pending");
        ("ValidationWorkflow", JStr "pending");
        ("RetrievalTool", JStr "pending")].

Definition token_stats_unknown : jsval :=
  JObj [("model", JStr "Unknown"); ("calls", JNum 0); ("tokens", JNum 0);
        ("input_tokens", JNum 0); ("output_tokens", JNum 0); ("cost", JNum 0)].

Definition progress_none : jsval :=
  JObj [("stage", JNull); ("progress", JObj [])].

Definition question_progress_none : jsval :=
  JObj [("stage", JNull); ("progress", JObj []); ("subFocuses", JArr []);
        ("activeQuestions", JArr []); ("completedQuestions", JNum 0);
        ("failedQuestions", JNum 0)].

Definition research_progress_none : jsval :=
  JObj [("stage", JNull); ("status", JStr EmptyString);
        ("executionMode", JUndefined); ("totalBlocks", JUndefined);
        ("currentBlock", JUndefined); ("currentSubTopic", JUndefined);
        ("currentBlockId", JUndefined); ("iterations", JUndefined);
        ("maxIterations", JUndefined); ("toolsUsed", JUndefined);
        ("currentTool", JUndefined); ("currentQuery", JUndefined);
        ("currentRationale", JUndefined); ("queriesUsed", JUndefined);
        ("activeTasks", JUndefined); ("activeCount", JUndefined);
        ("completedCount", JUndefined); ("keptBlocks", JUndefined);
        ("sections", JUndefined); ("wordCount", JUndefined);
        ("citations", JUndefined)].

Definition DEFAULT_SOLVER_STATE : props :=
  [("sessionId", JNull); ("isSolving", JBool false); ("logs", JArr []);
   ("messages", JArr []); ("question", JStr EmptyString);
   ("selectedKb", JStr EmptyString); ("agentStatus", solver_agents "pending");
   ("tokenStats", token_stats_unknown); ("progress", progress_none)].

Definition DEFAULT_QUESTION_STATE : props :=
  [("step", JStr "config"); ("mode", JStr "knowledge"); ("logs", JArr []);
   ("results", JArr []); ("topic", JStr EmptyString);
   ("difficulty", JStr "medium"); ("type", JStr "choice"); ("count", JNum 1);
   ("selectedKb", JStr EmptyString); ("progress", question_progress_none);
   ("agentStatus", question_agents); ("tokenStats", token_stats_unknown);
   ("uploadedFile", JNull); ("paperPath", JStr EmptyString)].

Definition DEFAULT_RESEARCH_STATE : props :=
  [("status", JStr "idle"); ("logs", JArr []); ("report", JNull);
   ("topic", JStr EmptyString); ("selectedKb", JStr EmptyString);
   ("progress", research_progress_none)].

Definition DEFAULT_IDEAGEN_STATE : props :=
  [("isGenerating", JBool false); ("generationStatus", JStr EmptyString);
   ("generatedIdeas", JArr []); ("progress", JNull)].

Definition DEFAULT_CHAT_STATE : props :=
  [("sessionId", JNull); ("messages", JArr []); ("isLoading", JBool false);
   ("selectedKb", JStr EmptyString); ("enableRag", JBool false);
   ("enableWebSearch", JBool false); ("currentStage", JNull)].

Definition default_state (c : channel) : props :=
  match c with
  | Solver => DEFAULT_SOLVER_STATE
  | Question => DEFAULT_QUESTION_STATE
  | Research => DEFAULT_RESEARCH_STATE
  | IdeaGen => DEFAULT_IDEAGEN_STATE
  | Chat => DEFAULT_CHAT_STATE
  end.

(** *** Sockets *)

(** [WebSocket.readyState].  The user agent dispatches [message] only
    while the socket is [OPEN]; [close()] moves it to [CLOSING] at once;
    when the connection ends the socket becomes [CLOSED] and [close] is
    dispatched, preceded by [error] if the connection failed, which is
    what closing a socket that is still [CONNECTING] does. *)
Inductive ready_state : Type := CONNECTING | OPEN | CLOSING | CLOSED.

Record File : Type := { file_name : string; file_base64 : string }.

(** What the handlers attached to a socket close over. *)
Inductive closure : Type :=
  | SolverWs (question kb : string)
  | QuestionWs (topic diff type : string) (count : Z) (kb : string)
  | MimicWs (file : option File) (paperPath kb : string)
            (maxQuestions : option Z)
  | ResearchWs (topic kb planMode : string) (enabledTools : list string)
               (skipRephrase : bool)
  | ChatWs (message : string) (chatState : props) (assistantMessage : string).

Record WebSocket : Type := {
  url : string;
  readyState : ready_state;
  sent : list string;
  handlers : closure;
}.

Definition live (s : WebSocket) : bool :=
  match readyState s with CONNECTING | OPEN => true | _ => false end.

(** *** The provider *)

(** Every piece of mutable data of [GlobalProvider] that the channels
    touch.  A socket is named by its index in [sockets].  [pending c]
    holds the argument of the debounced save of channel [c] while its timer
    runs. *)
Record Provider : Type := {
  env : Env;
  isHydrated : bool;
  states : channel → props;
  pending : channel → option props;
  wsRefs : channel → option nat;
  solverSessionIdRef : jsval;
  sessionIdRef : jsval;
  sockets : list WebSocket;
}.

Definition with_env (e : Env) (w : Provider) : Provider :=
  {| env := e; isHydrated := isHydrated w; states := states w;
     pending := pending w; wsRefs := wsRefs w;
     solverSessionIdRef := solverSessionIdRef w;
     sessionIdRef := sessionIdRef w; sockets := sockets w |}.
Definition with_isHydrated (b : bool) (w : Provider) : Provider :=
  {| env := env w; isHydrated := b; states := states w;
     pending := pending w; wsRefs := wsRefs w;
     solverSessionIdRef := solverSessionIdRef w;
     sessionIdRef := sessionIdRef w; sockets := sockets w |}.
Definition with_states (s : channel → props) (w : Provider) : Provider :=
  {| env := env w; isHydrated := isHydrated w; states := s;
     pending := pending w; wsRefs := wsRefs w;
     solverSessionIdRef := solverSessionIdRef w;
     sessionIdRef := sessionIdRef w; sockets := sockets w |}.
Definition with_pending (p : channel → option props) (w : Provider) : Provider :=
  {| env := env w; isHydrated := isHydrated w; states := states w;
     pending := p; wsRefs := wsRefs w;
     solverSessionIdRef := solverSessionIdRef w;
     sessionIdRef := sessionIdRef w; sockets := sockets w |}.
Definition with_wsRefs (r : channel → option nat) (w : Provider) : Provider :=
  {| env := env w; isHydrated := isHydrated w; states := states w;
     pending := pending w; wsRefs := r;
     solverSessionIdRef := solverSessionIdRef w;
     sessionIdRef := sessionIdRef w; sockets := sockets w |}.
Definition with_solverSessionIdRef (v : jsval) (w : Provider) : Provider :=
  {| env := env w; isHydrated := isHydrated w; states := states w;
     pending := pending w; wsRefs := wsRefs w;
     solverSessionIdRef := v;
     sessionIdRef := sessionIdRef w; sockets := sockets w |}.
Definition with_sessionIdRef (v : jsval) (w : Provider) : Provider :=
  {| env := env w; isHydrated := isHydrated w; states := states w;
     pending := pending w; wsRefs := wsRefs w;
     solverSessionIdRef := solverSessionIdRef w;
     sessionIdRef := v; sockets := sockets w |}.
Definition with_sockets (l : list WebSocket) (w : Provider) : Provider :=
  {| env := env w; isHydrated := isHydrated w; states := states w;
     pending := pending w; wsRefs := wsRefs w;
     solverSessionIdRef := solverSessionIdRef w;
     sessionIdRef := sessionIdRef w; sockets := l |}.

(** The provider as created by the first render. *)
Definition initial (e : Env) : Provider :=
  {| env := e; isHydrated := false; states := default_state;
     pending := λ _, None; wsRefs := λ _, None;
     solverSessionIdRef := JNull; sessionIdRef := JNull; sockets := [] |}.

(** *** State updates and the debounced save *)

(** Modelled from the spec: [debounce] of [lib/debounce], which is not
    among the sources.  "A trailing-edge debounce batches [rapid-fire state
    changes] into one write of the latest state": a call replaces the
    pending argument and restarts the timer; when the timer fires, the
    wrapped function runs once on the latest argument. *)
Definition debounce_call (c : channel) (arg : props) (w : Provider) : Provider :=
  with_pending (<[c := Some arg]> (pending w)) w.

(** The function wrapped by [debounce] in [saveSolverState],
    [saveQuestionState], [saveResearchState], [saveIdeaGenState] and
    [saveChatState]. *)
Definition save_state (c : channel) (state : props) (w : Provider)
  : outcome Provider :=
  if negb (isHydrated w) then Ok w
  else
    let toSave := persistState state (exclude_fields c) in
    e ← saveToStorage (env w) (storage_key c) (JObj toSave);
    Ok (with_env e w).

(** The timer of the debounced save of [c] fires. *)
Definition timer_fires (c : channel) (w : Provider) : outcome Provider :=
  match pending w c with
  | None => Ok w
  | Some state => save_state c state (with_pending (<[c := None]> (pending w)) w)
  end.

(** The auto-save effect of [c], run after a render in which the state of
    [c] changed. *)
Definition auto_save (c : channel) (w : Provider) : Provider :=
  if isHydrated w then debounce_call c (states w c) w else w.

(** [setXState(updater)] followed by the render it causes and that
    render's effects.  An updater that throws takes the component tree
    down: the step as a whole throws. *)
Definition setState (c : channel) (updater : props → outcome props)
    (w : Provider) : outcome Provider :=
  next ← updater (states w c);
  Ok (auto_save c (with_states (<[c := next]> (states w)) w)).

(** What the save path can see and change: the latch and, while the latch
    is down, the surroundings and the pending saves. *)
Definition save_view (w : Provider)
  : bool * option (Env * (channel → option props)) :=
  (isHydrated w, if isHydrated w then None else Some (env w, pending w)).

(** *** Socket operations *)

(** [new WebSocket(url)] with its four handlers attached. *)
Definition new_socket (u : string) (h : closure) (w : Provider) : Provider :=
  with_sockets
    (sockets w ++ [{| url := u; readyState := CONNECTING; sent := [];
                      handlers := h |}]) w.

Definition set_readyState (r : ready_state) (s : WebSocket) : WebSocket :=
  {| url := url s; readyState := r; sent := sent s; handlers := handlers s |}.

Definition set_handlers (h : closure) (s : WebSocket) : WebSocket :=
  {| url := url s; readyState := readyState s; sent := sent s; handlers := h |}.

(** [ws.close()] *)
Definition ws_close (id : nat) (w : Provider) : Provider :=
  with_sockets
    (alter (λ s, if live s then set_readyState CLOSING s else s) id (sockets w))
    w.

(** [ws.send(data)] *)
Definition ws_send (id : nat) (data : string) (w : Provider) : outcome Provider :=
  match sockets w !! id with
  | None => Ok w
  | Some s =>
      match readyState s with
      | CONNECTING => Throw InvalidStateError
      | OPEN =>
          Ok (with_sockets
                (<[id := {| url := url s; readyState := OPEN;
                            sent := sent s ++ [data];
                            handlers := handlers s |}]> (sockets w)) w)
      | CLOSING | CLOSED => Ok w
      end
  end.

(** [if (xWs.current) xWs.current.close();] *)
Definition close_current (c : channel) (w : Provider) : Provider :=
  match wsRefs w c with
  | Some id => ws_close id w
  | None => w
  end.

(** [xWs.current = ws] / [xWs.current = null] *)
Definition set_ref (c : channel) (r : option nat) (w : Provider) : Provider :=
  with_wsRefs (<[c := r]> (wsRefs w)) w.

(** [if (xWs.current === ws) xWs.current = null;] *)
Definition clear_ref_if_current (c : channel) (id : nat) (w : Provider) : Provider :=
  if decide (wsRefs w c = Some id) then set_ref c None w else w.

(** The sockets of the provider that are neither closing nor closed. *)
Definition live_sockets (w : Provider) : list nat :=
  filter (λ id, from_option live false (sockets w !! id))
         (seq 0 (length (sockets w))).

(** *** Restoring persisted state after hydration *)

(** [if (Object.keys(persisted).length > 0) setXState((prev) => updater(prev))]:
    the update queued for the next render, and the channels updated so
    far. *)
Definition restore_channel (c : channel) (persisted : jsval)
    (updater : props → props) (acc : Provider * list channel)
  : outcome (Provider * list channel) :=
  keys ← object_keys persisted;
  if decide (0 < length keys)
  then Ok (with_states (<[c := updater (states acc.1 c)]> (states acc.1)) acc.1,
           acc.2 ++ [c])
  else Ok acc.

(** What the restore effect makes of the state [prev] of channel [c] when
    the snapshot read for it is [persisted]. *)
Definition restored_state (c : channel) (persisted : jsval) (prev : props)
  : props :=
  if decide (0 < length (obj_keys (own_props persisted))) then
    let merged := mergeWithDefaults persisted prev (exclude_fields c) in
    match c with
    | Research =>
        if is_str (obj_get merged "status") "running"
        then obj_set merged "status" (JStr "idle")
        else merged
    | _ => merged
    end
  else prev.

(** The restore effect.  The updates it queues are applied by the render
    that follows the effect, hence that render's auto-save effects run
    with the latch already set. *)
Definition restore (w : Provider) : outcome Provider :=
  if negb (has_window (env w)) then Ok w
  else
    persistedSolver ← loadFromStorage (env w) (STORAGE_KEYS SOLVER) (JObj []);
    persistedQuestion ← loadFromStorage (env w) (STORAGE_KEYS QUESTION) (JObj []);
    persistedResearch ← loadFromStorage (env w) (STORAGE_KEYS RESEARCH) (JObj []);
    persistedIdeaGen ← loadFromStorage (env w) (STORAGE_KEYS IDEAGEN) (JObj []);
    persistedChat ← loadFromStorage (env w) (STORAGE_KEYS CHAT) (JObj []);
    acc ← restore_channel Solver persistedSolver
            (λ prev, mergeWithDefaults persistedSolver prev (exclude_fields Solver))
            (w, []);
    acc ← restore_channel Question persistedQuestion
            (λ prev, mergeWithDefaults persistedQuestion prev (exclude_fields Question))
            acc;
    acc ← restore_channel Research persistedResearch
            (λ prev,
               let merged :=
                 mergeWithDefaults persistedResearch prev (exclude_fields Research) in
               if is_str (obj_get merged "status") "running"
               then obj_set merged "status" (JStr "idle")
               else merged)
            acc;
    acc ← restore_channel IdeaGen persistedIdeaGen
            (λ prev, mergeWithDefaults persistedIdeaGen prev (exclude_fields IdeaGen))
            acc;
    acc ← restore_channel Chat persistedChat
            (λ prev, mergeWithDefaults persistedChat prev (exclude_fields Chat))
            acc;
    let w' :=
      if bool_decide (Chat ∈ acc.2)
         && truthy (obj_get (states acc.1 Chat) "sessionId")
      then with_sessionIdRef (obj_get (states acc.1 Chat) "sessionId") acc.1
      else acc.1 in
    Ok (foldl (λ w c, auto_save c w) (with_isHydrated true w') acc.2).

(** *** Solver *)

Definition log_entry (type content : string) : jsval :=
  JObj [("type", JStr type); ("content", JStr content)].

(** [addSolverLog], [addQuestionLog], [addResearchLog] *)
Definition add_log (c : channel) (log : jsval) (w : Provider) : outcome Provider :=
  setState c (λ prev,
    logs ← spread (obj_get prev "logs");
    Ok (obj_with prev [("logs", JArr (logs ++ [log]))])) w.

(** [`Error: ${data.content || data.message || "Unknown error"}`] *)
Definition error_text (data : jsval) : string :=
  "Error: " +:+
  to_string (js_or (js_or (get_opt data "content") (get_opt data "message"))
                   (JStr "Unknown error")).

(** [s.split(/[/\\]/)] followed by taking the last part. *)
Definition is_sep (c : ascii) : bool :=
  Ascii.eqb c "/" || Ascii.eqb c JSON.backslash.

Fixpoint has_sep (s : string) : bool :=
  match s with
  | EmptyString => false
  | String c r => is_sep c || has_sep r
  end.

Fixpoint last_part (s : string) : string :=
  match s with
  | EmptyString => EmptyString
  | String c r => if is_sep c || has_sep r then last_part r else s
  end.

Definition startSolver (question kb : string) (w : Provider) : outcome Provider :=
  let w := close_current Solver w in
  w ← setState Solver (λ prev,
         messages ← spread (obj_get prev "messages");
         Ok (obj_with prev
               [("isSolving", JBool true);
                ("logs", JArr []);
                ("messages",
                 JArr (messages ++
                       [JObj [("role", JStr "user"); ("content", JStr question)]]));
                ("question", JStr question);
                ("selectedKb", JStr kb);
                ("agentStatus", solver_agents "pending");
                ("tokenStats", token_stats_unknown);
                ("progress", progress_none)])) w;
  let id := length (sockets w) in
  Ok (set_ref Solver (Some id)
        (new_socket "/api/v1/solve" (SolverWs question kb) w)).

(** The frame sent by [ws.onopen]. *)
Definition solver_frame (question kb : string) (session_id : jsval) : jsval :=
  JObj [("question", JStr question); ("kb_name", JStr kb);
        ("session_id", session_id)].

Definition solver_onopen (id : nat) (question kb : string) (w : Provider)
  : outcome Provider :=
  w ← ws_send id
        (string_arg (JSON.stringify
                       (solver_frame question kb (solverSessionIdRef w)))) w;
  add_log Solver (log_entry "system" "Initializing connection...") w.

Definition solver_onmessage (id : nat) (event_data : string) (w : Provider)
  : outcome Provider :=
  data ← JSON.parse event_data;
  type ← get_prop data "type";
  if is_str type "session" then
    let session_id := get_opt data "session_id" in
    setState Solver (λ prev, Ok (obj_with prev [("sessionId", session_id)]))
      (with_solverSessionIdRef session_id w)
  else if is_str type "log" then
    add_log Solver data w
  else if is_str type "agent_status" then
    setState Solver (λ prev,
      Ok (obj_with prev
            [("agentStatus",
              js_or (get_opt data "all_agents")
                (JObj (obj_with (own_props (obj_get prev "agentStatus"))
                         [(to_string (get_opt data "agent"),
                           get_opt data "status")])))])) w
  else if is_str type "token_stats" then
    setState Solver (λ prev,
      Ok (obj_with prev
            [("tokenStats",
              js_or (get_opt data "stats") (obj_get prev "tokenStats"))])) w
  else if is_str type "progress" then
    setState Solver (λ prev,
      Ok (obj_with prev
            [("progress",
              JObj [("stage", get_opt data "stage");
                    ("progress", js_or (get_opt data "progress") (JObj []))])])) w
  else if is_str type "result" then
    let dirName := js_or (get_opt data "output_dir_name") (JStr EmptyString) in
    dirName ←
      (if negb (truthy dirName) && truthy (get_opt data "output_dir") then
         match get_opt data "output_dir" with
         | JStr dir => Ok (JStr (last_part dir))
         | _ => Throw TypeError
         end
       else Ok dirName);
    w ← setState Solver (λ prev,
           messages ← spread (obj_get prev "messages");
           Ok (obj_with prev
                 [("sessionId",
                   js_or (get_opt data "session_id") (obj_get prev "sessionId"));
                  ("messages",
                   JArr (messages ++
                         [JObj [("role", JStr "assistant");
                                ("content", get_opt data "final_answer");
                                ("outputDir", dirName)]]));
                  ("isSolving", JBool false)])) w;
    Ok (ws_close id w)
  else if is_str type "error" then
    w ← add_log Solver (log_entry "error" (error_text data)) w;
    setState Solver (λ prev, Ok (obj_with prev [("isSolving", JBool false)])) w
  else Ok w.

Definition solver_onerror (w : Provider) : outcome Provider :=
  w ← add_log Solver (log_entry "error" "Connection error") w;
  setState Solver (λ prev,
    Ok (obj_with prev
          [("isSolving", JBool false);
           ("agentStatus", solver_agents "error");
           ("progress", progress_none)])) w.

Definition solver_onclose (id : nat) (w : Provider) : outcome Provider :=
  Ok (clear_ref_if_current Solver id w).

Definition stopSolver (w : Provider) : outcome Provider :=
  let w :=
    match wsRefs w Solver with
    | Some id => set_ref Solver None (ws_close id w)
    | None => w
    end in
  w ← setState Solver (λ prev, Ok (obj_with prev [("isSolving", JBool false)])) w;
  add_log Solver (log_entry "system" "Solver stopped by user.") w.

Definition newSolverSession (w : Provider) : outcome Provider :=
  let selectedKb := obj_get (states w Solver) "selectedKb" in
  let w :=
    match wsRefs w Solver with
    | Some id => set_ref Solver None (ws_close id w)
    | None => w
    end in
  setState Solver
    (λ _, Ok (obj_with DEFAULT_SOLVER_STATE [("selectedKb", selectedKb)]))
    (with_solverSessionIdRef JNull w).

(** *** Research *)

(** [a ?? b], the right operand being evaluated only when needed. *)
Definition nullish_else (a : jsval) (b : outcome jsval) : outcome jsval :=
  match a with JUndefined | JNull => b | _ => Ok a end.

(** [v?.map(f) ?? otherwise] on a decoded frame field: [map] exists on
    arrays only. *)
Definition map_or (v : jsval) (f : jsval → outcome jsval)
    (otherwise : outcome jsval) : outcome jsval :=
  match v with
  | JUndefined | JNull => otherwise
  | JArr l => l' ← mapM f l; Ok (JArr l')
  | _ => Throw TypeError
  end.

Definition startResearch (topic kb planMode : string)
    (enabledTools : list string) (skipRephrase : bool) (w : Provider)
  : outcome Provider :=
  let w := close_current Research w in
  w ← setState Research (λ prev,
         Ok (obj_with prev
               [("status", JStr "running"); ("logs", JArr []);
                ("report", JNull); ("topic", JStr topic);
                ("selectedKb", JStr kb);
                ("progress", research_progress_none)])) w;
  let id := length (sockets w) in
  Ok (set_ref Research (Some id)
        (new_socket "/api/v1/research/run"
           (ResearchWs topic kb planMode enabledTools skipRephrase) w)).

Definition research_frame (topic kb planMode : string)
    (enabledTools : list string) (skipRephrase : bool) : jsval :=
  JObj [("topic", JStr topic); ("kb_name", JStr kb);
        ("plan_mode", JStr planMode);
        ("enabled_tools", JArr (map JStr enabledTools));
        ("skip_rephrase", JBool skipRephrase)].

Definition research_onopen (id : nat) (topic kb planMode : string)
    (enabledTools : list string) (skipRephrase : bool) (w : Provider)
  : outcome Provider :=
  w ← ws_send id
        (string_arg (JSON.stringify
           (research_frame topic kb planMode enabledTools skipRephrase))) w;
  add_log Research
    (log_entry "system"
       ("Starting Research Pipeline (Plan: " +:+ planMode +:+ ", Tools: "
        +:+ join "+" enabledTools +:+ ", Optimization: "
        +:+ (if negb skipRephrase then "On" else "Off/Pre-done") +:+ ")..."))
    w.

Definition research_progress (data : jsval) (prev : props) : outcome props :=
  let old k := get_prop (obj_get prev "progress") k in
  activeTasks ←
    map_or (get_opt data "active_tasks")
      (λ t,
         block_id ← get_prop t "block_id";
         Ok (JObj [("block_id", block_id);
                   ("sub_topic", get_opt t "sub_topic");
                   ("status", get_opt t "status");
                   ("iteration", js_or (get_opt t "iteration") (JNum 0));
                   ("max_iterations", get_opt t "max_iterations");
                   ("current_tool", get_opt t "current_tool");
                   ("current_query", get_opt t "current_query");
                   ("tools_used", get_opt t "tools_used")]))
      (old "activeTasks");
  queriesUsed ←
    map_or (get_opt data "queries_used")
      (λ q,
         query ← get_prop q "query";
         Ok (JObj [("query", query);
                   ("tool_type", get_opt q "tool_type");
                   ("rationale", get_opt q "rationale");
                   ("iteration", get_opt q "iteration")]))
      (old "queriesUsed");
  executionMode ← nullish_else (get_opt data "execution_mode") (old "executionMode");
  totalBlocks ← nullish_else (get_opt data "total_blocks") (old "totalBlocks");
  currentBlock ← nullish_else (get_opt data "current_block") (old "currentBlock");
  currentSubTopic ← nullish_else (get_opt data "sub_topic") (old "currentSubTopic");
  currentBlockId ← nullish_else (get_opt data "block_id") (old "currentBlockId");
  iterations ←
    nullish_else (js_nullish (get_opt data "iteration") (get_opt data "iterations"))
                 (old "iterations");
  maxIterations ← nullish_else (get_opt data "max_iterations") (old "maxIterations");
  toolsUsed ← nullish_else (get_opt data "tools_used") (old "toolsUsed");
  currentTool ← nullish_else (get_opt data "tool_type") (old "currentTool");
  currentQuery ← nullish_else (get_opt data "query") (old "currentQuery");
  currentRationale ← nullish_else (get_opt data "rationale") (old "currentRationale");
  activeCount ← nullish_else (get_opt data "active_count") (old "activeCount");
  completedCount ← nullish_else (get_opt data "completed_count") (old "completedCount");
  keptBlocks ← nullish_else (get_opt data "kept_blocks") (old "keptBlocks");
  sections ← nullish_else (get_opt data "sections") (old "sections");
  wordCount ← nullish_else (get_opt data "word_count") (old "wordCount");
  citations ← nullish_else (get_opt data "citations") (old "citations");
  Ok (obj_with prev
        [("progress",
          JObj [("stage", get_opt data "stage");
                ("status", get_opt data "status");
                ("executionMode", executionMode);
                ("totalBlocks", totalBlocks);
                ("currentBlock", currentBlock);
                ("currentSubTopic", currentSubTopic);
                ("currentBlockId", currentBlockId);
                ("iterations", iterations);
                ("maxIterations", maxIterations);
                ("toolsUsed", toolsUsed);
                ("currentTool", currentTool);
                ("currentQuery", currentQuery);
                ("currentRationale", currentRationale);
                ("queriesUsed", queriesUsed);
                ("activeTasks", activeTasks);
                ("activeCount", activeCount);
                ("completedCount", completedCount);
                ("keptBlocks", keptBlocks);
                ("sections", sections);
                ("wordCount", wordCount);
                ("citations", citations)])]).

Definition research_onmessage (id : nat) (event_data : string) (w : Provider)
  : outcome Provider :=
  data ← JSON.parse event_data;
  type ← get_prop data "type";
  if is_str type "log" then
    add_log Research data w
  else if is_str type "progress" then
    setState Research (research_progress data) w
  else if is_str type "result" then
    w ← setState Research (λ prev,
           Ok (obj_with prev
                 [("status", JStr "completed");
                  ("report", get_opt data "report")])) w;
    Ok (ws_close id w)
  else if is_str type "error" then
    w ← add_log Research (log_entry "error" (error_text data)) w;
    setState Research (λ prev, Ok (obj_with prev [("status", JStr "idle")])) w
  else Ok w.

Definition research_onerror (w : Provider) : outcome Provider :=
  w ← add_log Research (log_entry "error" "WebSocket connection error") w;
  setState Research (λ prev,
    Ok (obj_with prev
          [("status", JStr "idle");
           ("progress",
            JObj [("stage", JNull); ("status", JStr EmptyString);
                  ("executionMode", JUndefined);
                  ("activeTasks", JUndefined)])])) w.

Definition research_onclose (id : nat) (w : Provider) : outcome Provider :=
  Ok (clear_ref_if_current Research id w).

(** *** Question generation *)

Definition startQuestionGen (topic diff type : string) (count : Z)
    (kb : string) (w : Provider) : outcome Provider :=
  let w := close_current Question w in
  w ← setState Question (λ prev,
         Ok (obj_with prev
               [("step", JStr "generating"); ("mode", JStr "knowledge");
                ("logs", JArr []); ("results", JArr []);
                ("topic", JStr topic); ("difficulty", JStr diff);
                ("type", JStr type); ("count", JNum count);
                ("selectedKb", JStr kb);
                ("progress",
                 JObj [("stage",
                        JStr (if (1 <? count)%Z then "planning" else "generating"));
                       ("progress",
                        JObj [("current", JNum 0); ("total", JNum count)]);
                       ("subFocuses", JArr []); ("activeQuestions", JArr []);
                       ("completedQuestions", JNum 0);
                       ("failedQuestions", JNum 0)]);
                ("agentStatus", question_agents);
                ("tokenStats", token_stats_unknown)])) w;
  let id := length (sockets w) in
  Ok (set_ref Question (Some id)
        (new_socket "/api/v1/question/generate"
           (QuestionWs topic diff type count kb) w)).

Definition question_frame (topic diff type : string) (count : Z) (kb : string)
  : jsval :=
  JObj [("requirement",
         JObj [("knowledge_point", JStr topic); ("difficulty", JStr diff);
               ("question_type", JStr type);
               ("additional_requirements",
                JStr "Ensure clarity and academic rigor.")]);
        ("count", JNum count); ("kb_name", JStr kb)].

Definition question_onopen (id : nat) (topic diff type : string) (count : Z)
    (kb : string) (w : Provider) : outcome Provider :=
  w ← ws_send id
        (string_arg (JSON.stringify (question_frame topic diff type count kb))) w;
  add_log Question (log_entry "system" "Initializing Generator...") w.

(** [ws.onmessage] of [startQuestionGen].  The branches for [agent_status],
    [token_stats], [complete] and [error] are embedded; for the other
    types the handler knows ([log], [progress], [question_update],
    [question_error], [knowledge_saved], [plan_ready], [batch_summary],
    [result]) the result is [None]: those branches are outside this
    development.  A type the handler does not know changes nothing. *)
Definition question_onmessage (id : nat) (event_data : string) (w : Provider)
  : option (outcome Provider) :=
  match JSON.parse event_data with
  | Throw e => Some (Throw e)
  | Ok data =>
      match get_prop data "type" with
      | Throw e => Some (Throw e)
      | Ok type =>
          if existsb (is_str type)
               ["log"; "progress"; "question_update"; "question_error";
                "knowledge_saved"; "plan_ready"; "batch_summary"; "result"]
          then None
          else Some (
            if is_str type "agent_status" then
              setState Question (λ prev,
                Ok (obj_with prev
                      [("agentStatus",
                        js_or (get_opt data "all_agents")
                          (JObj (obj_with (own_props (obj_get prev "agentStatus"))
                                   [(to_string (get_opt data "agent"),
                                     get_opt data "status")])))])) w
            else if is_str type "token_stats" then
              setState Question (λ prev,
                Ok (obj_with prev
                      [("tokenStats",
                        js_or (get_opt data "stats")
                              (obj_get prev "tokenStats"))])) w
            else if is_str type "complete" then
              w ← setState Question (λ prev,
                     results ← js_length (obj_get prev "results");
                     Ok (obj_with prev
                           [("step", JStr "result");
                            ("progress",
                             JObj (obj_with (own_props (obj_get prev "progress"))
                                     [("stage", JStr "complete");
                                      ("completedQuestions", results)]))])) w;
              Ok (ws_close id w)
            else if is_str type "error" then
              w ← add_log Question (log_entry "error" (error_text data)) w;
              setState Question (λ prev,
                Ok (obj_with prev [("progress", progress_none)])) w
            else Ok w)
      end
  end.

Definition question_onerror (w : Provider) : outcome Provider :=
  w ← add_log Question (log_entry "error" "WebSocket connection error") w;
  setState Question (λ prev,
    Ok (obj_with prev
          [("step", JStr "config"); ("progress", progress_none);
           ("agentStatus", question_agents)])) w.

Definition question_onclose (id : nat) (w : Provider) : outcome Provider :=
  Ok (clear_ref_if_current Question id w).

(** [s.trim()] on 8-bit code units. *)
Definition is_space (c : ascii) : bool :=
  let n := N_of_ascii c in
  ((9 <=? n) && (n <=? 13) || (n =? 32) || (n =? 160))%N.

Fixpoint trim_start (s : string) : string :=
  match s with
  | String c r => if is_space c then trim_start r else s
  | EmptyString => s
  end.

Fixpoint trim_end (s : string) : string :=
  match s with
  | EmptyString => EmptyString
  | String c r =>
      match trim_end r with
      | EmptyString => if is_space c then EmptyString else String c EmptyString
      | r' => String c r'
      end
  end.

Definition trim (s : string) : string := trim_end (trim_start s).

(** [maxQuestions?: number] as a value. *)
Definition optional_number (n : option Z) : jsval :=
  match n with Some n => JNum n | None => JUndefined end.

Definition startMimicQuestionGen (file : option File) (paperPath kb : string)
    (maxQuestions : option Z) (w : Provider) : outcome Provider :=
  let w := close_current Question w in
  let hasFile := bool_decide (file ≠ None) in
  let hasParsedPath :=
    truthy (JStr paperPath) && negb (String.eqb (trim paperPath) EmptyString) in
  if negb hasFile && negb hasParsedPath then
    add_log Question
      (log_entry "error"
         "Please upload a PDF file or provide a parsed exam directory") w
  else
    w ← setState Question (λ prev,
           Ok (obj_with prev
                 [("step", JStr "generating"); ("mode", JStr "mimic");
                  ("logs", JArr []); ("results", JArr []);
                  ("selectedKb", JStr kb);
                  ("uploadedFile",
                   match file with Some _ => JObj [] | None => JNull end);
                  ("paperPath", JStr paperPath);
                  ("progress",
                   JObj [("stage", JStr (if hasFile then "uploading" else "parsing"));
                         ("progress",
                          JObj [("current", JNum 0);
                                ("total",
                                 js_or (optional_number maxQuestions) (JNum 1))])]);
                  ("agentStatus", question_agents);
                  ("tokenStats", token_stats_unknown)])) w;
    let id := length (sockets w) in
    Ok (set_ref Question (Some id)
          (new_socket "/api/v1/question/mimic"
             (MimicWs file paperPath kb maxQuestions) w)).

Definition mimic_frame (file : option File) (paperPath kb : string)
    (maxQuestions : option Z) : jsval :=
  match file with
  | Some f =>
      JObj [("mode", JStr "upload"); ("pdf_data", JStr (file_base64 f));
            ("pdf_name", JStr (file_name f)); ("kb_name", JStr kb);
            ("max_questions", optional_number maxQuestions)]
  | None =>
      JObj [("mode", JStr "parsed"); ("paper_path", JStr paperPath);
            ("kb_name", JStr kb);
            ("max_questions", optional_number maxQuestions)]
  end.

(** [ws.onopen] of [startMimicQuestionGen]; the file is read at once (the
    [FileReader] callback is folded into the handler). *)
Definition mimic_onopen (id : nat) (file : option File) (paperPath kb : string)
    (maxQuestions : option Z) (w : Provider) : outcome Provider :=
  match file with
  | Some f =>
      w ← add_log Question
            (log_entry "system" "Preparing to upload PDF file...") w;
      w ← ws_send id
            (string_arg (JSON.stringify (mimic_frame file paperPath kb maxQuestions)))
            w;
      add_log Question
        (log_entry "system" ("Uploaded: " +:+ file_name f +:+ ", parsing...")) w
  | None =>
      w ← ws_send id
            (string_arg (JSON.stringify (mimic_frame file paperPath kb maxQuestions)))
            w;
      add_log Question (log_entry "system" "Initializing Mimic Generator...") w
  end.

(** [handleMimicWsMessage].  The cases [log], [complete] and [error] are
    embedded; for [status], [progress], [question_update], [result] and
    [summary] the result is [None]. *)
Definition handleMimicWsMessage (data : jsval) (id : nat) (w : Provider)
  : option (outcome Provider) :=
  match get_prop data "type" with
  | Throw e => Some (Throw e)
  | Ok type =>
      if existsb (is_str type)
           ["status"; "progress"; "question_update"; "result"; "summary"]
      then None
      else Some (
        if is_str type "log" then add_log Question data w
        else if is_str type "complete" then
          w ← add_log Question
                (log_entry "success" "✅ Mimic generation completed!") w;
          w ← setState Question (λ prev,
                 results ← js_length (obj_get prev "results");
                 Ok (obj_with prev
                       [("step", JStr "result");
                        ("progress",
                         JObj (obj_with (own_props (obj_get prev "progress"))
                                 [("stage", JStr "complete");
                                  ("completedQuestions", results)]))])) w;
          Ok (ws_close id w)
        else if is_str type "error" then
          w ← add_log Question (log_entry "error" (error_text data)) w;
          setState Question (λ prev,
            Ok (obj_with prev
                  [("step", JStr "config"); ("progress", progress_none)])) w
        else Ok w)
  end.

Definition mimic_onmessage (id : nat) (event_data : string) (w : Provider)
  : option (outcome Provider) :=
  match JSON.parse event_data with
  | Throw e => Some (Throw e)
  | Ok data => handleMimicWsMessage data id w
  end.

Definition mimic_onerror (w : Provider) : outcome Provider :=
  w ← add_log Question (log_entry "error" "WebSocket connection error") w;
  setState Question (λ prev, Ok (obj_with prev [("step", JStr "config")])) w.

(** *** Chat *)

(** [sendChatMessage].  [chatState] read by the function and by the
    handlers it creates is the state of the render the function belongs
    to; the provider re-renders after every update, so that is the state
    at the time of the call. *)
Definition sendChatMessage (message : string) (w : Provider) : outcome Provider :=
  let chatState := states w Chat in
  if negb (truthy (JStr (trim message))) || truthy (obj_get chatState "isLoading")
  then Ok w
  else
    w ← setState Chat (λ prev,
           messages ← spread (obj_get prev "messages");
           Ok (obj_with prev
                 [("isLoading", JBool true);
                  ("currentStage", JStr "connecting");
                  ("messages",
                   JArr (messages ++
                         [JObj [("role", JStr "user");
                                ("content", JStr message)]]))])) w;
    let w := close_current Chat w in
    let id := length (sockets w) in
    Ok (set_ref Chat (Some id)
          (new_socket "/api/v1/chat" (ChatWs message chatState EmptyString) w)).

Definition chat_frame (message : string) (session_id history : jsval)
    (chatState : props) : jsval :=
  JObj [("message", JStr message); ("session_id", session_id);
        ("history", history);
        ("kb_name", obj_get chatState "selectedKb");
        ("enable_rag", obj_get chatState "enableRag");
        ("enable_web_search", obj_get chatState "enableWebSearch")].

(** [chatState.messages.map((msg) => ({ role: msg.role, content: msg.content }))] *)
Definition chat_history (chatState : props) : outcome jsval :=
  match obj_get chatState "messages" with
  | JArr l =>
      l' ← mapM (λ msg,
                   role ← get_prop msg "role";
                   Ok (JObj [("role", role); ("content", get_opt msg "content")]))
                l;
      Ok (JArr l')
  | _ => Throw TypeError
  end.

Definition chat_onopen (id : nat) (message : string) (chatState : props)
    (w : Provider) : outcome Provider :=
  history ← chat_history chatState;
  ws_send id
    (string_arg (JSON.stringify
                   (chat_frame message (sessionIdRef w) history chatState))) w.

(** [messages[messages.length - 1]] and the assignment to it. *)
Definition last_message (messages : list jsval) : jsval :=
  List.last messages JUndefined.

Definition set_last (messages : list jsval) (v : jsval) : list jsval :=
  <[length messages - 1 := v]> messages.

Definition chat_onmessage (id : nat) (assistantMessage : string)
    (event_data : string) (w : Provider) : outcome Provider :=
  data ← JSON.parse event_data;
  type ← get_prop data "type";
  if is_str type "session" then
    let session_id := get_opt data "session_id" in
    setState Chat (λ prev, Ok (obj_with prev [("sessionId", session_id)]))
      (with_sessionIdRef session_id w)
  else if is_str type "status" then
    setState Chat (λ prev,
      Ok (obj_with prev
            [("currentStage",
              js_or (get_opt data "stage") (get_opt data "message"))])) w
  else if is_str type "stream" then
    let assistantMessage := assistantMessage +:+ to_string (get_opt data "content") in
    let w :=
      with_sockets
        (alter (λ s,
                  match handlers s with
                  | ChatWs message chatState _ =>
                      set_handlers (ChatWs message chatState assistantMessage) s
                  | _ => s
                  end) id (sockets w)) w in
    setState Chat (λ prev,
      messages ← spread (obj_get prev "messages");
      let lastMessage := last_message messages in
      let messages :=
        if is_str (get_opt lastMessage "role") "assistant"
           && truthy (get_opt lastMessage "isStreaming")
        then
          set_last messages
            (JObj (obj_with (own_props lastMessage)
                     [("content", JStr assistantMessage)]))
        else
          messages ++
            [JObj [("role", JStr "assistant");
                   ("content", JStr assistantMessage);
                   ("isStreaming", JBool true)]] in
      Ok (obj_with prev
            [("messages", JArr messages);
             ("currentStage", JStr "generating")])) w
  else if is_str type "sources" then
    setState Chat (λ prev,
      messages ← spread (obj_get prev "messages");
      let lastMessage := last_message messages in
      let messages :=
        if is_str (get_opt lastMessage "role") "assistant"
        then
          set_last messages
            (JObj (obj_with (own_props lastMessage)
                     [("sources",
                       JObj [("rag", get_opt data "rag");
                             ("web", get_opt data "web")])]))
        else messages in
      Ok (obj_with prev [("messages", JArr messages)])) w
  else if is_str type "result" then
    w ← setState Chat (λ prev,
           messages ← spread (obj_get prev "messages");
           let lastMessage := last_message messages in
           let messages :=
             if is_str (get_opt lastMessage "role") "assistant"
             then
               set_last messages
                 (JObj (obj_with (own_props lastMessage)
                          [("content", get_opt data "content");
                           ("isStreaming", JBool false)]))
             else messages in
           Ok (obj_with prev
                 [("messages", JArr messages);
                  ("isLoading", JBool false);
                  ("currentStage", JNull)])) w;
    Ok (ws_close id w)
  else if is_str type "error" then
    w ← setState Chat (λ prev,
           messages ← spread (obj_get prev "messages");
           Ok (obj_with prev
                 [("isLoading", JBool false);
                  ("currentStage", JNull);
                  ("messages",
                   JArr (messages ++
                         [JObj [("role", JStr "assistant");
                                ("content",
                                 JStr ("Error: " +:+
                                       to_string (get_opt data "message")))]]))])) w;
    Ok (ws_close id w)
  else Ok w.

Definition chat_onerror (w : Provider) : outcome Provider :=
  setState Chat (λ prev,
    messages ← spread (obj_get prev "messages");
    Ok (obj_with prev
          [("isLoading", JBool false);
           ("currentStage", JNull);
           ("messages",
            JArr (messages ++
                  [JObj [("role", JStr "assistant");
                         ("content",
                          JStr "Connection error. Please try again.")]]))])) w.

Definition chat_onclose (id : nat) (w : Provider) : outcome Provider :=
  setState Chat (λ prev,
    Ok (obj_with prev [("isLoading", JBool false); ("currentStage", JNull)]))
    (clear_ref_if_current Chat id w).

Definition clearChatHistory (w : Provider) : outcome Provider :=
  setState Chat (λ prev,
    Ok (obj_with prev
          [("sessionId", JNull); ("messages", JArr []);
           ("currentStage", JNull)]))
    (with_sessionIdRef JNull w).

Definition newChatSession (w : Provider) : outcome Provider :=
  let w :=
    match wsRefs w Chat with
    | Some id => set_ref Chat None (ws_close id w)
    | None => w
    end in
  setState Chat (λ prev,
    Ok (obj_with prev
          [("sessionId", JNull); ("messages", JArr []);
           ("isLoading", JBool false); ("currentStage", JNull)]))
    (with_sessionIdRef JNull w).

(** *** Events of the transport *)

(** What the user agent reports on a socket: the connection opened, a
    text frame arrived, or the connection ended ([failed] when it ended
    through a failure, in which case [error] is dispatched before
    [close]). *)
Inductive ws_event : Type :=
  | WsOpen
  | WsMessage (data : string)
  | WsClosed (failed : bool).

Definition run_onopen (id : nat) (h : closure) (w : Provider) : outcome Provider :=
  match h with
  | SolverWs question kb => solver_onopen id question kb w
  | QuestionWs topic diff type count kb =>
      question_onopen id topic diff type count kb w
  | MimicWs file paperPath kb maxQuestions =>
      mimic_onopen id file paperPath kb maxQuestions w
  | ResearchWs topic kb planMode enabledTools skipRephrase =>
      research_onopen id topic kb planMode enabledTools skipRephrase w
  | ChatWs message chatState _ => chat_onopen id message chatState w
  end.

Definition run_onmessage (id : nat) (h : closure) (data : string) (w : Provider)
  : option (outcome Provider) :=
  match h with
  | SolverWs _ _ => Some (solver_onmessage id data w)
  | QuestionWs _ _ _ _ _ => question_onmessage id data w
  | MimicWs _ _ _ _ => mimic_onmessage id data w
  | ResearchWs _ _ _ _ _ => Some (research_onmessage id data w)
  | ChatWs _ _ assistantMessage => Some (chat_onmessage id assistantMessage data w)
  end.

Definition run_onerror (h : closure) (w : Provider) : outcome Provider :=
  match h with
  | SolverWs _ _ => solver_onerror w
  | QuestionWs _ _ _ _ _ => question_onerror w
  | MimicWs _ _ _ _ => mimic_onerror w
  | ResearchWs _ _ _ _ _ => research_onerror w
  | ChatWs _ _ _ => chat_onerror w
  end.

(** The socket created by [startMimicQuestionGen] has no [onclose]. *)
Definition run_onclose (id : nat) (h : closure) (w : Provider) : outcome Provider :=
  match h with
  | SolverWs _ _ => solver_onclose id w
  | QuestionWs _ _ _ _ _ => question_onclose id w
  | MimicWs _ _ _ _ => Ok w
  | ResearchWs _ _ _ _ _ => research_onclose id w
  | ChatWs _ _ _ => chat_onclose id w
  end.

Definition set_socket_state (id : nat) (r : ready_state) (w : Provider) : Provider :=
  with_sockets (alter (set_readyState r) id (sockets w)) w.

(** Dispatch of an event on socket [id], under the rules of the WebSocket
    interface: [open] only on a connecting socket, [message] only on an
    open one, [error] and [close] once, when the socket becomes closed.
    [None] is a frame whose branch is not embedded (see
    [question_onmessage]). *)
Definition deliver (id : nat) (ev : ws_event) (w : Provider)
  : option (outcome Provider) :=
  match sockets w !! id with
  | None => Some (Ok w)
  | Some s =>
      match ev, readyState s with
      | WsOpen, CONNECTING =>
          Some (run_onopen id (handlers s) (set_socket_state id OPEN w))
      | WsOpen, _ => Some (Ok w)
      | WsMessage data, OPEN => run_onmessage id (handlers s) data w
      | WsMessage _, _ => Some (Ok w)
      | WsClosed _, CLOSED => Some (Ok w)
      | WsClosed failed, _ =>
          Some (w ← (if failed
                     then run_onerror (handlers s) (set_socket_state id CLOSED w)
                     else Ok (set_socket_state id CLOSED w));
                run_onclose id (handlers s) w)
      end
  end.

(** What happens to the provider: calls made by the screens, events of
    the transports, timers of the debounced saves, and the restore
    effect. *)
Inductive action : Type :=
  | SetState (c : channel) (next : props)
  | StartSolver (question kb : string)
  | StopSolver
  | NewSolverSession
  | StartQuestionGen (topic diff type : string) (count : Z) (kb : string)
  | StartMimicQuestionGen (file : option File) (paperPath kb : string)
                          (maxQuestions : option Z)
  | StartResearch (topic kb planMode : string) (enabledTools : list string)
                  (skipRephrase : bool)
  | SendChatMessage (message : string)
  | ClearChatHistory
  | NewChatSession
  | Deliver (id : nat) (ev : ws_event)
  | TimerFires (c : channel)
  | Restore.

Definition perform (a : action) (w : Provider) : option (outcome Provider) :=
  match a with
  | SetState c next => Some (setState c (λ _, Ok next) w)
  | StartSolver question kb => Some (startSolver question kb w)
  | StopSolver => Some (stopSolver w)
  | NewSolverSession => Some (newSolverSession w)
  | StartQuestionGen topic diff type count kb =>
      Some (startQuestionGen topic diff type count kb w)
  | StartMimicQuestionGen file paperPath kb maxQuestions =>
      Some (startMimicQuestionGen file paperPath kb maxQuestions w)
  | StartResearch topic kb planMode enabledTools skipRephrase =>
      Some (startResearch topic kb planMode enabledTools skipRephrase w)
  | SendChatMessage message => Some (sendChatMessage message w)
  | ClearChatHistory => Some (clearChatHistory w)
  | NewChatSession => Some (newChatSession w)
  | Deliver id ev => deliver id ev w
  | TimerFires c => Some (timer_fires c w)
  | Restore => Some (restore w)
  end.

(** All the actions of a list, in order. *)
Fixpoint perform_all (trace : list action) (w : Provider)
  : option (outcome Provider) :=
  match trace with
  | [] => Some (Ok w)
  | a :: trace' =>
      match perform a w with
      | Some (Ok w') => perform_all trace' w'
      | r => r
      end
  end.

(** The last entry of a log or transcript. *)
Definition last_entry (v : jsval) : jsval :=
  match v with
  | JArr l => last_message l
  | _ => JUndefined
  end.

(** *** Transports of a channel *)

(** The channel whose state the handlers of a socket write. *)
Definition channel_of (h : closure) : channel :=
  match h with
  | SolverWs _ _ => Solver
  | QuestionWs _ _ _ _ _ | MimicWs _ _ _ _ => Question
  | ResearchWs _ _ _ _ _ => Research
  | ChatWs _ _ _ => Chat
  end.

Definition live_for (c : channel) (s : WebSocket) : bool :=
  live s && bool_decide (channel_of (handlers s) = c).

(** The sockets of channel [c] that are neither closing nor closed. *)
Definition live_on (c : channel) (w : Provider) : list nat :=
  filter (λ id, from_option (live_for c) false (sockets w !! id))
         (seq 0 (length (sockets w))).

(** A socket after [close()]. *)
Definition closing (s : WebSocket) : WebSocket :=
  if live s then set_readyState CLOSING s else s.

(** Every live socket of [c] is the one its ref holds. *)
Definition one_transport (c : channel) (w : Provider) : bool :=
  forallb (λ id, bool_decide (wsRefs w c = Some id)) (live_on c w).

Definition is_array (v : jsval) : bool :=
  match v with JArr _ => true | _ => false end.

(** The channel a call starts a session on, when the call is a start that
    supersedes: a chat message sent while one is loading is dropped
    instead. *)
Definition started_channel (a : action) : option channel :=
  match a with
  | StartSolver _ _ => Some Solver
  | StartQuestionGen _ _ _ _ _ | StartMimicQuestionGen _ _ _ _ => Some Question
  | StartResearch _ _ _ _ _ => Some Research
  | _ => None
  end.

(** What a start needs of the provider to go through: the solver spreads
    its transcript, and an exam is generated from a file or a directory. *)
Definition startable (a : action) (w : Provider) : bool :=
  match a with
  | StartSolver _ _ => is_array (obj_get (states w Solver) "messages")
  | StartMimicQuestionGen file paperPath _ _ =>
      bool_decide (file ≠ None)
      || truthy (JStr paperPath) && negb (String.eqb (trim paperPath) EmptyString)
  | _ => true
  end.

(** Frames as the server writes them. *)
Definition frame (type : string) (fields : props) : string :=
  JSON.text (JObj (("type", JStr type) :: fields)).

Definition stream_frame (delta : string) : string :=
  frame "stream" [("content", JStr delta)].

(** The [stream] frames of a reply, one per delta, on socket [id]. *)
Definition stream_events (id : nat) (deltas : list string) : list action :=
  map (λ delta, Deliver id (WsMessage (stream_frame delta))) deltas.

(** The deltas one after the other. *)
Definition concat_deltas (deltas : list string) : string :=
  foldr String.append EmptyString deltas.

(** A trace that runs to its end: no handler throws, and every frame is
    one of the embedded kinds. *)
Definition completes (trace : list action) (w : Provider) : bool :=
  match perform_all trace w with
  | Some (Ok _) => true
  | _ => false
  end.

(** The provider after a trace that ran to its end. *)
Definition after (w : Provider) (trace : list action) : Provider :=
  match perform_all trace w with
  | Some (Ok w') => w'
  | _ => w
  end.

(** The entry of the history sent for a message of the transcript. *)
Definition history_entry (msg : jsval) : jsval :=
  JObj [("role", get_opt msg "role"); ("content", get_opt msg "content")].

(** A string of white space only. *)
Fixpoint blank (s : string) : bool :=
  match s with
  | EmptyString => true
  | String c r => is_space c && blank r
  end.

(** *** Loading a session from the history *)

(** What [fetch] and [response.json()] give: the request fails, or a
    response arrives with its [ok] flag and its body decoded (or the
    exception of the decoder). *)
Inductive response : Type :=
  | NetworkError
  | Status (ok : bool) (json : outcome jsval).

(** How the promise of a load settles when it is rejected. *)
Inductive failure : Type :=
  | FetchFailed
  | SessionNotFound
  | Raised (e : exn).

Inductive settled (A : Type) : Type :=
  | Fulfilled (a : A)
  | Rejected (f : failure).
Arguments Fulfilled {A} a.
Arguments Rejected {A} f.

(** [v.map(f)]: arrays only have the method. *)
Definition map_method (v : jsval) (f : jsval → outcome jsval) : outcome jsval :=
  match v with
  | JArr l => l' ← mapM f l; Ok (JArr l')
  | _ => Throw TypeError
  end.

(** The body of [try] once the response is there. *)
Definition settle (r : response) (body : jsval → outcome Provider)
  : settled Provider :=
  match r with
  | NetworkError => Rejected FetchFailed
  | Status false _ => Rejected SessionNotFound
  | Status true (Throw e) => Rejected (Raised e)
  | Status true (Ok session) =>
      match body session with
      | Ok w => Fulfilled w
      | Throw e => Rejected (Raised e)
      end
  end.

(** [messages.length > 0 && messages[0].role === "user"
      ? messages[0].content : ""] on the array just built. *)
Definition first_question (messages : jsval) : jsval :=
  match messages with
  | JArr (first :: _) =>
      if is_str (get_opt first "role") "user" then get_opt first "content"
      else JStr EmptyString
  | _ => JStr EmptyString
  end.

Definition loadSolverSession (r : response) (w : Provider) : settled Provider :=
  settle r (λ session,
    raw ← get_prop session "messages";
    messages ← map_method raw (λ msg,
                  role ← get_prop msg "role";
                  Ok (JObj [("role", role); ("content", get_opt msg "content");
                            ("outputDir", get_opt msg "output_dir")]));
    let session_id := get_opt session "session_id" in
    setState Solver (λ prev,
      Ok (obj_with prev
            [("sessionId", session_id);
             ("messages", messages);
             ("selectedKb",
              js_or (get_opt session "kb_name") (obj_get prev "selectedKb"));
             ("tokenStats",
              js_or (get_opt session "token_stats") (obj_get prev "tokenStats"));
             ("question", first_question messages);
             ("isSolving", JBool false);
             ("logs", JArr []);
             ("progress", progress_none)]))
      (with_solverSessionIdRef session_id w)).

Definition loadChatSession (r : response) (w : Provider) : settled Provider :=
  settle r (λ session,
    raw ← get_prop session "messages";
    messages ← map_method raw (λ msg,
                  role ← get_prop msg "role";
                  Ok (JObj [("role", role); ("content", get_opt msg "content");
                            ("sources", get_opt msg "sources");
                            ("isStreaming", JBool false)]));
    let settings := js_or (get_opt session "settings") (JObj []) in
    let session_id := get_opt session "session_id" in
    setState Chat (λ prev,
      Ok (obj_with prev
            [("sessionId", session_id);
             ("messages", messages);
             ("selectedKb",
              js_or (get_opt settings "kb_name") (obj_get prev "selectedKb"));
             ("enableRag",
              js_nullish (get_opt settings "enable_rag")
                (obj_get prev "enableRag"));
             ("enableWebSearch",
              js_nullish (get_opt settings "enable_web_search")
                (obj_get prev "enableWebSearch"));
             ("isLoading", JBool false);
             ("currentStage", JNull)]))
      (with_sessionIdRef session_id w)).

End GlobalContext.

(** ** The sidebar of context/GlobalContext.tsx *)

Module Sidebar.
Import GlobalContext.

Definition SIDEBAR_MIN_WIDTH : Z := 64.
Definition SIDEBAR_MAX_WIDTH : Z := 320.
Definition SIDEBAR_DEFAULT_WIDTH : Z := 256.

(** [parseInt(s, 10)]: white space, a sign, then the longest run of
    digits; [None] is [NaN]. *)
Definition parseInt (s : string) : option Z :=
  let s := trim_start s in
  let '(negative, s) :=
    match s with
    | String c r =>
        if Ascii.eqb c "-" then (true, r)
        else if Ascii.eqb c "+" then (false, r)
        else (false, s)
    | EmptyString => (false, s)
    end in
  match JSON.read_digits s with
  | (Decimal.Nil, _) => None
  | (u, _) =>
      let n := Z.of_N (N.of_uint u) in
      Some (if negative then (- n)%Z else n)
  end.

(** [sidebarWidth] and [sidebarCollapsed], with the surroundings. *)
Record Sidebar : Type := {
  env : Env;
  sidebarWidth : Z;
  sidebarCollapsed : bool;
}.

Definition initial (e : Env) : Sidebar :=
  {| env := e; sidebarWidth := SIDEBAR_DEFAULT_WIDTH; sidebarCollapsed := false |}.

Definition with_width (width : Z) (sb : Sidebar) : Sidebar :=
  {| env := env sb; sidebarWidth := width;
     sidebarCollapsed := sidebarCollapsed sb |}.

Definition with_collapsed (collapsed : bool) (sb : Sidebar) : Sidebar :=
  {| env := env sb; sidebarWidth := sidebarWidth sb;
     sidebarCollapsed := collapsed |}.

Definition with_items (ls : Storage) (sb : Sidebar) : Sidebar :=
  {| env := with_storage (env sb) ls; sidebarWidth := sidebarWidth sb;
     sidebarCollapsed := sidebarCollapsed sb |}.

(** The effect that initialises the sidebar from the store.  The state
    after it, and the exception when a read of the store throws (nothing
    catches it: the effect ends there). *)
Definition init_effect (sb : Sidebar) : Sidebar * option exn :=
  if negb (has_window (env sb)) then (sb, None)
  else
    match getItem (localStorage (env sb)) "sidebarWidth" with
    | Throw e => (sb, Some e)
    | Ok storedWidth =>
        match getItem (localStorage (env sb)) "sidebarCollapsed" with
        | Throw e => (sb, Some e)
        | Ok storedCollapsed =>
            let sb :=
              match storedWidth with
              | Some raw =>
                  if truthy (JStr raw) then
                    match parseInt raw with
                    | Some width =>
                        if (SIDEBAR_MIN_WIDTH <=? width)%Z
                           && (width <=? SIDEBAR_MAX_WIDTH)%Z
                        then with_width width sb else sb
                    | None => sb
                    end
                  else sb
              | None => sb
              end in
            let sb :=
              match storedCollapsed with
              | Some raw =>
                  if truthy (JStr raw)
                  then with_collapsed (String.eqb raw "true") sb else sb
              | None => sb
              end in
            (sb, None)
        end
    end.

(** A write of the store after a state update: the update stays when the
    write throws. *)
Definition store_item (k v : string) (sb : Sidebar) : Sidebar * option exn :=
  if has_window (env sb) then
    match setItem (localStorage (env sb)) k v with
    | Ok ls => (with_items ls sb, None)
    | Throw e => (sb, Some e)
    end
  else (sb, None).

Definition setSidebarWidth (width : Z) (sb : Sidebar) : Sidebar * option exn :=
  let clampedWidth := Z.max SIDEBAR_MIN_WIDTH (Z.min SIDEBAR_MAX_WIDTH width) in
  store_item "sidebarWidth" (Z_to_string clampedWidth)
    (with_width clampedWidth sb).

Definition setSidebarCollapsed (collapsed : bool) (sb : Sidebar)
  : Sidebar * option exn :=
  store_item "sidebarCollapsed" (if collapsed then "true" else "false")
    (with_collapsed collapsed sb).

Definition toggleSidebar (sb : Sidebar) : Sidebar * option exn :=
  setSidebarCollapsed (negb (sidebarCollapsed sb)) sb.

Inductive action : Type :=
  | Init
  | SetSidebarWidth (width : Z)
  | SetSidebarCollapsed (collapsed : bool)
  | ToggleSidebar.

Definition perform (a : action) (sb : Sidebar) : Sidebar * option exn :=
  match a with
  | Init => init_effect sb
  | SetSidebarWidth width => setSidebarWidth width sb
  | SetSidebarCollapsed collapsed => setSidebarCollapsed collapsed sb
  | ToggleSidebar => toggleSidebar sb
  end.

(** The sidebar after a list of actions; an exception goes to the caller
    of the action and the component lives on. *)
Definition perform_all (trace : list action) (sb : Sidebar) : Sidebar :=
  foldl (λ sb a, (perform a sb).1) sb trace.

End Sidebar.

(** ** app/guide/hooks/useGuideSession.ts *)

Module GuideSession.
Import Persistence.

Definition GUIDE_CHAT_KEY : string := "guide_chat_messages".
Definition GUIDE_SESSION_EXCLUDE : list string := [].

(** The persisted part of the hook: the session record, the chat
    transcript, the hook's own hydration latch and its two debounced
    saves. *)
Record Hook : Type := {
  env : Env;
  isHydrated : bool;
  sessionState : props;
  chatMessages : jsval;
  pendingSession : option props;
  pendingChat : option jsval;
}.

(** [INITIAL_SESSION_STATE] comes from [../types], which is not among the
    sources: it is a parameter. *)
Definition initial (INITIAL_SESSION_STATE : props) (e : Env) : Hook :=
  {| env := e; isHydrated := false; sessionState := INITIAL_SESSION_STATE;
     chatMessages := JArr []; pendingSession := None; pendingChat := None |}.

Definition with_env (e : Env) (h : Hook) : Hook :=
  {| env := e; isHydrated := isHydrated h; sessionState := sessionState h;
     chatMessages := chatMessages h; pendingSession := pendingSession h;
     pendingChat := pendingChat h |}.

(** [setSessionState] and the auto-save effect that follows the render. *)
Definition setSessionState (next : props) (h : Hook) : Hook :=
  {| env := env h; isHydrated := isHydrated h; sessionState := next;
     chatMessages := chatMessages h;
     pendingSession := if isHydrated h then Some next else pendingSession h;
     pendingChat := pendingChat h |}.

(** [setChatMessages] and the auto-save effect that follows the render. *)
Definition setChatMessages (next : jsval) (h : Hook) : Hook :=
  {| env := env h; isHydrated := isHydrated h; sessionState := sessionState h;
     chatMessages := next; pendingSession := pendingSession h;
     pendingChat := if isHydrated h then Some next else pendingChat h |}.

(** The timer of [saveSessionState] fires. *)
Definition session_timer_fires (h : Hook) : outcome Hook :=
  match pendingSession h with
  | None => Ok h
  | Some state =>
      let toSave := persistState state GUIDE_SESSION_EXCLUDE in
      e ← saveToStorage (env h) (STORAGE_KEYS GUIDE) (JObj toSave);
      Ok {| env := e; isHydrated := isHydrated h;
            sessionState := sessionState h; chatMessages := chatMessages h;
            pendingSession := None; pendingChat := pendingChat h |}
  end.

(** The timer of [saveChatMessages] fires. *)
Definition chat_timer_fires (h : Hook) : outcome Hook :=
  match pendingChat h with
  | None => Ok h
  | Some messages =>
      e ← saveToStorage (env h) GUIDE_CHAT_KEY messages;
      Ok {| env := e; isHydrated := isHydrated h;
            sessionState := sessionState h; chatMessages := chatMessages h;
            pendingSession := pendingSession h; pendingChat := None |}
  end.

(** The restore effect.  [positive] stands for the comparison [v > 0] of
    the language, applied to [persistedChat.length]. *)
Definition restore (positive : jsval → bool) (h : Hook) : outcome Hook :=
  if negb (has_window (env h)) then Ok h
  else
    persistedSession ← loadFromStorage (env h) (STORAGE_KEYS GUIDE) (JObj []);
    persistedChat ← loadFromStorage (env h) GUIDE_CHAT_KEY (JArr []);
    keys ← object_keys persistedSession;
    chatLength ← js_length persistedChat;
    let session :=
      if decide (0 < length keys)
      then Some (mergeWithDefaults persistedSession (sessionState h)
                   GUIDE_SESSION_EXCLUDE)
      else None in
    let chat := if positive chatLength then Some persistedChat else None in
    Ok {| env := env h; isHydrated := true;
          sessionState := default (sessionState h) session;
          chatMessages := default (chatMessages h) chat;
          pendingSession :=
            match session with Some _ => session | None => pendingSession h end;
          pendingChat :=
            match chat with Some _ => chat | None => pendingChat h end |}.

Inductive action : Type :=
  | SetSessionState (next : props)
  | SetChatMessages (next : jsval)
  | SessionTimerFires
  | ChatTimerFires
  | Restore.

Definition perform (positive : jsval → bool) (a : action) (h : Hook)
  : outcome Hook :=
  match a with
  | SetSessionState next => Ok (setSessionState next h)
  | SetChatMessages next => Ok (setChatMessages next h)
  | SessionTimerFires => session_timer_fires h
  | ChatTimerFires => chat_timer_fires h
  | Restore => restore positive h
  end.

Fixpoint perform_all (positive : jsval → bool) (trace : list action) (h : Hook)
  : outcome Hook :=
  match trace with
  | [] => Ok h
  | a :: trace' => h' ← perform positive a h; perform_all positive trace' h'
  end.

End GuideSession.

(** ** Sample data *)

Module Examples.
Import Persistence GlobalContext.

Definition store (l : list (string * string)) (q : option nat) : Storage :=
  {| items := list_to_map l; quota := q; blocked := false |}.

(** A browser with an empty store and no quota. *)
Definition browser : Env :=
  {| has_window := true; localStorage := store [] None;
     now := 1700000000000 |}.

(** A browser whose store has no room left. *)
Definition browser_full : Env :=
  {| has_window := true; localStorage := store [] (Some 0);
     now := 1700000000000 |}.

(** A store written by a later version of the library. *)
Definition browser_v2 : Env :=
  {| has_window := true;
     localStorage :=
       store [("deeptutor_chat_state",
               JSON.text (JObj [("version", JNum 2);
                                ("data", JObj [("sessionId", JStr "s9")]);
                                ("timestamp", JNum 5)]))] None;
     now := 1700000000000 |}.

(** A solver state in the middle of a run. *)
Definition solver_busy : props :=
  obj_with DEFAULT_SOLVER_STATE
    [("sessionId", JStr "s1"); ("isSolving", JBool true);
     ("question", JStr "What is a monad?");
     ("logs", JArr [log_entry "system" "Initializing connection..."])].

(** Scenario A of the specification: a chat exchange from start to result. *)
Definition scenario_A : list action :=
  [Restore; SendChatMessage "hello"; Deliver 0 WsOpen;
   Deliver 0 (WsMessage (frame "session" [("session_id", JStr "s1")]));
   Deliver 0 (WsMessage (stream_frame "Hi"));
   Deliver 0 (WsMessage (stream_frame " there"));
   Deliver 0 (WsMessage (frame "result" [("content", JStr "Hi there")]))].

(** Question generation was started and its state saved; then the page
    was reloaded: a new provider over the same store. *)
Definition generating : Provider :=
  after (initial browser)
    [Restore; StartQuestionGen "Monads" "medium" "choice" 3 "kb";
     Deliver 0 WsOpen; TimerFires Question].

Definition reloaded : Provider := initial (env generating).

(** An error frame of the server, and the four other transports after
    receiving it. *)
Definition boom : string := frame "error" [("content", JStr "boom")].

Definition mimic_failed : Provider :=
  after (initial browser)
    [Restore; StartMimicQuestionGen None "exam" "kb" None; Deliver 0 WsOpen;
     Deliver 0 (WsMessage boom)].

Definition solver_failed : Provider :=
  after (initial browser)
    [Restore; StartSolver "q" "kb"; Deliver 0 WsOpen;
     Deliver 0 (WsMessage boom)].

Definition research_failed : Provider :=
  after (initial browser)
    [Restore; StartResearch "t" "kb" "medium" ["RAG"] false; Deliver 0 WsOpen;
     Deliver 0 (WsMessage boom)].

Definition chat_failed : Provider :=
  after (initial browser)
    [Restore; SendChatMessage "hello"; Deliver 0 WsOpen;
     Deliver 0 (WsMessage (frame "error" [("message", JStr "boom")]))].

(** The server names the session "s1", the state is saved, and the page
    is loaded again: the solver and the chat, before and after. *)
Definition session_s1 : string := frame "session" [("session_id", JStr "s1")].

Definition solver_in_session : Provider :=
  after (initial browser)
    [Restore; StartSolver "q" "kb"; Deliver 0 WsOpen;
     Deliver 0 (WsMessage session_s1); TimerFires Solver].

Definition solver_reloaded : Provider :=
  after (initial (env solver_in_session)) [Restore; StartSolver "q2" "kb"].

Definition chat_in_session : Provider :=
  after (initial browser)
    [Restore; SendChatMessage "hello"; Deliver 0 WsOpen;
     Deliver 0 (WsMessage session_s1); TimerFires Chat].

Definition chat_reloaded : Provider :=
  after (initial (env chat_in_session)) [Restore; SendChatMessage "again"].

(** Research started and its socket opened. *)
Definition researching : Provider :=
  after (initial browser)
    [Restore; StartResearch "t" "kb" "medium" ["RAG"] false; Deliver 0 WsOpen].

(** The solver started twice in a row, and two chat messages sent in a
    row. *)
Definition solver_twice : Provider :=
  after (initial browser)
    [Restore; StartSolver "q1" "kb"; StartSolver "q2" "kb"].

Definition chat_twice : Provider :=
  after (initial browser)
    [Restore; SendChatMessage "one"; SendChatMessage "two"].

(** A store whose chat entry has the right version and no data. *)
Definition browser_null : Env :=
  {| has_window := true;
     localStorage :=
       store [("deeptutor_chat_state",
               JSON.text (JObj [("version", JNum 1); ("data", JNull);
                                ("timestamp", JNum 5)]))] None;
     now := 1700000000000 |}.

End Examples.

(** * Properties *)

Import Persistence GlobalContext.

(** *** Facts about property lists *)

Lemma includes_true l k : includes l k = true ↔ k ∈ l.
Proof.
  unfold includes. rewrite existsb_exists. split.
  - intros (x & Hin & Heq). apply String.eqb_eq in Heq. subst.
    by apply list_elem_of_In.
  - intros Hin. exists k. split; [by apply list_elem_of_In | apply String.eqb_refl].
Qed.

Lemma includes_false l k : includes l k = false ↔ k ∉ l.
Proof.
  rewrite <- includes_true. destruct (includes l k); split; congruence.
Qed.

Lemma obj_get_set_eq o k v : obj_get (obj_set o k v) k = v.
Proof.
  induction o as [|[k' v'] o IH]; simpl.
  - by rewrite String.eqb_refl.
  - destruct (String.eqb k' k) eqn:E; simpl; by rewrite E.
Qed.

Lemma obj_get_set_ne o k k' v : k ≠ k' → obj_get (obj_set o k v) k' = obj_get o k'.
Proof.
  intros Hne. induction o as [|[k0 v0] o IH]; simpl.
  - by apply String.eqb_neq in Hne as ->.
  - destruct (String.eqb k0 k) eqn:E; simpl.
    + apply String.eqb_eq in E. subst k0.
      by apply String.eqb_neq in Hne as ->.
    + by rewrite IH.
Qed.

Lemma obj_get_set o k k' v :
  obj_get (obj_set o k v) k' = if String.eqb k k' then v else obj_get o k'.
Proof.
  destruct (String.eqb k k') eqn:E.
  - apply String.eqb_eq in E as <-. apply obj_get_set_eq.
  - apply String.eqb_neq in E. by apply obj_get_set_ne.
Qed.

Lemma obj_keys_set o k v k' :
  k' ∈ obj_keys (obj_set o k v) ↔ k' = k ∨ k' ∈ obj_keys o.
Proof.
  unfold obj_keys. induction o as [|[k0 v0] o IH]; simpl.
  - rewrite list_elem_of_singleton, elem_of_nil. tauto.
  - destruct (String.eqb k0 k) eqn:E; simpl.
    + apply String.eqb_eq in E. subst k0. rewrite !elem_of_cons. tauto.
    + rewrite !elem_of_cons, IH. tauto.
Qed.

Lemma obj_get_undefined o k : k ∉ obj_keys o → obj_get o k = JUndefined.
Proof.
  unfold obj_keys. induction o as [|[k0 v0] o IH]; simpl; [done|].
  intros Hni. apply not_elem_of_cons in Hni as [Hne Hni].
  assert (k0 ≠ k) as Hne' by congruence.
  apply String.eqb_neq in Hne' as ->. by apply IH.
Qed.


(** ** JSON: parsing inverts printing *)

Section json_round_trip.
Import JSON.

Local Arguments String.append !_ _ / : simpl nomatch.

Lemma str_app_assoc (a b c : string) : (a +:+ b) +:+ c = a +:+ (b +:+ c).
Proof. induction a as [|x a IH]; simpl; [done | by rewrite IH]. Qed.

Lemma str_app_nil_r (a : string) : a +:+ EmptyString = a.
Proof. induction a as [|x a IH]; simpl; [done | by rewrite IH]. Qed.

Lemma str_app_length (a b : string) :
  String.length (a +:+ b) = String.length a + String.length b.
Proof. induction a as [|x a IH]; simpl; [done | by rewrite IH]. Qed.

Lemma parse_escape_char c t :
  parse_string_body (escape_char c +:+ t)
  = match parse_string_body t with
    | Some (str, rest) => Some (String c str, rest)
    | None => None
    end.
Proof.
  destruct c as [[] [] [] [] [] [] [] []]; reflexivity.
Qed.

Lemma parse_string_body_escape s r :
  parse_string_body (escape s +:+ String dquote r) = Some (s, r).
Proof.
  induction s as [|c s IH]; simpl; [done|].
  by rewrite str_app_assoc, parse_escape_char, IH.
Qed.

Lemma strip_prefix_app p r : strip_prefix p (p +:+ r) = Some r.
Proof.
  induction p as [|c p IH]; simpl; [done|]. by rewrite Ascii.eqb_refl.
Qed.

Lemma read_digits_print u r :
  no_digit r → read_digits (NilEmpty.string_of_uint u +:+ r) = (u, r).
Proof.
  intros Hr. induction u as [|u IH|u IH|u IH|u IH|u IH|u IH|u IH|u IH|u IH|u IH];
    simpl; try (by rewrite IH).
  destruct r as [|c r]; simpl; [done|]. simpl in Hr. by rewrite Hr.
Qed.

Lemma unorm_to_uint n : Decimal.unorm (N.to_uint n) = N.to_uint n.
Proof. rewrite <- Unsigned.to_of. by rewrite Unsigned.of_to. Qed.

Lemma canonical_to_uint n : canonical (N.to_uint n) = true.
Proof.
  unfold canonical. apply Decimal.internal_uint_dec_lb, unorm_to_uint.
Qed.

Lemma N_to_string_digit n :
  ∃ c t, N_to_string n = String c t ∧ is_Some (digit_cons c).
Proof.
  unfold N_to_string.
  pose proof (unorm_nonnil (N.to_uint n)) as Hnil.
  rewrite unorm_to_uint in Hnil.
  destruct (N.to_uint n); simpl; [done|..]; eauto.
Qed.

Lemma Z_to_string_start z :
  ∃ c t, Z_to_string z = String c t ∧ number_start c = true.
Proof.
  unfold Z_to_string. destruct (z <? 0)%Z.
  - eexists _, _. split; [done|]. done.
  - destruct (N_to_string_digit (Z.to_N z)) as (c & t & -> & Hd).
    exists c, t. split; [done|]. unfold number_start.
    rewrite (bool_decide_eq_true_2 _ Hd). apply orb_true_r.
Qed.

Lemma parse_number_print z r :
  no_digit r → parse_number (Z_to_string z +:+ r) = Some (JNum z, r).
Proof.
  intros Hr. unfold Z_to_string. destruct (Z.ltb_spec z 0) as [Hneg|Hpos].
  - simpl. unfold N_to_string. rewrite read_digits_print by done.
    rewrite canonical_to_uint, Unsigned.of_to. do 3 f_equal. lia.
  - destruct (N_to_string_digit (Z.to_N z)) as (c & t & Heq & [d Hd]).
    assert (read_digits (N_to_string (Z.to_N z) +:+ r) = (N.to_uint (Z.to_N z), r)) as Hrd.
    { unfold N_to_string. by apply read_digits_print. }
    rewrite Heq in *.
    change (String c t +:+ r) with (String c (t +:+ r)) in *.
    unfold parse_number. cbv beta iota.
    assert (Ascii.eqb c "-" = false) as ->.
    { destruct c as [[] [] [] [] [] [] [] []]; try discriminate Hd; done. }
    rewrite Hrd, canonical_to_uint, Unsigned.of_to. do 3 f_equal. lia.
Qed.

Lemma parse_value_number fuel c t :
  number_start c = true →
  parse_value (S fuel) (String c t) = parse_number (String c t).
Proof.
  intros Hc.
  destruct c as [[] [] [] [] [] [] [] []]; try discriminate Hc; reflexivity.
Qed.

Lemma text_start v : ∃ c t, text v = String c t ∧ value_start c = true.
Proof.
  destruct v as [| |[]|z|s|l|o]; try (eexists _, _; split; [reflexivity|done]).
  destruct (Z_to_string_start z) as (c & t & Heq & Hc).
  exists c, t. split; [done|]. unfold value_start. by rewrite Hc.
Qed.

Lemma value_start_facts c :
  value_start c = true →
  is_ws c = false ∧ Ascii.eqb c "]" = false ∧ Ascii.eqb c "}" = false
  ∧ Ascii.eqb c "," = false.
Proof.
  intros Hc.
  destruct c as [[] [] [] [] [] [] [] []]; try discriminate Hc; done.
Qed.

Lemma skip_ws_start c t : is_ws c = false → skip_ws (String c t) = String c t.
Proof. intros H. simpl. by rewrite H. Qed.

Lemma no_digit_start c t : 
  Ascii.eqb c "," || Ascii.eqb c "]" || Ascii.eqb c "}" = true → no_digit (String c t).
Proof.
  intros Hc. simpl.
  destruct c as [[] [] [] [] [] [] [] []]; try discriminate Hc; done.
Qed.

Lemma serializable_defined v : serializable v = true → is_undefined v = false.
Proof. by destruct v. Qed.

Lemma members_text_false o :
  serializable_props o = true →
  members_text false o
  = match o with [] => "}" | _ => String "," (members_text true o) end.
Proof.
  destruct o as [|[k x] o]; [done|]. simpl.
  intros [Hx _]%andb_true_iff. by rewrite (serializable_defined x Hx).
Qed.

Lemma members_text_cons k x o :
  serializable x = true →
  members_text true ((k, x) :: o)
  = String dquote (escape k +:+ String dquote (String ":" (text x +:+ members_text false o))).
Proof.
  intros Hx. simpl. rewrite (serializable_defined x Hx). simpl.
  by rewrite str_app_assoc.
Qed.

Lemma obj_set_fresh acc k v : k ∉ obj_keys acc → obj_set acc k v = acc ++ [(k, v)].
Proof.
  unfold obj_keys. induction acc as [|[k0 v0] acc IH]; simpl; [done|].
  intros [Hne Hni]%not_elem_of_cons.
  assert (k0 ≠ k) as Hne' by congruence.
  apply String.eqb_neq in Hne' as ->. by rewrite IH.
Qed.

Lemma obj_with_fresh acc o :
  NoDup (obj_keys (acc ++ o)) → obj_with acc o = acc ++ o.
Proof.
  unfold obj_with. revert acc. induction o as [|[k v] o IH]; intros acc Hnd; simpl.
  - by rewrite List.app_nil_r.
  - rewrite obj_set_fresh.
    + rewrite IH; [by rewrite <- List.app_assoc|]. by rewrite <- List.app_assoc.
    + unfold obj_keys in *. rewrite fmap_app in Hnd.
      apply list.NoDup_app in Hnd as (_ & Hdisj & _).
      intros Hin. apply (Hdisj k Hin). by left.
Qed.

Lemma parse_value_array fuel r :
  parse_value (S fuel) (String "[" r)
  = match skip_ws r with
    | EmptyString => None
    | String c' r' =>
        if Ascii.eqb c' "]" then Some (JArr [], r')
        else '(l, r'') ← parse_elems fuel r; Some (JArr l, r'')
    end.
Proof. reflexivity. Qed.

Lemma parse_value_object fuel r :
  parse_value (S fuel) (String "{" r)
  = match skip_ws r with
    | EmptyString => None
    | String c' r' =>
        if Ascii.eqb c' "}" then Some (JObj [], r')
        else '(ms, r'') ← parse_members fuel r; Some (JObj (obj_with [] ms), r'')
    end.
Proof. reflexivity. Qed.

Lemma parse_value_string fuel r :
  parse_value (S fuel) (String dquote r)
  = '(str, r') ← parse_string_body r; Some (JStr str, r').
Proof. reflexivity. Qed.

Lemma parse_elems_S fuel s :
  parse_elems (S fuel) s
  = '(v, r) ← parse_value fuel s;
    match skip_ws r with
    | EmptyString => None
    | String c r' =>
        if Ascii.eqb c "," then
          '(l, r'') ← parse_elems fuel r'; Some (v :: l, r'')
        else if Ascii.eqb c "]" then Some ([v], r')
        else None
    end.
Proof. reflexivity. Qed.

Lemma parse_members_quote fuel r :
  parse_members (S fuel) (String dquote r)
  = '(k, r1) ← parse_string_body r;
    match skip_ws r1 with
    | EmptyString => None
    | String c1 r2 =>
        if Ascii.eqb c1 ":" then
          '(v, r3) ← parse_value fuel r2;
          match skip_ws r3 with
          | EmptyString => None
          | String c3 r4 =>
              if Ascii.eqb c3 "," then
                '(ms, r5) ← parse_members fuel r4;
                Some ((k, v) :: ms, r5)
              else if Ascii.eqb c3 "}" then Some ([(k, v)], r4)
              else None
          end
        else None
    end.
Proof. reflexivity. Qed.

Lemma elems_text_cons x l :
  elems_text (x :: l)
  = text x +:+ match l with [] => "]" | _ => String "," (elems_text l) end.
Proof. reflexivity. Qed.

Lemma parse_print_fuel fuel :
  (∀ v r, weight v ≤ fuel → serializable v = true → no_digit r →
     parse_value fuel (text v +:+ r) = Some (v, r)) ∧
  (∀ l r, l ≠ [] → weight_list l ≤ fuel → forallb serializable l = true →
     parse_elems fuel (elems_text l +:+ r) = Some (l, r)) ∧
  (∀ o r, o ≠ [] → weight_props o ≤ fuel → serializable_props o = true →
     parse_members fuel (members_text true o +:+ r) = Some (o, r)).
Proof.
  induction fuel as [|fuel (IHv & IHl & IHo)].
  { split; [|split].
    - intros v r Hw. destruct v; simpl in Hw; lia.
    - intros [|x l] r Hne Hw; [done|]. simpl in Hw. lia.
    - intros [|[k x] o] r Hne Hw; [done|]. simpl in Hw. lia. }
  split; [|split].
  - intros v r Hw Hs Hr. destruct v as [| |[]|z|s|l|o]; try done.
    + change (text (JNum z)) with (Z_to_string z).
      destruct (Z_to_string_start z) as (c & t & Heq & Hc).
      rewrite <- (parse_number_print z r Hr). rewrite Heq.
      by apply parse_value_number.
    + change (text (JStr s) +:+ r)
        with (String dquote ((escape s +:+ String dquote EmptyString) +:+ r)).
      rewrite str_app_assoc, parse_value_string.
      change (String dquote EmptyString +:+ r) with (String dquote r).
      by rewrite parse_string_body_escape.
    + change (text (JArr l) +:+ r) with (String "[" (elems_text l +:+ r)).
      rewrite parse_value_array.
      destruct l as [|x l]; [done|].
      change (weight (JArr (x :: l))) with (S (weight_list (x :: l))) in Hw.
      change (serializable (JArr (x :: l))) with (forallb serializable (x :: l)) in Hs.
      rewrite (IHl (x :: l) r ltac:(done) ltac:(lia) Hs).
      destruct (text_start x) as (c & t & Heq & Hc).
      destruct (value_start_facts c Hc) as (Hws & Hb & _).
      rewrite elems_text_cons, Heq.
      change ((String c t +:+ ?a) +:+ r) with (String c ((t +:+ a) +:+ r)).
      by rewrite skip_ws_start, Hb.
    + change (text (JObj o) +:+ r) with (String "{" (members_text true o +:+ r)).
      rewrite parse_value_object.
      destruct o as [|[k x] o]; [done|].
      change (weight (JObj ((k, x) :: o))) with (S (weight_props ((k, x) :: o))) in Hw.
      change (serializable (JObj ((k, x) :: o)))
        with (bool_decide (NoDup (obj_keys ((k, x) :: o)))
              && serializable_props ((k, x) :: o)) in Hs.
      apply andb_true_iff in Hs as [Hnd Hs]. apply bool_decide_eq_true_1 in Hnd.
      rewrite (IHo ((k, x) :: o) r ltac:(done) ltac:(lia) Hs).
      pose proof Hs as Hs'. simpl in Hs'. apply andb_true_iff in Hs' as [Hx _].
      rewrite (members_text_cons k x o Hx).
      change (String dquote ?a +:+ r) with (String dquote (a +:+ r)).
      rewrite skip_ws_start by done.
      change (Ascii.eqb dquote "}") with false. cbv beta iota.
      cbn [mbind option_bind]. by rewrite (obj_with_fresh [] _ Hnd).
  - intros [|x l] r Hne Hw Hs; [done|].
    change (weight_list (x :: l)) with (S (weight x + weight_list l)) in Hw.
    simpl in Hs. apply andb_true_iff in Hs as [Hx Hl].
    rewrite elems_text_cons, str_app_assoc, parse_elems_S.
    rewrite IHv; [|lia|done|by destruct l].
    destruct l as [|y l]; [done|].
    change (String "," (elems_text (y :: l)) +:+ r)
      with (String "," (elems_text (y :: l) +:+ r)).
    cbn [mbind option_bind]. rewrite skip_ws_start by done.
    change (Ascii.eqb "," ",") with true. cbv beta iota.
    rewrite (IHl (y :: l) r); [done|done| |done].
    change (weight_list (y :: l)) with (S (weight y + weight_list l)) in *. lia.
  - intros [|[k x] o] r Hne Hw Hs; [done|].
    change (weight_props ((k, x) :: o)) with (S (weight x + weight_props o)) in Hw.
    pose proof Hs as Hs'. simpl in Hs'. apply andb_true_iff in Hs' as [Hx Ho].
    rewrite (members_text_cons k x o Hx).
    change (String dquote ?a +:+ r) with (String dquote (a +:+ r)).
    rewrite parse_members_quote, str_app_assoc.
    change (String dquote (String ":" ?a) +:+ r) with (String dquote (String ":" (a +:+ r))).
    rewrite parse_string_body_escape.
    rewrite str_app_assoc, (members_text_false o Ho).
    cbn [mbind option_bind]. rewrite skip_ws_start by done.
    change (Ascii.eqb ":" ":") with true. cbv beta iota.
    rewrite IHv; [|lia|done|by destruct o].
    destruct o as [|[k' x'] o]; [done|].
    change (String "," (members_text true ((k', x') :: o)) +:+ r)
      with (String "," (members_text true ((k', x') :: o) +:+ r)).
    cbn [mbind option_bind]. rewrite skip_ws_start by done.
    change (Ascii.eqb "," ",") with true. cbv beta iota.
    rewrite (IHo ((k', x') :: o) r); [done|done| |done].
    change (weight_props ((k', x') :: o)) with (S (weight x' + weight_props o)) in *. lia.
Qed.

Lemma jsval_ind' (P : jsval → Prop) :
  P JUndefined → P JNull → (∀ b, P (JBool b)) → (∀ n, P (JNum n)) →
  (∀ s, P (JStr s)) →
  (∀ l, Forall P l → P (JArr l)) →
  (∀ o, Forall (λ kv, P kv.2) o → P (JObj o)) →
  ∀ v, P v.
Proof.
  intros Hu Hn Hb Hz Hs Ha Ho.
  exact (fix IH v :=
    match v with
    | JUndefined => Hu
    | JNull => Hn
    | JBool b => Hb b
    | JNum n => Hz n
    | JStr s => Hs s
    | JArr l =>
        Ha l ((fix go l : Forall P l :=
                 match l with
                 | [] => @List.Forall_nil _ _
                 | x :: l' => @List.Forall_cons _ P x l' (IH x) (go l')
                 end) l)
    | JObj o =>
        Ho o ((fix go (o : props) : Forall (λ kv, P kv.2) o :=
                 match o with
                 | [] => @List.Forall_nil _ _
                 | (k, x) :: o' =>
                     @List.Forall_cons _ (λ kv, P kv.2) (k, x) o' (IH x) (go o')
                 end) o)
    end).
Qed.

Lemma weight_text v :
  serializable v = true → weight v ≤ String.length (text v).
Proof.
  induction v as [| |b|n|s|l IH|o IH] using jsval_ind'; intros Hs.
  - done.
  - simpl. lia.
  - destruct b; simpl; lia.
  - simpl. destruct (Z_to_string_start n) as (c & t & -> & _). simpl. lia.
  - simpl. lia.
  - change (weight (JArr l)) with (S (weight_list l)).
    change (text (JArr l)) with (String "[" (elems_text l)).
    change (serializable (JArr l)) with (forallb serializable l) in Hs.
    simpl String.length. apply le_n_S.
    induction IH as [|x l Hx _ IHl]; [simpl; lia|].
    simpl in Hs. apply andb_true_iff in Hs as [Hsx Hsl].
    change (weight_list (x :: l)) with (S (weight x + weight_list l)).
    rewrite elems_text_cons, str_app_length.
    specialize (Hx Hsx). specialize (IHl Hsl).
    destruct l; simpl in *; lia.
  - change (weight (JObj o)) with (S (weight_props o)).
    change (text (JObj o)) with (String "{" (members_text true o)).
    change (serializable (JObj o))
      with (bool_decide (NoDup (obj_keys o)) && serializable_props o) in Hs.
    apply andb_true_iff in Hs as [_ Hs].
    simpl String.length. apply le_n_S.
    generalize true as first.
    induction IH as [|[k x] o Hx _ IHo]; intros first; [simpl; lia|].
    simpl in Hs. apply andb_true_iff in Hs as [Hsx Hso].
    change (weight_props ((k, x) :: o)) with (S (weight x + weight_props o)).
    simpl members_text. rewrite (serializable_defined x Hsx).
    specialize (Hx Hsx). specialize (IHo Hso false). simpl in Hx.
    unfold quote. rewrite str_app_length. simpl String.length.
    rewrite !str_app_length. simpl String.length. rewrite !str_app_length. lia.
Qed.

Theorem parse_text v : serializable v = true → parse (text v) = Ok v.
Proof.
  intros Hs. unfold parse.
  destruct (parse_print_fuel (S (String.length (text v)))) as (Hv & _ & _).
  rewrite <- (str_app_nil_r (text v)) at 2.
  rewrite Hv; [done| |done|done].
  pose proof (weight_text v Hs). lia.
Qed.

End json_round_trip.

(** *** The two field filters, property by property *)

Section filters.
Context (exclude : list string).

Lemma persist_fold_get (state : props) keys acc k :
  obj_get
    (foldl (λ result key,
              if negb (includes exclude key)
              then obj_set result key (obj_get state key)
              else result) acc keys) k
  = if negb (includes exclude k) && bool_decide (k ∈ keys)
    then obj_get state k else obj_get acc k.
Proof.
  revert acc. induction keys as [|key keys IH]; intros acc; simpl.
  - by rewrite andb_false_r.
  - rewrite IH. destruct (includes exclude k) eqn:Hk; simpl.
    + destruct (includes exclude key) eqn:Hkey; simpl; [done|].
      rewrite obj_get_set_ne; [done|]. intros ->. congruence.
    + destruct (decide (key = k)) as [->|Hne].
      * rewrite Hk. simpl. rewrite obj_get_set_eq.
        rewrite (bool_decide_eq_true_2 (k ∈ k :: keys)); [|by left].
        by destruct (bool_decide (k ∈ keys)).
      * assert (bool_decide (k ∈ key :: keys) = bool_decide (k ∈ keys)) as ->.
        { apply bool_decide_ext. rewrite elem_of_cons.
          split; [intros [?|?]; [congruence|done] | by right]. }
        destruct (bool_decide (k ∈ keys)); [done|].
        destruct (includes exclude key); simpl; [done|].
        by rewrite obj_get_set_ne.
Qed.

Lemma persistState_get state k :
  obj_get (persistState state exclude) k
  = if includes exclude k then JUndefined else obj_get state k.
Proof.
  unfold persistState. rewrite persist_fold_get.
  destruct (includes exclude k); simpl; [done|].
  case_bool_decide as Hin; [done|].
  symmetry. by apply obj_get_undefined.
Qed.

Lemma persist_fold_keys (state : props) keys acc k :
  k ∈ obj_keys
        (foldl (λ result key,
                  if negb (includes exclude key)
                  then obj_set result key (obj_get state key)
                  else result) acc keys) →
  k ∈ obj_keys acc ∨ (k ∈ keys ∧ includes exclude k = false).
Proof.
  revert acc. induction keys as [|key keys IH]; intros acc; simpl; [auto|].
  intros Hin. apply IH in Hin as [Hin|[Hin Hex]].
  - destruct (includes exclude key) eqn:Hkey; simpl in Hin; [auto|].
    apply obj_keys_set in Hin as [->|Hin]; [|auto].
    right. split; [by left | done].
  - right. split; [by right | done].
Qed.

Lemma persistState_keys state k :
  k ∈ obj_keys (persistState state exclude) →
  k ∈ obj_keys state ∧ includes exclude k = false.
Proof.
  intros Hin. apply persist_fold_keys in Hin as [Hin|Hin]; [|done].
  by apply elem_of_nil in Hin.
Qed.

Lemma merge_fold_get (persisted : props) keys acc k :
  obj_get
    (foldl (λ result key,
              if includes exclude key then result
              else
                let value := obj_get persisted key in
                if negb (is_undefined value) then obj_set result key value
                else result) acc keys) k
  = if negb (includes exclude k) && negb (is_undefined (obj_get persisted k))
       && bool_decide (k ∈ keys)
    then obj_get persisted k else obj_get acc k.
Proof.
  revert acc. induction keys as [|key keys IH]; intros acc; simpl.
  - by rewrite andb_false_r.
  - rewrite IH. clear IH.
    destruct (decide (key = k)) as [->|Hne].
    + rewrite (bool_decide_eq_true_2 (k ∈ k :: keys)); [|by left].
      destruct (includes exclude k); simpl; [done|].
      destruct (is_undefined (obj_get persisted k)); simpl; [done|].
      rewrite obj_get_set_eq. by destruct (bool_decide (k ∈ keys)).
    + assert (bool_decide (k ∈ key :: keys) = bool_decide (k ∈ keys)) as ->.
      { apply bool_decide_ext. rewrite elem_of_cons.
          split; [intros [?|?]; [congruence|done] | by right]. }
      destruct (_ && bool_decide (k ∈ keys)); [done|].
      destruct (includes exclude key); [done|]. simpl.
      destruct (is_undefined (obj_get persisted key)); simpl; [done|].
      by rewrite obj_get_set_ne.
Qed.

Lemma mergeWithDefaults_get persisted defaultState k :
  truthy persisted = true →
  obj_get (mergeWithDefaults persisted defaultState exclude) k
  = if includes exclude k then obj_get defaultState k
    else if is_undefined (obj_get (own_props persisted) k)
         then obj_get defaultState k
         else obj_get (own_props persisted) k.
Proof.
  intros Ht. unfold mergeWithDefaults. rewrite Ht. simpl.
  rewrite merge_fold_get.
  destruct (includes exclude k); simpl; [done|].
  destruct (is_undefined (obj_get (own_props persisted) k)) eqn:Hu; simpl; [done|].
  case_bool_decide as Hin; [done|].
  apply obj_get_undefined in Hin. by rewrite Hin in Hu.
Qed.
End filters.

(** ** Exclusion and merge (lib/persistence.ts) *)

(** C5.  Whatever the in-memory state holds, the object handed to
    [saveToStorage] by the save path of a channel,
    [persistState(state, EXCLUDE_FIELDS.X)], has none of the keys of that
    channel's exclusion list; the same holds for the guide session and its
    own list. *)
Theorem persistState_excludes (state : props) :
  (∀ c, Forall (λ k, k ∉ obj_keys (persistState state (GlobalContext.exclude_fields c)))
               (GlobalContext.exclude_fields c))
  ∧ (∀ m, Forall (λ k, k ∉ obj_keys (persistState state (EXCLUDE_FIELDS m)))
                 (EXCLUDE_FIELDS m))
  ∧ Forall (λ k, k ∉ obj_keys (persistState state GuideSession.GUIDE_SESSION_EXCLUDE))
           GuideSession.GUIDE_SESSION_EXCLUDE.
Proof.
  assert (∀ exclude,
            Forall (λ k, k ∉ obj_keys (persistState state exclude)) exclude) as H.
  { intros exclude. apply Forall_forall. intros k Hk Hin.
    apply persistState_keys in Hin as [_ Hex].
    apply includes_false in Hex. by apply Hex, list_elem_of_In. }
  split; [|split]; intros; apply H.
Qed.

(** C4.  Restoring what was persisted: a field of the exclusion list reads
    as in the defaults, any other field that is not [undefined] in the
    state reads as in the state. *)
Theorem mergeWithDefaults_persistState (S D : props) (excl : list string)
    (k : string) :
  let merged := mergeWithDefaults (JObj (persistState S excl)) D excl in
  (includes excl k = true → obj_get merged k = obj_get D k)
  ∧ (includes excl k = false → obj_get S k ≠ JUndefined →
     obj_get merged k = obj_get S k).
Proof.
  intros merged. unfold merged. rewrite mergeWithDefaults_get by done.
  simpl own_props. rewrite persistState_get. split.
  - by intros ->.
  - intros -> Hdef. destruct (obj_get S k); done.
Qed.

Lemma mergeWithDefaults_persistState_witness :
  let merged :=
    mergeWithDefaults
      (JObj (persistState Examples.solver_busy (EXCLUDE_FIELDS SOLVER)))
      GlobalContext.DEFAULT_SOLVER_STATE (EXCLUDE_FIELDS SOLVER) in
  obj_get merged "isSolving" = JBool false
  ∧ obj_get merged "sessionId" = JStr "s1".
Proof.
  split.
  - apply (proj1 (mergeWithDefaults_persistState Examples.solver_busy
                    GlobalContext.DEFAULT_SOLVER_STATE (EXCLUDE_FIELDS SOLVER)
                    "isSolving")).
    reflexivity.
  - apply (proj2 (mergeWithDefaults_persistState Examples.solver_busy
                    GlobalContext.DEFAULT_SOLVER_STATE (EXCLUDE_FIELDS SOLVER)
                    "sessionId")).
    + reflexivity.
    + vm_compute. discriminate.
Defined.

(** ** The versioned store (lib/persistence.ts) *)

Lemma is_num_tag (x : jsval) (n : Z) :
  is_num x n
  = bool_decide (match x with JNum m => Some m | _ => None end = Some n).
Proof.
  destruct x as [| |b|m|s|l|o]; simpl; try done.
  case_bool_decide as Hm; destruct (Z.eqb_spec m n); congruence.
Qed.

Lemma get_prop_defined (v : jsval) (k : string) :
  v ≠ JUndefined → v ≠ JNull → get_prop v k = Ok (get_opt v k).
Proof. by destruct v. Qed.

Lemma loadFromStorage_unfold env key d :
  loadFromStorage env key d
  = Ok (match stored_entry env key with
        | None => d
        | Some raw =>
            match JSON.parse raw with
            | Throw _ => d
            | Ok wrapper =>
                if bool_decide (version_tag wrapper = Some STORAGE_VERSION)
                then get_opt wrapper "data"
                else d
            end
        end).
Proof.
  unfold loadFromStorage, stored_entry, getItem.
  destruct (has_window env); simpl; [|done].
  destruct (blocked (localStorage env)); simpl; [done|].
  destruct (items (localStorage env) !! _) as [raw|]; simpl; [|done].
  destruct (String.eqb raw EmptyString) eqn:Hraw; simpl.
  { apply String.eqb_eq in Hraw as ->. done. }
  destruct (JSON.parse raw) as [wrapper|e]; simpl; [|done].
  unfold version_tag.
  destruct wrapper as [| |b|n|s|l|o]; try done;
    rewrite !get_prop_defined by done; simpl;
    rewrite is_num_tag; by case_bool_decide.
Qed.

Lemma saveToStorage_returns env key value : ∃ env', saveToStorage env key value = Ok env'.
Proof.
  unfold saveToStorage. destruct (has_window env); simpl; [|eauto].
  destruct (setItem _ _ _); simpl; eauto.
Qed.

(** C9.  [loadFromStorage] always returns; it returns the caller's
    default when no entry can be read, when the entry is not JSON, and
    when the entry carries another version tag than [STORAGE_VERSION];
    otherwise it returns the wrapped data.  [saveToStorage] always
    returns, whatever the store does. *)
Theorem storage_degrades_to_default (env : Env) (key : string) (d : jsval) :
  (∃ v, loadFromStorage env key d = Ok v)
  ∧ (stored_entry env key = None → loadFromStorage env key d = Ok d)
  ∧ (∀ raw e, stored_entry env key = Some raw → JSON.parse raw = Throw e →
       loadFromStorage env key d = Ok d)
  ∧ (∀ raw wrapper, stored_entry env key = Some raw →
       JSON.parse raw = Ok wrapper →
       version_tag wrapper ≠ Some STORAGE_VERSION →
       loadFromStorage env key d = Ok d)
  ∧ (∀ raw wrapper, stored_entry env key = Some raw →
       JSON.parse raw = Ok wrapper →
       version_tag wrapper = Some STORAGE_VERSION →
       loadFromStorage env key d = Ok (get_opt wrapper "data"))
  ∧ (∀ value, ∃ env', saveToStorage env key value = Ok env').
Proof.
  rewrite loadFromStorage_unfold. repeat split.
  - eauto.
  - by intros ->.
  - by intros raw e -> ->.
  - intros raw wrapper -> -> Hv. by rewrite bool_decide_eq_false_2.
  - intros raw wrapper -> -> Hv. by rewrite bool_decide_eq_true_2.
  - apply saveToStorage_returns.
Qed.

Lemma storage_degrades_to_default_witness :
  loadFromStorage Examples.browser_v2 "chat_state" (JObj []) = Ok (JObj [])
  ∧ loadFromStorage Examples.browser "chat_state" (JObj []) = Ok (JObj []).
Proof.
  split.
  - refine (proj1 (proj2 (proj2 (proj2
              (storage_degrades_to_default Examples.browser_v2 "chat_state"
                 (JObj []))))) _ _ _ _ _).
    + vm_compute. reflexivity.
    + vm_compute. reflexivity.
    + vm_compute. discriminate.
  - apply (proj1 (proj2
              (storage_degrades_to_default Examples.browser "chat_state"
                 (JObj [])))).
    vm_compute. reflexivity.
Defined.

Lemma getItem_setItem ls k v ls' :
  setItem ls k v = Ok ls' → getItem ls' k = Ok (Some v).
Proof.
  unfold setItem, getItem. destruct (blocked ls); [done|].
  destruct (quota ls) as [q|].
  - case_decide; [|done]. intros [= <-]. simpl. by rewrite lookup_insert_eq.
  - intros [= <-]. simpl. by rewrite lookup_insert_eq.
Qed.

Lemma setItem_not_blocked ls k v ls' : setItem ls k v = Ok ls' → blocked ls' = false.
Proof.
  unfold setItem. destruct (blocked ls); [done|].
  destruct (quota ls) as [q|]; [case_decide; [|done]|]; by intros [= <-].
Qed.

(** C10, as amended.  In a browser, when the store accepts the write, a
    value that JSON renders faithfully is read back unchanged, whatever
    default the reader supplies: the entry parses and its version tag is
    the one the reader checks. *)
Theorem save_then_load (env : Env) (key : string) (v d : jsval) (ls : Storage) :
  has_window env = true →
  setItem (localStorage env) (STORAGE_PREFIX +:+ key)
          (JSON.text (wrap v (now env))) = Ok ls →
  JSON.serializable v = true →
  ∃ env', saveToStorage env key v = Ok env'
          ∧ stored_entry env' key = Some (JSON.text (wrap v (now env)))
          ∧ loadFromStorage env' key d = Ok v.
Proof.
  intros Hw Hset Hv. exists (with_storage env ls).
  assert (stored_entry (with_storage env ls) key
          = Some (JSON.text (wrap v (now env)))) as Hentry.
  { unfold stored_entry. simpl. rewrite Hw, (setItem_not_blocked _ _ _ _ Hset).
    simpl. pose proof (getItem_setItem _ _ _ _ Hset) as Hget.
    unfold getItem in Hget. rewrite (setItem_not_blocked _ _ _ _ Hset) in Hget.
    by injection Hget. }
  split; [|split; [done|]].
  - unfold saveToStorage. rewrite Hw. cbn [negb].
    change (string_arg (JSON.stringify (wrap v (now env))))
      with (JSON.text (wrap v (now env))).
    cbv zeta. by rewrite Hset.
  - rewrite loadFromStorage_unfold, Hentry, parse_text.
    + done.
    + simpl. by rewrite Hv.
Qed.

Lemma save_then_load_witness :
  ∃ env', saveToStorage Examples.browser "chat_state"
            (JObj [("sessionId", JStr "s1")]) = Ok env'
          ∧ stored_entry env' "chat_state"
            = Some (JSON.text (wrap (JObj [("sessionId", JStr "s1")])
                                 (now Examples.browser)))
          ∧ loadFromStorage env' "chat_state" JNull
            = Ok (JObj [("sessionId", JStr "s1")]).
Proof.
  eapply (save_then_load Examples.browser "chat_state"
            (JObj [("sessionId", JStr "s1")]) JNull).
  - reflexivity.
  - vm_compute. reflexivity.
  - vm_compute. reflexivity.
Defined.

(** C10 as stated fails on a store that is full: the write is dropped and
    the reader gets its default. *)
Lemma save_then_load_full_store :
  ¬ (∀ env key v d env',
       JSON.serializable v = true →
       saveToStorage env key v = Ok env' →
       loadFromStorage env' key d = Ok v).
Proof.
  intros H.
  specialize (H Examples.browser_full "chat_state" (JStr "v") JNull
                Examples.browser_full eq_refl eq_refl).
  vm_compute in H. discriminate.
Qed.

(** ** The hydration gate (context/GlobalContext.tsx) *)

Lemma setState_view c u w w' : setState c u w = Ok w' → save_view w' = save_view w.
Proof.
  unfold setState. destruct (u _) as [next|]; cbn; [|done].
  intros [= <-]. unfold auto_save, save_view, debounce_call. simpl.
  destruct (isHydrated w) eqn:E; simpl; by rewrite ?E.
Qed.

Lemma add_log_view c log w w' : add_log c log w = Ok w' → save_view w' = save_view w.
Proof. apply setState_view. Qed.

Lemma ws_send_view id data w w' : ws_send id data w = Ok w' → save_view w' = save_view w.
Proof.
  unfold ws_send. destruct (sockets w !! id) as [s|]; [|by intros [= <-]].
  destruct (readyState s); intros [= <-]; done.
Qed.

Lemma close_current_view c w : save_view (close_current c w) = save_view w.
Proof. unfold close_current. by destruct (wsRefs w c). Qed.

Lemma clear_ref_view c id w : save_view (clear_ref_if_current c id w) = save_view w.
Proof. unfold clear_ref_if_current. by case_decide. Qed.

(** Break a handler that returned into the steps it took. *)
Ltac handler_step :=
  match goal with
  | H : Ok _ = Ok _ |- _ => injection H as H; try subst
  | H : Throw _ = Ok _ |- _ => discriminate H
  | H : Some _ = Some _ |- _ => injection H as H; try subst
  | H : None = Some _ |- _ => discriminate H
  | H : setState _ _ _ = Ok _ |- _ => apply setState_view in H
  | H : add_log _ _ _ = Ok _ |- _ => apply add_log_view in H
  | H : ws_send _ _ _ = Ok _ |- _ => apply ws_send_view in H
  | H : (?m ≫= _) = Ok _ |- _ =>
      let E := fresh "E" in destruct m eqn:E; cbn [mbind outcome_bind] in H
  | H : (if ?b then _ else _) = _ |- _ =>
      let E := fresh "E" in destruct b eqn:E
  | H : match ?x with _ => _ end = _ |- _ =>
      let E := fresh "E" in destruct x eqn:E
  | H : context [match wsRefs ?w ?c with _ => _ end] |- _ =>
      let E := fresh "E" in destruct (wsRefs w c) eqn:E
  end.

Ltac view_by tac :=
  intros; repeat (first [tac | handler_step]);
  rewrite ?close_current_view, ?clear_ref_view in *;
  try done; try congruence;
  unfold save_view, close_current, clear_ref_if_current in *;
  repeat case_match; simpl in *; congruence.

Ltac no_tac := fail.

Lemma startSolver_view q kb w w' : startSolver q kb w = Ok w' → save_view w' = save_view w.
Proof. unfold startSolver. view_by no_tac. Qed.
Lemma solver_onopen_view id q kb w w' : solver_onopen id q kb w = Ok w' → save_view w' = save_view w.
Proof. unfold solver_onopen. view_by no_tac. Qed.
Lemma solver_onmessage_view id data w w' :
  solver_onmessage id data w = Ok w' → save_view w' = save_view w.
Proof. unfold solver_onmessage. view_by no_tac. Qed.
Lemma solver_onerror_view w w' : solver_onerror w = Ok w' → save_view w' = save_view w.
Proof. unfold solver_onerror. view_by no_tac. Qed.
Lemma solver_onclose_view id w w' : solver_onclose id w = Ok w' → save_view w' = save_view w.
Proof. unfold solver_onclose. view_by no_tac. Qed.
Lemma stopSolver_view w w' : stopSolver w = Ok w' → save_view w' = save_view w.
Proof. unfold stopSolver. view_by no_tac. Qed.
Lemma newSolverSession_view w w' : newSolverSession w = Ok w' → save_view w' = save_view w.
Proof. unfold newSolverSession. view_by no_tac. Qed.

Lemma startResearch_view t kb pm tools skip w w' :
  startResearch t kb pm tools skip w = Ok w' → save_view w' = save_view w.
Proof. unfold startResearch. view_by no_tac. Qed.
Lemma research_onopen_view id t kb pm tools skip w w' :
  research_onopen id t kb pm tools skip w = Ok w' → save_view w' = save_view w.
Proof. unfold research_onopen. view_by no_tac. Qed.
Lemma research_onmessage_view id data w w' :
  research_onmessage id data w = Ok w' → save_view w' = save_view w.
Proof. unfold research_onmessage. view_by no_tac. Qed.
Lemma research_onerror_view w w' : research_onerror w = Ok w' → save_view w' = save_view w.
Proof. unfold research_onerror. view_by no_tac. Qed.
Lemma research_onclose_view id w w' : research_onclose id w = Ok w' → save_view w' = save_view w.
Proof. unfold research_onclose. view_by no_tac. Qed.

Lemma startQuestionGen_view t d ty n kb w w' :
  startQuestionGen t d ty n kb w = Ok w' → save_view w' = save_view w.
Proof. unfold startQuestionGen. view_by no_tac. Qed.
Lemma question_onopen_view id t d ty n kb w w' :
  question_onopen id t d ty n kb w = Ok w' → save_view w' = save_view w.
Proof. unfold question_onopen. view_by no_tac. Qed.
Lemma question_onmessage_view id data w w' :
  question_onmessage id data w = Some (Ok w') → save_view w' = save_view w.
Proof. unfold question_onmessage. view_by no_tac. Qed.
Lemma question_onerror_view w w' : question_onerror w = Ok w' → save_view w' = save_view w.
Proof. unfold question_onerror. view_by no_tac. Qed.
Lemma question_onclose_view id w w' : question_onclose id w = Ok w' → save_view w' = save_view w.
Proof. unfold question_onclose. view_by no_tac. Qed.
Lemma startMimicQuestionGen_view f p kb n w w' :
  startMimicQuestionGen f p kb n w = Ok w' → save_view w' = save_view w.
Proof. unfold startMimicQuestionGen. view_by no_tac. Qed.
Lemma mimic_onopen_view id f p kb n w w' :
  mimic_onopen id f p kb n w = Ok w' → save_view w' = save_view w.
Proof. unfold mimic_onopen. view_by no_tac. Qed.
Lemma mimic_onmessage_view id data w w' :
  mimic_onmessage id data w = Some (Ok w') → save_view w' = save_view w.
Proof. unfold mimic_onmessage, handleMimicWsMessage. view_by no_tac. Qed.
Lemma mimic_onerror_view w w' : mimic_onerror w = Ok w' → save_view w' = save_view w.
Proof. unfold mimic_onerror. view_by no_tac. Qed.

Lemma sendChatMessage_view m w w' : sendChatMessage m w = Ok w' → save_view w' = save_view w.
Proof. unfold sendChatMessage. view_by no_tac. Qed.
Lemma chat_onopen_view id m st w w' : chat_onopen id m st w = Ok w' → save_view w' = save_view w.
Proof. unfold chat_onopen. view_by no_tac. Qed.
Lemma chat_onmessage_view id am data w w' :
  chat_onmessage id am data w = Ok w' → save_view w' = save_view w.
Proof. unfold chat_onmessage. view_by no_tac. Qed.
Lemma chat_onerror_view w w' : chat_onerror w = Ok w' → save_view w' = save_view w.
Proof. unfold chat_onerror. view_by no_tac. Qed.
Lemma chat_onclose_view id w w' : chat_onclose id w = Ok w' → save_view w' = save_view w.
Proof. unfold chat_onclose. view_by no_tac. Qed.
Lemma clearChatHistory_view w w' : clearChatHistory w = Ok w' → save_view w' = save_view w.
Proof. unfold clearChatHistory. view_by no_tac. Qed.
Lemma newChatSession_view w w' : newChatSession w = Ok w' → save_view w' = save_view w.
Proof. unfold newChatSession. view_by no_tac. Qed.

Ltac sub_handlers :=
  idtac;
  match goal with
  | H : startSolver _ _ _ = Ok _ |- _ => apply startSolver_view in H
  | H : solver_onopen _ _ _ _ = Ok _ |- _ => apply solver_onopen_view in H
  | H : solver_onmessage _ _ _ = Ok _ |- _ => apply solver_onmessage_view in H
  | H : solver_onerror _ = Ok _ |- _ => apply solver_onerror_view in H
  | H : solver_onclose _ _ = Ok _ |- _ => apply solver_onclose_view in H
  | H : stopSolver _ = Ok _ |- _ => apply stopSolver_view in H
  | H : newSolverSession _ = Ok _ |- _ => apply newSolverSession_view in H
  | H : startResearch _ _ _ _ _ _ = Ok _ |- _ => apply startResearch_view in H
  | H : research_onopen _ _ _ _ _ _ _ = Ok _ |- _ => apply research_onopen_view in H
  | H : research_onmessage _ _ _ = Ok _ |- _ => apply research_onmessage_view in H
  | H : research_onerror _ = Ok _ |- _ => apply research_onerror_view in H
  | H : research_onclose _ _ = Ok _ |- _ => apply research_onclose_view in H
  | H : startQuestionGen _ _ _ _ _ _ = Ok _ |- _ => apply startQuestionGen_view in H
  | H : question_onopen _ _ _ _ _ _ _ = Ok _ |- _ => apply question_onopen_view in H
  | H : question_onmessage _ _ _ = Some (Ok _) |- _ => apply question_onmessage_view in H
  | H : question_onerror _ = Ok _ |- _ => apply question_onerror_view in H
  | H : question_onclose _ _ = Ok _ |- _ => apply question_onclose_view in H
  | H : startMimicQuestionGen _ _ _ _ _ = Ok _ |- _ => apply startMimicQuestionGen_view in H
  | H : mimic_onopen _ _ _ _ _ _ = Ok _ |- _ => apply mimic_onopen_view in H
  | H : mimic_onmessage _ _ _ = Some (Ok _) |- _ => apply mimic_onmessage_view in H
  | H : mimic_onerror _ = Ok _ |- _ => apply mimic_onerror_view in H
  | H : sendChatMessage _ _ = Ok _ |- _ => apply sendChatMessage_view in H
  | H : chat_onopen _ _ _ _ = Ok _ |- _ => apply chat_onopen_view in H
  | H : chat_onmessage _ _ _ _ = Ok _ |- _ => apply chat_onmessage_view in H
  | H : chat_onerror _ = Ok _ |- _ => apply chat_onerror_view in H
  | H : chat_onclose _ _ = Ok _ |- _ => apply chat_onclose_view in H
  | H : clearChatHistory _ = Ok _ |- _ => apply clearChatHistory_view in H
  | H : newChatSession _ = Ok _ |- _ => apply newChatSession_view in H
  end.

Lemma deliver_view id ev w w' :
  deliver id ev w = Some (Ok w') → save_view w' = save_view w.
Proof.
  unfold deliver, run_onopen, run_onmessage, run_onerror, run_onclose.
  view_by sub_handlers.
Qed.

(** Every action but a timer and the restore effect leaves the latch, and
    below the latch the store and the pending saves, as they were. *)
Lemma perform_view a w w' :
  (∀ c, a ≠ TimerFires c) → a ≠ Restore →
  perform a w = Some (Ok w') → save_view w' = save_view w.
Proof.
  intros Ht Hr H. destruct a; simpl in H;
    try (by destruct (Ht c)); try done;
    first [ by apply deliver_view in H
          | apply (inj Some) in H;
            first [ by apply setState_view in H | by sub_handlers ] ].
Qed.

Lemma timer_fires_unhydrated c w w' :
  isHydrated w = false → pending w c = None →
  timer_fires c w = Ok w' → w' = w.
Proof. unfold timer_fires. intros _ ->. by intros [= <-]. Qed.

Lemma restore_latch w w' :
  restore w = Ok w' → isHydrated w' = false → w' = w.
Proof.
  unfold restore. destruct (has_window (env w)); simpl; [|by intros [= <-]].
  intros H. repeat handler_step. clear.
  assert (∀ l v, isHydrated (foldl (λ w c, auto_save c w) v l) = isHydrated v) as Hfold.
  { induction l as [|c l IH]; intros v; simpl; [done|].
    rewrite IH. unfold auto_save, debounce_call.
    destruct (isHydrated v) eqn:E; simpl; by rewrite ?E. }
  rewrite Hfold. simpl. done.
Qed.

Lemma hydration_gate_provider e trace w :
  GlobalContext.perform_all trace (initial e) = Some (Ok w) →
  isHydrated w = false →
  GlobalContext.env w = e ∧ ∀ c, pending w c = None.
Proof.
  assert (∀ trace w0 w,
            GlobalContext.perform_all trace w0 = Some (Ok w) →
            isHydrated w = false →
            isHydrated w0 = false
            ∧ ((∀ c, pending w0 c = None) →
               GlobalContext.env w = GlobalContext.env w0 ∧ ∀ c, pending w c = None))
    as Hgen.
  { clear. induction trace as [|a trace IH]; intros w0 w Hrun Hw.
    - simpl in Hrun. injection Hrun as <-. done.
    - simpl in Hrun.
      destruct (perform a w0) as [[w1|]|] eqn:Ha; try done.
      destruct (IH w1 w Hrun Hw) as [Hw1 Hrest].
      destruct a;
        try (pose proof Ha as Hview;
             apply perform_view in Hview; [|done|done];
             unfold save_view in Hview; rewrite Hw1 in Hview;
             destruct (isHydrated w0) eqn:Hw0; [done|];
             injection Hview as Henv Hpend; split; [done|];
             intros Hp; rewrite <- Henv; apply Hrest; by rewrite Hpend).
      + (* timer *)
        simpl in Ha. apply (inj Some) in Ha.
        assert (isHydrated w0 = false) as Hw0.
        { destruct (isHydrated w0) eqn:Hw0; [|done].
          unfold timer_fires, save_state in Ha.
          destruct (pending w0 c) eqn:Ep; [|congruence].
          simpl in Ha. rewrite Hw0 in Ha. simpl in Ha.
          repeat handler_step. simpl in Hw1. congruence. }
        split; [done|]. intros Hp.
        apply timer_fires_unhydrated in Ha as ->; auto.
      + (* restore *)
        simpl in Ha. apply (inj Some) in Ha.
        apply restore_latch in Ha as ->; auto. }
  intros Hrun Hw. destruct (Hgen trace (initial e) w Hrun Hw) as [_ H].
  apply H. done.
Qed.

Lemma hydration_gate_guide positive init e trace h :
  GuideSession.perform_all positive trace (GuideSession.initial init e) = Ok h →
  GuideSession.isHydrated h = false →
  GuideSession.env h = e
  ∧ GuideSession.pendingSession h = None ∧ GuideSession.pendingChat h = None.
Proof.
  assert (∀ trace h0 h,
            GuideSession.perform_all positive trace h0 = Ok h →
            GuideSession.isHydrated h = false →
            GuideSession.isHydrated h0 = false
            ∧ (GuideSession.pendingSession h0 = None →
               GuideSession.pendingChat h0 = None →
               GuideSession.env h = GuideSession.env h0
               ∧ GuideSession.pendingSession h = None
               ∧ GuideSession.pendingChat h = None)) as Hgen.
  { clear. induction trace as [|a trace IH]; intros h0 h Hrun Hh.
    - simpl in Hrun. injection Hrun as <-. done.
    - simpl in Hrun.
      destruct (GuideSession.perform positive a h0) as [h1|] eqn:Ha; [|done].
      cbn [mbind outcome_bind] in Hrun.
      destruct (IH h1 h Hrun Hh) as [Hh1 Hrest]. clear IH Hrun.
      destruct a; simpl in Ha.
      + injection Ha as <-. simpl in *. split; [done|].
        rewrite Hh1 in Hrest. exact Hrest.
      + injection Ha as <-. simpl in *. split; [done|].
        rewrite Hh1 in Hrest. exact Hrest.
      + unfold GuideSession.session_timer_fires in Ha.
        destruct (GuideSession.pendingSession h0) eqn:Hp.
        * destruct (saveToStorage _ _ _); [|done].
          injection Ha as <-. simpl in *. split; [done|]. intros; congruence.
        * injection Ha as <-. split; [done|]. intros; apply Hrest; congruence.
      + unfold GuideSession.chat_timer_fires in Ha.
        destruct (GuideSession.pendingChat h0) eqn:Hp.
        * destruct (saveToStorage _ _ _); [|done].
          injection Ha as <-. simpl in *. split; [done|]. intros; congruence.
        * injection Ha as <-. split; [done|]. intros; apply Hrest; congruence.
      + unfold GuideSession.restore in Ha.
        destruct (has_window (GuideSession.env h0)); simpl in Ha.
        * repeat handler_step. simpl in Hh1. done.
        * injection Ha as <-. done. }
  intros Hrun Hh. destruct (Hgen trace _ h Hrun Hh) as [_ H]. by apply H.
Qed.

(** C3.  From the first render on, as long as the latch [isHydrated] is
    down, which is until the restore effect has completed, nothing has
    been written to the store and no save is pending, whatever the
    screens, the transports and the timers did in between.  The same
    holds for the guide hook and its own latch. *)
Theorem no_write_before_hydration :
  (∀ e trace w,
     GlobalContext.perform_all trace (GlobalContext.initial e) = Some (Ok w) →
     GlobalContext.isHydrated w = false →
     localStorage (GlobalContext.env w) = localStorage e
     ∧ ∀ c, pending w c = None)
  ∧ (∀ positive init e trace h,
       GuideSession.perform_all positive trace (GuideSession.initial init e) = Ok h →
       GuideSession.isHydrated h = false →
       localStorage (GuideSession.env h) = localStorage e
       ∧ GuideSession.pendingSession h = None
       ∧ GuideSession.pendingChat h = None).
Proof.
  split.
  - intros e trace w Hrun Hw.
    destruct (hydration_gate_provider e trace w Hrun Hw) as [-> Hp]. done.
  - intros positive init e trace h Hrun Hh.
    destruct (hydration_gate_guide positive init e trace h Hrun Hh) as (-> & ? & ?).
    done.
Qed.

Lemma no_write_before_hydration_witness :
  let trace :=
    [StartSolver "What is a monad?" "kb"; TimerFires Solver;
     SetState Chat Examples.solver_busy; TimerFires Chat] in
  let w := after (GlobalContext.initial Examples.browser) trace in
  localStorage (GlobalContext.env w) = localStorage Examples.browser.
Proof.
  intros trace w.
  refine (proj1 (proj1 no_write_before_hydration Examples.browser trace w _ _)).
  - vm_compute. reflexivity.
  - vm_compute. reflexivity.
Defined.

(** ** The restore effect (context/GlobalContext.tsx) *)

Lemma restore_channel_states c persisted updater acc acc' c' :
  restore_channel c persisted updater acc = Ok acc' →
  states acc'.1 c' = states acc.1 c'
  ∨ (c' = c ∧ persisted ≠ JUndefined ∧ persisted ≠ JNull
     ∧ obj_keys (own_props persisted) ≠ []
     ∧ states acc'.1 c' = updater (states acc.1 c)).
Proof.
  unfold restore_channel, object_keys.
  destruct persisted as [| |b|n|s|l|o]; cbn [mbind outcome_bind]; try done;
    (case_decide as Hlen; intros [= <-]; [|by left]);
    (destruct (decide (c' = c)) as [->|Hne];
     [right; repeat split; try done;
      [intros Heq; rewrite Heq in Hlen; simpl in Hlen; lia
      |simpl; unfold insert, fn_insert; by case_decide]
     |left; simpl; unfold insert, fn_insert; case_decide; congruence]).
Qed.

Lemma restore_channel_other c persisted updater acc acc' c' :
  c' ≠ c →
  restore_channel c persisted updater acc = Ok acc' →
  states acc'.1 c' = states acc.1 c'.
Proof.
  intros Hne H.
  destruct (restore_channel_states _ _ _ _ _ c' H) as [?|(? & _)]; congruence.
Qed.

Lemma states_saves l w c : states (foldl (λ w c, auto_save c w) w l) c = states w c.
Proof.
  revert w. induction l as [|c0 l IH]; intros w; simpl; [done|].
  rewrite IH. unfold auto_save, debounce_call. by destruct (isHydrated w).
Qed.

(** An object with an own property is truthy. *)
Lemma keys_truthy v : obj_keys (own_props v) ≠ [] → truthy v = true.
Proof. destruct v as [| |b|n|[|c s]|l|o]; simpl; done. Qed.

Lemma restore_channel_eq c persisted updater acc acc' c' :
  restore_channel c persisted updater acc = Ok acc' →
  states acc'.1 c'
  = if decide (c' = c) then
      if decide (0 < length (obj_keys (own_props persisted)))
      then updater (states acc.1 c) else states acc.1 c
    else states acc.1 c'.
Proof.
  unfold restore_channel, object_keys.
  destruct persisted as [| |b|n|s|l|o]; cbn [mbind outcome_bind]; try done;
    (case_decide as Hlen; intros [= <-];
     [simpl; unfold insert, fn_insert; repeat case_decide; congruence
     |case_decide; congruence]).
Qed.

(** The states the restore effect leaves, channel by channel. *)
Lemma restore_states w w' c :
  restore w = Ok w' → has_window (env w) = true →
  ∃ persisted,
    loadFromStorage (env w) (storage_key c) (JObj []) = Ok persisted
    ∧ states w' c = restored_state c persisted (states w c).
Proof.
  unfold restore. intros H Hw. rewrite Hw in H. cbn [negb] in H.
  destruct (loadFromStorage _ (STORAGE_KEYS SOLVER) _) as [pS|] eqn:ES; [|done].
  destruct (loadFromStorage _ (STORAGE_KEYS QUESTION) _) as [pQ|] eqn:EQ; [|done].
  destruct (loadFromStorage _ (STORAGE_KEYS RESEARCH) _) as [pR|] eqn:ER; [|done].
  destruct (loadFromStorage _ (STORAGE_KEYS IDEAGEN) _) as [pI|] eqn:EI; [|done].
  destruct (loadFromStorage _ (STORAGE_KEYS CHAT) _) as [pC|] eqn:EC; [|done].
  cbn [mbind outcome_bind] in H.
  destruct (restore_channel Solver _ _ _) as [a1|] eqn:E1; [|done].
  cbn [mbind outcome_bind] in H.
  destruct (restore_channel Question _ _ _) as [a2|] eqn:E2; [|done].
  cbn [mbind outcome_bind] in H.
  destruct (restore_channel Research _ _ _) as [a3|] eqn:E3; [|done].
  cbn [mbind outcome_bind] in H.
  destruct (restore_channel IdeaGen _ _ _) as [a4|] eqn:E4; [|done].
  cbn [mbind outcome_bind] in H.
  destruct (restore_channel Chat _ _ _) as [a5|] eqn:E5; [|done].
  cbn [mbind outcome_bind] in H. injection H as <-.
  rewrite states_saves.
  assert (∀ (b : bool) (v : jsval), states (with_isHydrated true
                           (if b then with_sessionIdRef v a5.1 else a5.1)) c
                 = states a5.1 c) as -> by (by intros []).
  pose proof (restore_channel_eq _ _ _ _ _ c E1) as H1.
  pose proof (restore_channel_eq _ _ _ _ _ c E2) as H2.
  pose proof (restore_channel_eq _ _ _ _ _ c E3) as H3.
  pose proof (restore_channel_eq _ _ _ _ _ c E4) as H4.
  pose proof (restore_channel_eq _ _ _ _ _ c E5) as H5.
  pose proof (restore_channel_eq _ _ _ _ _ Question E1) as H1q.
  pose proof (restore_channel_eq _ _ _ _ _ Research E1) as H1r.
  pose proof (restore_channel_eq _ _ _ _ _ Research E2) as H2r.
  pose proof (restore_channel_eq _ _ _ _ _ IdeaGen E1) as H1i.
  pose proof (restore_channel_eq _ _ _ _ _ IdeaGen E2) as H2i.
  pose proof (restore_channel_eq _ _ _ _ _ IdeaGen E3) as H3i.
  pose proof (restore_channel_eq _ _ _ _ _ Chat E1) as H1c.
  pose proof (restore_channel_eq _ _ _ _ _ Chat E2) as H2c.
  pose proof (restore_channel_eq _ _ _ _ _ Chat E3) as H3c.
  pose proof (restore_channel_eq _ _ _ _ _ Chat E4) as H4c.
  unfold restored_state.
  destruct c; simpl in *;
    [exists pS|exists pQ|exists pR|exists pI|exists pC]; (split; [done|]);
    repeat (case_decide; try done);
    repeat match goal with H : states _ _ = _ |- _ => rewrite H; clear H end;
    done.
Qed.

Lemma restored_excluded c persisted prev k :
  includes (exclude_fields c) k = true →
  obj_get (mergeWithDefaults persisted prev (exclude_fields c)) k = obj_get prev k.
Proof.
  intros Hk. destruct (truthy persisted) eqn:Ht.
  - rewrite mergeWithDefaults_get by done. by rewrite Hk.
  - unfold mergeWithDefaults. by rewrite Ht.
Qed.

(** What the restore effect does reset: on the first restore the solver
    is not solving, research is idle, the idea generator is not generating
    and chat is not loading, whatever the store holds. *)
Lemma restore_resets_running e w' :
  restore (initial e) = Ok w' →
  obj_get (states w' Solver) "isSolving" = JBool false
  ∧ obj_get (states w' Research) "status" = JStr "idle"
  ∧ obj_get (states w' IdeaGen) "isGenerating" = JBool false
  ∧ obj_get (states w' Chat) "isLoading" = JBool false.
Proof.
  intros H. destruct (has_window e) eqn:Hw.
  2: { unfold restore in H. simpl in H. rewrite Hw in H. by injection H as <-. }
  destruct (restore_states _ _ Solver H Hw) as (pS & _ & ->).
  destruct (restore_states _ _ Research H Hw) as (pR & _ & ->).
  destruct (restore_states _ _ IdeaGen H Hw) as (pI & _ & ->).
  destruct (restore_states _ _ Chat H Hw) as (pC & _ & ->).
  unfold restored_state. simpl states.
  repeat split; case_decide; try done; try (by rewrite restored_excluded).
  assert (obj_get (mergeWithDefaults pR DEFAULT_RESEARCH_STATE
                     (exclude_fields Research)) "status" = JStr "idle") as Hst
    by (by rewrite restored_excluded).
  rewrite Hst. done.
Qed.

(** C2, where it fails.  The question step is not among the excluded
    fields and is not rewritten: a snapshot taken while questions were
    being generated comes back from the restore effect with its step still
    [generating]. *)
Theorem restore_keeps_question_step (w w' : Provider) (persisted : jsval) :
  restore w = Ok w' →
  loadFromStorage (env w) (STORAGE_KEYS QUESTION) (JObj []) = Ok persisted →
  obj_get (own_props persisted) "step" = JStr "generating" →
  obj_get (states w' Question) "step" = JStr "generating".
Proof.
  intros H Hload Hstep. destruct (has_window (env w)) eqn:Hw.
  2: { unfold loadFromStorage in Hload. rewrite Hw in Hload.
       injection Hload as <-. done. }
  destruct (restore_states _ _ Question H Hw) as (p & Hp & ->).
  unfold storage_key in Hp. rewrite Hload in Hp. injection Hp as <-.
  unfold restored_state.
  assert (obj_keys (own_props persisted) ≠ []) as Hkeys.
  { intros Hnil. rewrite obj_get_undefined in Hstep; [done|].
    rewrite Hnil. apply not_elem_of_nil. }
  case_decide as Hlen.
  - rewrite mergeWithDefaults_get by (by apply keys_truthy).
    simpl includes. by rewrite Hstep.
  - destruct (obj_keys (own_props persisted)); [done|]. simpl in Hlen. lia.
Qed.

Lemma restore_keeps_question_step_witness :
  let w' := after Examples.reloaded [Restore] in
  obj_get (states w' Question) "step" = JStr "generating"
  ∧ isHydrated w' = true ∧ live_sockets w' = [].
Proof.
  intros w'. split; [|split; vm_compute; reflexivity].
  eapply (restore_keeps_question_step Examples.reloaded w').
  - vm_compute. reflexivity.
  - vm_compute. reflexivity.
  - vm_compute. reflexivity.
Defined.
(** ** Chat: streaming (context/GlobalContext.tsx) *)

Lemma parse_frame type fields :
  JSON.serializable (JObj (("type", JStr type) :: fields)) = true →
  JSON.parse (frame type fields) = Ok (JObj (("type", JStr type) :: fields)).
Proof. apply parse_text. Qed.

Lemma parse_stream_frame delta :
  JSON.parse (stream_frame delta)
  = Ok (JObj [("type", JStr "stream"); ("content", JStr delta)]).
Proof. by apply parse_frame. Qed.

Lemma last_message_snoc l v : last_message (l ++ [v]) = v.
Proof. unfold last_message. by rewrite List.last_last. Qed.

Lemma last_message_set_last l v : l ≠ [] → last_message (set_last l v) = v.
Proof.
  intros Hl. destruct (exists_last Hl) as (l' & x & ->).
  unfold set_last. rewrite length_app. simpl.
  replace (length l' + 1 - 1) with (length l' + 0) by lia.
  rewrite insert_app_r. simpl. apply last_message_snoc.
Qed.

Lemma last_message_role l :
  is_str (get_opt (last_message l) "role") "assistant" = true → l ≠ [].
Proof. by intros H ->. Qed.

(** One [stream] frame on an open chat socket: the accumulated text grows
    by the delta and becomes the content of the trailing entry. *)
Lemma chat_stream_step id s message rendered am delta w messages :
  sockets w !! id = Some s →
  readyState s = OPEN →
  handlers s = ChatWs message rendered am →
  obj_get (states w Chat) "messages" = JArr messages →
  ∃ w' s' messages',
    deliver id (WsMessage (stream_frame delta)) w = Some (Ok w')
    ∧ sockets w' !! id = Some s'
    ∧ readyState s' = OPEN
    ∧ handlers s' = ChatWs message rendered (am +:+ delta)
    ∧ obj_get (states w' Chat) "messages" = JArr messages'
    ∧ get_opt (last_message messages') "content" = JStr (am +:+ delta)
    ∧ is_str (get_opt (last_message messages') "role") "assistant" = true.
Proof.
  intros Hs Hopen Hh Hm.
  unfold deliver. rewrite Hs, Hopen. unfold run_onmessage. rewrite Hh.
  unfold chat_onmessage. rewrite parse_stream_frame.
  cbn [mbind outcome_bind get_prop own_props obj_get String.eqb Ascii.eqb
       Bool.eqb is_str get_opt to_string].
  cbv beta iota zeta.
  unfold setState. simpl states. rewrite Hm.
  cbn [spread mbind outcome_bind].
  set (am' := am +:+ delta).
  set (last := last_message messages).
  set (messages' :=
         if is_str (get_opt last "role") "assistant"
            && truthy (get_opt last "isStreaming")
         then set_last messages
                (JObj (obj_with (own_props last) [("content", JStr am')]))
         else messages ++
                [JObj [("role", JStr "assistant"); ("content", JStr am');
                       ("isStreaming", JBool true)]]).
  eexists _, (set_handlers (ChatWs message rendered am') s), messages'.
  split; [reflexivity|].
  assert (∀ w0 : Provider, sockets (auto_save Chat w0) = sockets w0) as Hsock.
  { intros w0. unfold auto_save, debounce_call. by destruct (isHydrated w0). }
  assert (∀ w0 : Provider, states (auto_save Chat w0) = states w0) as Hst.
  { intros w0. unfold auto_save, debounce_call. by destruct (isHydrated w0). }
  rewrite Hsock, Hst. simpl.
  split; [|split; [done|split; [done|split]]].
  - rewrite list_lookup_alter, Hs. simpl. rewrite decide_True by done.
    by rewrite Hh.
  - unfold insert, fn_insert. case_decide; [|done].
    by rewrite obj_get_set_ne, obj_get_set_eq.
  - unfold messages'.
    destruct (is_str (get_opt last "role") "assistant") eqn:Hrole; simpl.
    + destruct (truthy (get_opt last "isStreaming")).
      * rewrite last_message_set_last by (by apply last_message_role).
        simpl. unfold obj_with. simpl. rewrite obj_get_set_eq.
        split; [done|]. rewrite obj_get_set_ne by done.
        fold last. destruct last; try done.
      * by rewrite last_message_snoc.
    + by rewrite last_message_snoc.
Qed.

Lemma completes_after trace w :
  completes trace w = true → perform_all trace w = Some (Ok (after w trace)).
Proof.
  unfold completes, after. by destruct (perform_all trace w) as [[|]|].
Qed.

Lemma chat_stream_steps deltas :
  ∀ id s message rendered am w messages,
    deltas ≠ [] →
    sockets w !! id = Some s →
    readyState s = OPEN →
    handlers s = ChatWs message rendered am →
    obj_get (states w Chat) "messages" = JArr messages →
    ∃ w' messages',
      perform_all (stream_events id deltas) w = Some (Ok w')
      ∧ obj_get (states w' Chat) "messages" = JArr messages'
      ∧ get_opt (last_message messages') "content"
        = JStr (am +:+ concat_deltas deltas)
      ∧ is_str (get_opt (last_message messages') "role") "assistant" = true.
Proof.
  induction deltas as [|delta deltas IH]; [done|].
  intros id s message rendered am w messages _ Hs Hopen Hh Hm.
  destruct (chat_stream_step id s message rendered am delta w messages)
    as (w1 & s1 & messages1 & Hstep & Hs1 & Hopen1 & Hh1 & Hm1 & Hc1 & Hr1);
    [done..|].
  cbn [stream_events map perform_all perform]. rewrite Hstep.
  destruct deltas as [|delta' deltas].
  - exists w1, messages1. simpl. by rewrite str_app_nil_r.
  - destruct (IH id s1 message rendered (am +:+ delta) w1 messages1)
      as (w' & messages' & Hall & Hm' & Hc' & Hr'); [done..|].
    exists w', messages'. split; [done|]. split; [done|]. split; [|done].
    rewrite Hc'. by rewrite str_app_assoc.
Qed.

(** C6. A chat that is started and then receives the frames session "s1",
    stream "Hi", stream " there" and result "Hi there" ends with session
    id "s1", a last transcript entry "Hi there" that is no longer
    streaming, no loading flag, no stage and no live socket.  In general,
    on an open chat socket that has streamed nothing yet, stream frames
    delivered in order leave a trailing assistant entry whose content is
    the deltas concatenated in that order. *)
Theorem chat_streams_in_order :
  (∃ w messages,
     perform_all Examples.scenario_A (initial Examples.browser) = Some (Ok w)
     ∧ obj_get (states w Chat) "sessionId" = JStr "s1"
     ∧ obj_get (states w Chat) "messages" = JArr messages
     ∧ get_opt (last_message messages) "content" = JStr "Hi there"
     ∧ get_opt (last_message messages) "isStreaming" = JBool false
     ∧ obj_get (states w Chat) "isLoading" = JBool false
     ∧ obj_get (states w Chat) "currentStage" = JNull
     ∧ live_sockets w = [])
  ∧ ∀ (w : Provider) (id : nat) (s : WebSocket) (message : string)
      (rendered : props) (messages : list jsval) (deltas : list string),
      deltas ≠ [] →
      sockets w !! id = Some s →
      readyState s = OPEN →
      handlers s = ChatWs message rendered EmptyString →
      obj_get (states w Chat) "messages" = JArr messages →
      ∃ w' messages',
        perform_all (stream_events id deltas) w = Some (Ok w')
        ∧ obj_get (states w' Chat) "messages" = JArr messages'
        ∧ get_opt (last_message messages') "content"
          = JStr (concat_deltas deltas)
        ∧ is_str (get_opt (last_message messages') "role") "assistant" = true.
Proof.
  split.
  - exists (after (initial Examples.browser) Examples.scenario_A).
    eexists. split; [apply completes_after; vm_compute; reflexivity|].
    split; [vm_compute; reflexivity|].
    split; [vm_compute; reflexivity|].
    repeat split; vm_compute; reflexivity.
  - intros w id s message rendered messages deltas Hd Hs Hopen Hh Hm.
    by apply (chat_stream_steps deltas id s message rendered EmptyString w
                messages).
Qed.

Lemma chat_streams_in_order_witness :
  let w := after (initial Examples.browser)
             [Restore; SendChatMessage "hello"; Deliver 0 WsOpen] in
  ∃ w' messages',
    perform_all (stream_events 0 ["Hi"; " there"]) w = Some (Ok w')
    ∧ obj_get (states w' Chat) "messages" = JArr messages'
    ∧ get_opt (last_message messages') "content" = JStr "Hi there"
    ∧ is_str (get_opt (last_message messages') "role") "assistant" = true.
Proof.
  intros w.
  eapply (proj2 chat_streams_in_order w 0 _ "hello").
  - done.
  - vm_compute. reflexivity.
  - vm_compute. reflexivity.
  - vm_compute. reflexivity.
  - vm_compute. reflexivity.
Defined.

(** ** Application errors (context/GlobalContext.tsx) *)

Lemma auto_save_fields c w :
  states (auto_save c w) = states w
  ∧ sockets (auto_save c w) = sockets w
  ∧ wsRefs (auto_save c w) = wsRefs w
  ∧ solverSessionIdRef (auto_save c w) = solverSessionIdRef w
  ∧ sessionIdRef (auto_save c w) = sessionIdRef w.
Proof. unfold auto_save, debounce_call. by destruct (isHydrated w). Qed.

(** A state update changes the state of its channel and nothing of the
    sockets or the refs. *)
Lemma setState_ok c updater w next :
  updater (states w c) = Ok next →
  ∃ w', setState c updater w = Ok w'
        ∧ states w' = <[c := next]> (states w)
        ∧ sockets w' = sockets w
        ∧ wsRefs w' = wsRefs w
        ∧ solverSessionIdRef w' = solverSessionIdRef w
        ∧ sessionIdRef w' = sessionIdRef w.
Proof.
  intros Hu. unfold setState. rewrite Hu. eexists. split; [reflexivity|].
  by destruct (auto_save_fields c (with_states (<[c := next]> (states w)) w))
    as (-> & -> & -> & -> & ->).
Qed.

Lemma add_log_ok c log w logs :
  obj_get (states w c) "logs" = JArr logs →
  ∃ w', add_log c log w = Ok w'
        ∧ states w' = <[c := obj_with (states w c)
                                [("logs", JArr (logs ++ [log]))]]> (states w)
        ∧ sockets w' = sockets w
        ∧ wsRefs w' = wsRefs w
        ∧ solverSessionIdRef w' = solverSessionIdRef w
        ∧ sessionIdRef w' = sessionIdRef w.
Proof.
  intros Hl. unfold add_log. apply setState_ok. by rewrite Hl.
Qed.

Lemma fn_lookup_insert_eq {A} (f : channel → A) c v : (<[c := v]> f) c = v.
Proof. unfold insert, fn_insert. by rewrite decide_True. Qed.

(** C8. In knowledge mode of the question channel, an error frame on the
    open socket is handled without throwing and appends an error entry to
    the log, but the step of the channel stays what it was; it is still
    the same when the server has closed the socket. *)
Theorem question_error_keeps_step (w : Provider) (id : nat) (s : WebSocket)
    (topic diff type : string) (count : Z) (kb : string)
    (logs : list jsval) (text : string) :
  sockets w !! id = Some s →
  readyState s = OPEN →
  handlers s = QuestionWs topic diff type count kb →
  obj_get (states w Question) "logs" = JArr logs →
  ∃ w',
    perform_all [Deliver id (WsMessage (frame "error" [("content", JStr text)]));
                 Deliver id (WsClosed false)] w = Some (Ok w')
    ∧ obj_get (states w' Question) "step" = obj_get (states w Question) "step"
    ∧ obj_get (states w' Question) "logs"
      = JArr (logs ++ [log_entry "error"
                         (error_text (JObj [("type", JStr "error");
                                            ("content", JStr text)]))])
    ∧ readyState <$> sockets w' !! id = Some CLOSED.
Proof.
  intros Hs Hopen Hh Hl.
  set (data := JObj [("type", JStr "error"); ("content", JStr text)]).
  set (log := log_entry "error" (error_text data)).
  destruct (add_log_ok Question log w logs Hl)
    as (w1 & Hlog & Hst1 & Hso1 & Hr1 & _).
  destruct (setState_ok Question
              (λ prev, Ok (obj_with prev [("progress", progress_none)]))
              w1 _ eq_refl)
    as (w2 & Hset & Hst2 & Hso2 & Hr2 & _).
  assert (deliver id (WsMessage (frame "error" [("content", JStr text)])) w
          = Some (Ok w2)) as Hmsg.
  { unfold deliver. rewrite Hs, Hopen. unfold run_onmessage. rewrite Hh.
    unfold question_onmessage. rewrite parse_frame by done.
    cbn [get_prop own_props obj_get String.eqb Ascii.eqb Bool.eqb existsb
         is_str orb].
    fold data. fold log. rewrite Hlog. cbn [mbind outcome_bind].
    by rewrite Hset. }
  cbn [perform_all perform]. rewrite Hmsg.
  unfold deliver. rewrite Hso2, Hso1, Hs, Hopen, Hh.
  cbn [run_onclose question_onclose mbind outcome_bind].
  eexists. split; [reflexivity|].
  assert (∀ v : Provider,
            states (clear_ref_if_current Question id v) = states v
            ∧ sockets (clear_ref_if_current Question id v) = sockets v)
    as Hclear.
  { intros v. unfold clear_ref_if_current. by case_decide. }
  destruct (Hclear (set_socket_state id CLOSED w2)) as [-> ->].
  simpl. rewrite Hst2, Hst1, !fn_lookup_insert_eq.
  split; [|split].
  - unfold obj_with. simpl. by rewrite !obj_get_set_ne.
  - unfold obj_with. simpl. rewrite obj_get_set_ne by done.
    by rewrite obj_get_set_eq.
  - rewrite Hso2, Hso1, list_lookup_alter, decide_True, Hs by done. done.
Qed.

Lemma question_error_keeps_step_witness :
  let w := Examples.generating in
  obj_get (states w Question) "step" = JStr "generating"
  ∧ ∃ w',
      perform_all
        [Deliver 0 (WsMessage (frame "error" [("content", JStr "boom")]));
         Deliver 0 (WsClosed false)] w = Some (Ok w')
      ∧ obj_get (states w' Question) "step" = obj_get (states w Question) "step"
      ∧ obj_get (states w' Question) "logs"
        = JArr ([log_entry "system" "Initializing Generator..."]
                ++ [log_entry "error"
                      (error_text (JObj [("type", JStr "error");
                                         ("content", JStr "boom")]))])
      ∧ readyState <$> sockets w' !! 0 = Some CLOSED.
Proof.
  intros w. split; [vm_compute; reflexivity|].
  eapply (question_error_keeps_step w 0).
  - vm_compute. reflexivity.
  - vm_compute. reflexivity.
  - vm_compute. reflexivity.
  - vm_compute. reflexivity.
Defined.

(** The other error handlers leave the running state: exam mode of the
    same channel goes back to its configuration step, the solver stops
    solving, research is idle and the chat is no longer loading; each
    shows the error. *)
Lemma error_frame_elsewhere :
  obj_get (states Examples.mimic_failed Question) "step" = JStr "config"
  ∧ obj_get (states Examples.solver_failed Solver) "isSolving" = JBool false
  ∧ obj_get (states Examples.research_failed Research) "status" = JStr "idle"
  ∧ obj_get (states Examples.chat_failed Chat) "isLoading" = JBool false
  ∧ last_entry (obj_get (states Examples.mimic_failed Question) "logs")
    = log_entry "error" "Error: boom"
  ∧ last_entry (obj_get (states Examples.solver_failed Solver) "logs")
    = log_entry "error" "Error: boom"
  ∧ last_entry (obj_get (states Examples.research_failed Research) "logs")
    = log_entry "error" "Error: boom"
  ∧ last_entry (obj_get (states Examples.chat_failed Chat) "messages")
    = JObj [("role", JStr "assistant"); ("content", JStr "Error: boom")].
Proof. repeat split; vm_compute; reflexivity. Qed.

(** ** Initiating frames (context/GlobalContext.tsx) *)

Lemma solver_frame_serializable question kb session_id :
  JSON.serializable session_id = true →
  JSON.serializable (solver_frame question kb session_id) = true.
Proof.
  intros Hs. unfold solver_frame.
  change (JSON.serializable (JObj ?o))
    with (bool_decide (NoDup (obj_keys o)) && JSON.serializable_props o).
  apply andb_true_iff. split; [done|]. simpl. by rewrite Hs.
Qed.

(** Opening a connecting socket marks it open and runs its [onopen]. *)
Lemma deliver_open id s w :
  sockets w !! id = Some s →
  readyState s = CONNECTING →
  deliver id WsOpen w
  = Some (run_onopen id (handlers s) (set_socket_state id OPEN w))
  ∧ sockets (set_socket_state id OPEN w) !! id = Some (set_readyState OPEN s).
Proof.
  intros Hs Hc. unfold deliver. rewrite Hs, Hc. split; [done|].
  simpl. by rewrite list_lookup_alter, decide_True, Hs.
Qed.

Lemma ws_send_open id s data w :
  sockets w !! id = Some s →
  readyState s = OPEN →
  ∃ w', ws_send id data w = Ok w'
        ∧ sent <$> sockets w' !! id = Some (sent s ++ [data])
        ∧ states w' = states w
        ∧ isHydrated w' = isHydrated w.
Proof.
  intros Hs Ho. unfold ws_send. rewrite Hs, Ho. eexists. split; [done|].
  simpl. rewrite list_lookup_insert_eq; [done|].
  by apply lookup_lt_Some in Hs.
Qed.

(** C7. On the solver and chat channels, when the session ref mirrors the
    session id of the channel's state, the frame sent as the socket opens
    is the JSON text of an object whose [session_id] is that session id
    (null when there is none).  The frames of research and of question
    generation, in both modes, have no [session_id]. *)
Theorem initiating_frame_session_id :
  (∀ (w : Provider) (id : nat) (s : WebSocket) (question kb : string)
     (logs : list jsval),
     sockets w !! id = Some s →
     readyState s = CONNECTING →
     handlers s = SolverWs question kb →
     obj_get (states w Solver) "logs" = JArr logs →
     solverSessionIdRef w = obj_get (states w Solver) "sessionId" →
     JSON.serializable (obj_get (states w Solver) "sessionId") = true →
     ∃ w' data,
       deliver id WsOpen w = Some (Ok w')
       ∧ sent <$> sockets w' !! id = Some (sent s ++ [JSON.text data])
       ∧ JSON.parse (JSON.text data) = Ok data
       ∧ get_opt data "session_id" = obj_get (states w Solver) "sessionId")
  ∧ (∀ (w : Provider) (id : nat) (s : WebSocket) (message : string)
       (chatState : props) (assistantMessage : string) (history : jsval),
       sockets w !! id = Some s →
       readyState s = CONNECTING →
       handlers s = ChatWs message chatState assistantMessage →
       chat_history chatState = Ok history →
       sessionIdRef w = obj_get (states w Chat) "sessionId" →
       JSON.serializable
         (chat_frame message (obj_get (states w Chat) "sessionId") history
            chatState) = true →
       ∃ w' data,
         deliver id WsOpen w = Some (Ok w')
         ∧ sent <$> sockets w' !! id = Some (sent s ++ [JSON.text data])
         ∧ JSON.parse (JSON.text data) = Ok data
         ∧ get_opt data "session_id" = obj_get (states w Chat) "sessionId")
  ∧ (∀ topic kb planMode enabledTools skipRephrase,
       includes (obj_keys (own_props
         (research_frame topic kb planMode enabledTools skipRephrase)))
         "session_id" = false)
  ∧ (∀ topic diff type count kb,
       includes (obj_keys (own_props (question_frame topic diff type count kb)))
         "session_id" = false)
  ∧ (∀ file paperPath kb maxQuestions,
       includes (obj_keys (own_props
         (mimic_frame file paperPath kb maxQuestions))) "session_id" = false).
Proof.
  split; [|split; [|split; [|split]]].
  - intros w id s question kb logs Hs Hc Hh Hl Href Hser.
    destruct (deliver_open id s w Hs Hc) as [-> Hs0].
    rewrite Hh. cbn [run_onopen]. unfold solver_onopen.
    set (w0 := set_socket_state id OPEN w) in *.
    change (solverSessionIdRef w0) with (solverSessionIdRef w).
    rewrite Href.
    set (data := solver_frame question kb (obj_get (states w Solver) "sessionId")).
    destruct (ws_send_open id _ (JSON.text data) w0 Hs0 eq_refl)
      as (w1 & Hsend & Hsent & Hst1 & _).
    assert (JSON.stringify data = Some (JSON.text data)) as -> by done.
    cbn [string_arg]. rewrite Hsend. cbn [mbind outcome_bind].
    destruct (add_log_ok Solver
                (log_entry "system" "Initializing connection...") w1 logs)
      as (w2 & Hlog & _ & Hso2 & _).
    { by rewrite Hst1. }
    exists w2, data. rewrite Hlog, Hso2. split; [done|]. split; [done|].
    split; [|done]. apply parse_text. by apply solver_frame_serializable.
  - intros w id s message chatState am history Hs Hc Hh Hhist Href Hser.
    destruct (deliver_open id s w Hs Hc) as [-> Hs0].
    rewrite Hh. cbn [run_onopen]. unfold chat_onopen. rewrite Hhist.
    cbn [mbind outcome_bind].
    set (w0 := set_socket_state id OPEN w) in *.
    change (sessionIdRef w0) with (sessionIdRef w). rewrite Href.
    set (data := chat_frame message (obj_get (states w Chat) "sessionId")
                   history chatState) in *.
    destruct (ws_send_open id _ (JSON.text data) w0 Hs0 eq_refl)
      as (w1 & Hsend & Hsent & _).
    assert (JSON.stringify data = Some (JSON.text data)) as -> by done.
    cbn [string_arg]. exists w1, data. rewrite Hsend. split; [done|].
    split; [done|]. split; [by apply parse_text|done].
  - done.
  - done.
  - by intros [f|].
Qed.

Lemma initiating_frame_session_id_witness :
  let w := after Examples.solver_in_session [StartSolver "q2" "kb"] in
  let c := Examples.chat_reloaded in
  (obj_get (states w Solver) "sessionId" = JStr "s1"
   ∧ ∃ s, sockets w !! 1 = Some s
     ∧ ∃ w' data,
         deliver 1 WsOpen w = Some (Ok w')
         ∧ sent <$> sockets w' !! 1 = Some (sent s ++ [JSON.text data])
         ∧ JSON.parse (JSON.text data) = Ok data
         ∧ get_opt data "session_id" = obj_get (states w Solver) "sessionId")
  ∧ (obj_get (states c Chat) "sessionId" = JStr "s1"
     ∧ ∃ s, sockets c !! 0 = Some s
       ∧ ∃ c' data,
           deliver 0 WsOpen c = Some (Ok c')
           ∧ sent <$> sockets c' !! 0 = Some (sent s ++ [JSON.text data])
           ∧ JSON.parse (JSON.text data) = Ok data
           ∧ get_opt data "session_id" = obj_get (states c Chat) "sessionId").
Proof.
  intros w c.
  split; (split; [vm_compute; reflexivity|]);
    (eexists; split; [vm_compute; reflexivity|]).
  - eapply (proj1 initiating_frame_session_id w 1).
    + vm_compute. reflexivity.
    + reflexivity.
    + reflexivity.
    + vm_compute. reflexivity.
    + vm_compute. reflexivity.
    + vm_compute. reflexivity.
  - eapply (proj1 (proj2 initiating_frame_session_id) c 0).
    + vm_compute. reflexivity.
    + reflexivity.
    + reflexivity.
    + vm_compute. reflexivity.
    + vm_compute. reflexivity.
    + vm_compute. reflexivity.
Defined.

(** The frame of research as sent has no [session_id]. *)
Lemma research_frame_without_session_id :
  ∃ data,
    sent <$> sockets Examples.researching !! 0 = Some [JSON.text data]
    ∧ JSON.parse (JSON.text data) = Ok data
    ∧ includes (obj_keys (own_props data)) "session_id" = false.
Proof.
  exists (research_frame "t" "kb" "medium" ["RAG"] false).
  repeat split; vm_compute; reflexivity.
Qed.

(** After a reload the restored solver state names its session, but the
    solver's ref starts empty again (the restore effect sets the chat's
    ref only), and the next frame asks for a fresh session. *)
Lemma solver_session_ref_after_reload :
  let w := Examples.solver_reloaded in
  obj_get (states w Solver) "sessionId" = JStr "s1"
  ∧ solverSessionIdRef w = JNull
  ∧ sent <$> sockets (after w [Deliver 0 WsOpen]) !! 0
    = Some [JSON.text (solver_frame "q2" "kb" JNull)].
Proof. repeat split; vm_compute; reflexivity. Qed.

(** ** Supersession (context/GlobalContext.tsx) *)

Lemma closing_not_live s : live (closing s) = false.
Proof. unfold closing. by destruct (live s) eqn:E. Qed.

Lemma closing_handlers s : handlers (closing s) = handlers s.
Proof. unfold closing. by destruct (live s). Qed.

Lemma close_current_fields c w :
  states (close_current c w) = states w
  ∧ wsRefs (close_current c w) = wsRefs w
  ∧ length (sockets (close_current c w)) = length (sockets w)
  ∧ ∀ k, sockets (close_current c w) !! k
         = (if decide (wsRefs w c = Some k) then closing else λ s, s)
             <$> sockets w !! k.
Proof.
  unfold close_current. destruct (wsRefs w c) as [cur|] eqn:E; simpl.
  - rewrite length_alter. repeat split; [].
    intros k. rewrite list_lookup_alter.
    destruct (decide (cur = k)) as [->|Hne].
    + by rewrite decide_True.
    + rewrite decide_False by congruence. by destruct (sockets w !! k).
  - repeat split; []. intros k. by destruct (sockets w !! k).
Qed.

(** The shape shared by the starts: close the current socket, update the
    state, open a socket and make it the current one. *)
Lemma start_shape c u h updater w next :
  updater (states w c) = Ok next →
  ∃ w',
    (w1 ← setState c updater (close_current c w);
     Ok (set_ref c (Some (length (sockets w1))) (new_socket u h w1))) = Ok w'
    ∧ states w' = <[c := next]> (states w)
    ∧ wsRefs w' = <[c := Some (length (sockets w))]> (wsRefs w)
    ∧ sockets w'
      = sockets (close_current c w)
        ++ [{| url := u; readyState := CONNECTING; sent := []; handlers := h |}].
Proof.
  intros Hu.
  destruct (close_current_fields c w) as (Hst & Hrf & Hlen & _).
  destruct (setState_ok c updater (close_current c w) next)
    as (w1 & -> & Hst1 & Hso1 & Hrf1 & _); [by rewrite Hst|].
  eexists. split; [done|]. simpl.
  by rewrite Hst1, Hso1, Hrf1, Hst, Hrf, Hlen.
Qed.

Lemma start_performs a c w :
  started_channel a = Some c →
  startable a w = true →
  ∃ w' u h next,
    perform a w = Some (Ok w')
    ∧ channel_of h = c
    ∧ states w' = <[c := next]> (states w)
    ∧ wsRefs w' = <[c := Some (length (sockets w))]> (wsRefs w)
    ∧ sockets w'
      = sockets (close_current c w)
        ++ [{| url := u; readyState := CONNECTING; sent := []; handlers := h |}].
Proof.
  intros Hc Hs.
  destruct a; simpl in Hc; try done; apply (inj Some) in Hc as <-;
    cbn [perform].
  - simpl in Hs.
    destruct (obj_get (states w Solver) "messages") as [| | | | |messages|]
      eqn:Hm; try done.
    edestruct (start_shape Solver "/api/v1/solve" (SolverWs question kb))
      as (w' & Hw' & Hrest); [|exists w'; do 3 eexists; split;
        [unfold startSolver; rewrite Hw'; reflexivity|split; [|exact Hrest]]];
      [cbv beta; rewrite Hm; reflexivity|done].
  - edestruct (start_shape Question "/api/v1/question/generate"
                 (QuestionWs topic diff type count kb))
      as (w' & Hw' & Hrest); [|exists w'; do 3 eexists; split;
        [unfold startQuestionGen; rewrite Hw'; reflexivity|split; [|exact Hrest]]];
      [reflexivity|done].
  - unfold startable in Hs. unfold startMimicQuestionGen. cbv zeta.
    replace (negb (bool_decide (file ≠ None))
             && negb (truthy (JStr paperPath)
                      && negb (String.eqb (trim paperPath) EmptyString)))
      with false by (by rewrite <- negb_orb, Hs).
    edestruct (start_shape Question "/api/v1/question/mimic"
                 (MimicWs file paperPath kb maxQuestions))
      as (w' & Hw' & Hrest); [|exists w'; do 3 eexists; split;
        [rewrite Hw'; reflexivity|split; [|exact Hrest]]];
      [reflexivity|done].
  - edestruct (start_shape Research "/api/v1/research/run"
                 (ResearchWs topic kb planMode enabledTools skipRephrase))
      as (w' & Hw' & Hrest); [|exists w'; do 3 eexists; split;
        [unfold startResearch; rewrite Hw'; reflexivity|split; [|exact Hrest]]];
      [reflexivity|done].
Qed.

Lemma filter_none {A} (P : A → Prop) `{∀ x, Decision (P x)} (l : list A) :
  (∀ x, x ∈ l → ¬ P x) → filter P l = [].
Proof.
  induction l as [|x l IH]; intros Hl; [done|].
  rewrite filter_cons_False by (apply Hl; left).
  apply IH. intros y Hy. apply Hl. by right.
Qed.

Lemma live_on_elem c w k :
  k ∈ live_on c w
  ↔ ∃ s, sockets w !! k = Some s ∧ live_for c s = true.
Proof.
  unfold live_on. rewrite list_elem_of_filter, elem_of_seq. split.
  - intros [Hp _]. destruct (sockets w !! k) as [s|]; [|done].
    exists s. split; [done|]. by apply Is_true_true.
  - intros (s & Hs & Hl). rewrite Hs. simpl. split; [by apply Is_true_true|].
    apply lookup_lt_Some in Hs. lia.
Qed.

Lemma one_transport_current c w k s :
  one_transport c w = true →
  sockets w !! k = Some s →
  live_for c s = true →
  wsRefs w c = Some k.
Proof.
  intros Hone Hs Hl. unfold one_transport in Hone.
  apply Is_true_true, forallb_True in Hone.
  rewrite list.Forall_forall in Hone.
  assert (k ∈ live_on c w) as Hk by (apply live_on_elem; eauto).
  apply Hone in Hk. by apply bool_decide_unpack in Hk.
Qed.

(** After a start the only live socket of the channel is the new one. *)
Lemma live_on_started c w w' u h :
  one_transport c w = true →
  channel_of h = c →
  sockets w'
  = sockets (close_current c w)
    ++ [{| url := u; readyState := CONNECTING; sent := []; handlers := h |}] →
  live_on c w' = [length (sockets w)].
Proof.
  intros Hone Hh Hso.
  destruct (close_current_fields c w) as (_ & _ & Hlen & Hlook).
  unfold live_on. rewrite Hso, length_app, Hlen. simpl.
  rewrite Nat.add_1_r, seq_S, list.filter_app. simpl.
  rewrite filter_none.
  - simpl. rewrite filter_singleton_True; [done|exact []|].
    rewrite lookup_app_r by lia. rewrite Hlen, Nat.sub_diag. simpl.
    unfold live_for. simpl. by rewrite bool_decide_true.
  - intros k Hk%elem_of_seq Hp.
    rewrite lookup_app_l, Hlook in Hp by lia.
    destruct (sockets w !! k) as [s|] eqn:Hs; [|done]. simpl in Hp.
    apply Is_true_true in Hp. case_decide as Hcur.
    + unfold live_for in Hp. by rewrite closing_not_live in Hp.
    + apply Hcur. by apply (one_transport_current c w k s).
Qed.

Lemma not_live_state s :
  live s = false → readyState s = CLOSING ∨ readyState s = CLOSED.
Proof. unfold live. destruct (readyState s); auto; done. Qed.

(** C1. On the solver, question and research channels, a start on a
    channel whose current socket is [first], the only socket of the
    channel that may be live, goes through and leaves exactly one live
    socket of the channel: the new one, which is now the current one.
    From then on a message or an open event of [first] is not dispatched,
    and its close event, when the connection did not fail, changes no
    state and no ref. *)
Theorem start_supersedes (a : action) (c : channel) (w : Provider)
    (first : nat) (s : WebSocket) :
  started_channel a = Some c →
  startable a w = true →
  one_transport c w = true →
  wsRefs w c = Some first →
  sockets w !! first = Some s →
  channel_of (handlers s) = c →
  ∃ w',
    perform a w = Some (Ok w')
    ∧ live_on c w' = [length (sockets w)]
    ∧ wsRefs w' c = Some (length (sockets w))
    ∧ first ≠ length (sockets w)
    ∧ one_transport c w' = true
    ∧ (∀ data, deliver first (WsMessage data) w' = Some (Ok w'))
    ∧ deliver first WsOpen w' = Some (Ok w')
    ∧ ∃ w'',
        deliver first (WsClosed false) w' = Some (Ok w'')
        ∧ states w'' = states w'
        ∧ wsRefs w'' = wsRefs w'
        ∧ live_on c w'' = [length (sockets w)].
Proof.
  intros Ha Hstart Hone Hcur Hs Hch.
  destruct (start_performs a c w Ha Hstart)
    as (w' & u & h & next & Hw' & Hh & Hst & Hrf & Hso).
  pose proof (live_on_started c w w' u h Hone Hh Hso) as Hlive.
  destruct (close_current_fields c w) as (_ & _ & Hlen & Hlook).
  pose proof (lookup_lt_Some _ _ _ Hs) as Hlt.
  assert (sockets w' !! first = Some (closing s)) as Hfirst.
  { rewrite Hso, lookup_app_l, Hlook, Hs by lia. simpl.
    by rewrite decide_True. }
  assert (wsRefs w' c = Some (length (sockets w))) as Hnew.
  { rewrite Hrf. apply fn_lookup_insert_eq. }
  exists w'. split; [done|]. split; [done|]. split; [done|].
  split; [lia|]. split.
  { unfold one_transport. rewrite Hlive. simpl.
    by rewrite bool_decide_true. }
  destruct (not_live_state _ (closing_not_live s)) as [Hr|Hr].
  - split; [|split].
    + intros data. unfold deliver. by rewrite Hfirst, Hr.
    + unfold deliver. by rewrite Hfirst, Hr.
    + unfold deliver. rewrite Hfirst, Hr, closing_handlers.
      cbn [mbind outcome_bind].
      set (w0 := set_socket_state first CLOSED w').
      assert (clear_ref_if_current c first w0 = w0) as Hclear.
      { unfold clear_ref_if_current. rewrite decide_False; [done|].
        change (wsRefs w0) with (wsRefs w'). rewrite Hnew.
        intros [=]. lia. }
      assert (live_on c w0 = [length (sockets w)]) as Hlive0.
      { rewrite <- Hlive. unfold live_on, w0. simpl. rewrite length_alter.
        apply list_filter_iff. intros k. rewrite list_lookup_alter.
        case_decide as Hk; [|done]. subst k. rewrite Hfirst. simpl.
        unfold live_for, live. simpl. by rewrite Hr. }
      exists w0.
      destruct (handlers s) eqn:Ehs; simpl in Hch; subst c;
        try (by destruct a);
        cbn [run_onclose];
        try unfold solver_onclose; try unfold question_onclose;
        try unfold research_onclose; rewrite ?Hclear; done.
  - split; [|split].
    + intros data. unfold deliver. by rewrite Hfirst, Hr.
    + unfold deliver. by rewrite Hfirst, Hr.
    + exists w'. unfold deliver. by rewrite Hfirst, Hr.
Qed.

Lemma start_supersedes_witness :
  let w := Examples.solver_in_session in
  length (sockets w) = 1
  ∧ ∃ w',
      perform (StartSolver "q2" "kb") w = Some (Ok w')
      ∧ live_on Solver w' = [length (sockets w)]
      ∧ wsRefs w' Solver = Some (length (sockets w))
      ∧ 0 ≠ length (sockets w)
      ∧ one_transport Solver w' = true
      ∧ (∀ data, deliver 0 (WsMessage data) w' = Some (Ok w'))
      ∧ deliver 0 WsOpen w' = Some (Ok w')
      ∧ ∃ w'',
          deliver 0 (WsClosed false) w' = Some (Ok w'')
          ∧ states w'' = states w'
          ∧ wsRefs w'' = wsRefs w'
          ∧ live_on Solver w'' = [length (sockets w)].
Proof.
  intros w. split; [vm_compute; reflexivity|].
  eapply (start_supersedes (StartSolver "q2" "kb") Solver w 0).
  - reflexivity.
  - vm_compute. reflexivity.
  - vm_compute. reflexivity.
  - vm_compute. reflexivity.
  - vm_compute. reflexivity.
  - vm_compute. reflexivity.
Defined.

(** A second chat message sent while the first is loading is refused by
    the guard of [sendChatMessage]: it opens no socket, the live socket is
    still the first one, and the frames of that socket are still written
    to the transcript. *)
Lemma second_chat_message_opens_nothing :
  let c := Examples.chat_twice in
  let c' := after c [Deliver 0 WsOpen; Deliver 0 (WsMessage (stream_frame "Hi"))] in
  length (sockets c) = 1
  ∧ live_on Chat c = [0]
  ∧ wsRefs c Chat = Some 0
  ∧ completes [Deliver 0 WsOpen; Deliver 0 (WsMessage (stream_frame "Hi"))] c
    = true
  ∧ last_entry (obj_get (states c' Chat) "messages")
    = JObj [("role", JStr "assistant"); ("content", JStr "Hi");
            ("isStreaming", JBool true)].
Proof. repeat split; vm_compute; reflexivity. Qed.

(** Two starts of the solver in a row: the first socket is closed while
    it connects, so its connection fails and its error event is
    dispatched; [onerror], unlike [onclose], does not ask whether its
    socket is still the current one, and stops the solving that the second
    start began, although the second socket is live. *)
Lemma superseded_error_is_applied :
  let w := Examples.solver_twice in
  let w' := after w [Deliver 0 (WsClosed true)] in
  live_on Solver w = [1]
  ∧ obj_get (states w Solver) "isSolving" = JBool true
  ∧ completes [Deliver 0 (WsClosed true)] w = true
  ∧ live_on Solver w' = [1]
  ∧ obj_get (states w' Solver) "isSolving" = JBool false
  ∧ last_entry (obj_get (states w' Solver) "logs")
    = log_entry "error" "Connection error".
Proof. repeat split; vm_compute; reflexivity. Qed.

(** * Further properties *)

(** ** The field filters as functions on whole objects (lib/persistence.ts) *)






Lemma obj_get_app_fresh (pre rest : props) k :
  k ∉ obj_keys pre → obj_get (pre ++ rest) k = obj_get rest k.
Proof.
  unfold obj_keys. induction pre as [|[k0 v0] pre IH]; simpl; [done|].
  intros [Hne Hni]%not_elem_of_cons.
  assert (k0 ≠ k) as Hne' by congruence.
  apply String.eqb_neq in Hne' as ->. by apply IH.
Qed.

Lemma persist_fold_filter exclude (rest pre : props) :
  NoDup (obj_keys (pre ++ rest)) →
  foldl (λ result key,
           if negb (includes exclude key)
           then obj_set result key (obj_get (pre ++ rest) key)
           else result)
        (filter (λ kv, includes exclude kv.1 = false) pre) (obj_keys rest)
  = filter (λ kv, includes exclude kv.1 = false) (pre ++ rest).
Proof.
  revert pre. induction rest as [|[k v] rest IH]; intros pre Hnd; simpl.
  - by rewrite List.app_nil_r.
  - assert (k ∉ obj_keys pre) as Hfresh.
    { unfold obj_keys in *. rewrite fmap_app in Hnd.
      apply list.NoDup_app in Hnd as (_ & Hdisj & _).
      intros Hin. apply (Hdisj k Hin). by left. }
    rewrite obj_get_app_fresh by done. simpl. rewrite String.eqb_refl.
    replace (pre ++ (k, v) :: rest) with ((pre ++ [(k, v)]) ++ rest) in *
      by (by rewrite <- List.app_assoc).
    rewrite <- (IH (pre ++ [(k, v)]) Hnd). f_equal.
    rewrite list.filter_app.
    destruct (includes exclude k) eqn:Hex; simpl.
    + rewrite filter_cons_False by (simpl; congruence).
      by rewrite filter_nil, List.app_nil_r.
    + rewrite filter_cons_True by done. rewrite filter_nil.
      rewrite obj_set_fresh; [done|]. intros Hin. apply Hfresh.
      unfold obj_keys in *. apply list_elem_of_fmap in Hin as ([k' v'] & -> & Hin).
      apply list_elem_of_filter in Hin as [_ Hin].
      apply list_elem_of_fmap. by exists (k', v').
Qed.

(** X2. On an object (keys are unique), [persistState] is the object with
    the excluded entries taken out: what stays keeps its value and its
    place. *)
Theorem persistState_is_filter (state : props) (excl : list string) :
  NoDup (obj_keys state) →
  persistState state excl = filter (λ kv, includes excl kv.1 = false) state.
Proof.
  intros Hnd. unfold persistState.
  apply (persist_fold_filter excl state [] Hnd).
Qed.

Lemma persistState_is_filter_witness :
  persistState Examples.solver_busy (EXCLUDE_FIELDS SOLVER)
  = filter (λ kv, includes (EXCLUDE_FIELDS SOLVER) kv.1 = false)
      Examples.solver_busy.
Proof.
  apply persistState_is_filter.
  apply (bool_decide_unpack (NoDup (obj_keys Examples.solver_busy))).
  vm_compute. exact I.
Defined.

(** ** One entry at a time (lib/persistence.ts) *)

Lemma Ok_inj {A} (a b : A) : Ok a = Ok b → a = b.
Proof. congruence. Qed.

Lemma load_by_entry env1 env2 key d :
  stored_entry env1 key = stored_entry env2 key →
  loadFromStorage env1 key d = loadFromStorage env2 key d.
Proof. intros H. by rewrite !loadFromStorage_unfold, H. Qed.

Lemma prefixed_inj key key' :
  STORAGE_PREFIX +:+ key = STORAGE_PREFIX +:+ key' → key = key'.
Proof. apply (inj (String.app STORAGE_PREFIX)). Qed.

Lemma stringify_wrap v t :
  string_arg (JSON.stringify (wrap v t)) = JSON.text (wrap v t).
Proof. done. Qed.

(** X3. A save changes nothing but the entry of its own key, and not even
    that one when the store refuses the write: every other item of the
    store, and what [loadFromStorage] returns for every other key, is as
    before. *)
Theorem saveToStorage_own_entry_only (env env' : Env) (key : string)
    (value : jsval) :
  saveToStorage env key value = Ok env' →
  (env' = env
   ∨ stored_entry env' key = Some (JSON.text (wrap value (now env))))
  ∧ has_window env' = has_window env
  ∧ now env' = now env
  ∧ (∀ k, k ≠ STORAGE_PREFIX +:+ key →
          items (localStorage env') !! k = items (localStorage env) !! k)
  ∧ (∀ key' d, key' ≠ key →
               loadFromStorage env' key' d = loadFromStorage env key' d).
Proof.
  unfold saveToStorage. destruct (has_window env) eqn:Hw; cbn [negb].
  2:{ intros <-%Ok_inj. by repeat split; auto. }
  cbv zeta. rewrite stringify_wrap. unfold setItem.
  destruct (blocked (localStorage env)) eqn:Hb; cbn [mbind outcome_bind try_catch].
  { intros <-%Ok_inj. by repeat split; auto. }
  assert (∀ q,
    let env1 :=
      with_storage env
        {| items := <[STORAGE_PREFIX +:+ key := JSON.text (wrap value (now env))]>
                      (items (localStorage env));
           quota := q; blocked := false |} in
    (env1 = env
     ∨ stored_entry env1 key = Some (JSON.text (wrap value (now env))))
    ∧ has_window env1 = true
    ∧ now env1 = now env
    ∧ (∀ k, k ≠ STORAGE_PREFIX +:+ key →
            items (localStorage env1) !! k = items (localStorage env) !! k)
    ∧ (∀ key' d, key' ≠ key →
                 loadFromStorage env1 key' d = loadFromStorage env key' d))
    as Hwritten.
  { intros q env1. split; [right|split; [done|split; [done|split]]].
    - unfold stored_entry, env1. simpl. rewrite Hw. simpl.
      by rewrite lookup_insert_eq.
    - intros k Hk. simpl. by rewrite lookup_insert_ne.
    - intros key' d Hne. apply load_by_entry.
      unfold stored_entry, env1. simpl. rewrite Hw, Hb. simpl.
      rewrite lookup_insert_ne; [done|].
      intros Heq. apply Hne. symmetry. by apply prefixed_inj. }
  destruct (quota (localStorage env)) as [q|].
  - case_decide; cbn [mbind outcome_bind try_catch].
    + intros <-%Ok_inj. apply (Hwritten (Some q)).
    + intros <-%Ok_inj. by repeat split; auto.
  - cbn [mbind outcome_bind try_catch]. intros <-%Ok_inj. apply (Hwritten None).
Qed.

Lemma saveToStorage_own_entry_only_witness :
  let value := JObj [("sessionId", JStr "s1")] in
  let env' :=
    with_storage Examples.browser_v2
      (Examples.store
         [("deeptutor_chat_state",
           JSON.text (JObj [("version", JNum 2);
                            ("data", JObj [("sessionId", JStr "s9")]);
                            ("timestamp", JNum 5)]));
          ("deeptutor_solver_state",
           JSON.text (wrap value (now Examples.browser_v2)))] None) in
  (env' = Examples.browser_v2
   ∨ stored_entry env' "solver_state"
     = Some (JSON.text (wrap value (now Examples.browser_v2))))
  ∧ has_window env' = has_window Examples.browser_v2
  ∧ now env' = now Examples.browser_v2
  ∧ (∀ k, k ≠ STORAGE_PREFIX +:+ "solver_state" →
          items (localStorage env') !! k
          = items (localStorage Examples.browser_v2) !! k)
  ∧ (∀ key' d, key' ≠ "solver_state" →
               loadFromStorage env' key' d
               = loadFromStorage Examples.browser_v2 key' d).
Proof.
  intros value env'.
  apply (saveToStorage_own_entry_only Examples.browser_v2 env' "solver_state"
           value).
  vm_compute. reflexivity.
Defined.

(** X4. [removeFromStorage] always returns; afterwards a read of the key
    gives the caller's default, whatever it is, and every other key reads
    as before. *)
Theorem removeFromStorage_forgets (env : Env) (key : string) :
  ∃ env',
    removeFromStorage env key = Ok env'
    ∧ (∀ d, loadFromStorage env' key d = Ok d)
    ∧ (∀ key' d, key' ≠ key →
                 loadFromStorage env' key' d = loadFromStorage env key' d)
    ∧ (∀ k, k ≠ STORAGE_PREFIX +:+ key →
            items (localStorage env') !! k = items (localStorage env) !! k).
Proof.
  unfold removeFromStorage, removeItem.
  destruct (has_window env) eqn:Hw; cbn [negb].
  2:{ exists env. split; [done|]. split; [|done].
      intros d. unfold loadFromStorage. by rewrite Hw. }
  destruct (blocked (localStorage env)) eqn:Hb;
    cbn [mbind outcome_bind try_catch].
  { exists env. split; [done|]. split; [|done].
    intros d. rewrite loadFromStorage_unfold. unfold stored_entry.
    by rewrite Hw, Hb. }
  eexists. split; [done|]. split; [|split].
  - intros d. rewrite loadFromStorage_unfold. unfold stored_entry. simpl.
    by rewrite Hw, lookup_delete_eq.
  - intros key' d Hne. apply load_by_entry. unfold stored_entry. simpl.
    rewrite Hw, Hb. simpl. rewrite lookup_delete_ne; [done|].
    intros Heq. apply Hne. symmetry. by apply prefixed_inj.
  - intros k Hk. simpl. by rewrite lookup_delete_ne.
Qed.

(** ** Clearing the store (lib/persistence.ts) *)

Lemma own_key_prefix k : is_own_key (Some k) = String.prefix STORAGE_PREFIX k.
Proof.
  unfold is_own_key. destruct k as [|c k]; [done|].
  by destruct (String.prefix STORAGE_PREFIX (String c k)).
Qed.

Lemma key_at_lookup ls i :
  blocked ls = false → key_at ls i = Ok (key_list ls !! i).
Proof. unfold key_at. by intros ->. Qed.

Lemma own_keys_loop ls (l pre acc : list string) :
  blocked ls = false →
  key_list ls = pre ++ l →
  for_each (λ keys i,
              key ← key_at ls i;
              Ok (if is_own_key key then keys ++ [default EmptyString key]
                  else keys))
           (seq (length pre) (length l)) acc
  = Ok (acc ++ filter (λ k, String.prefix STORAGE_PREFIX k = true) l).
Proof.
  intros Hb. revert pre acc.
  induction l as [|k l IH]; intros pre acc Hkeys; simpl.
  - by rewrite List.app_nil_r.
  - rewrite (key_at_lookup ls (length pre)) by done. rewrite Hkeys at 1.
    rewrite lookup_app_r, Nat.sub_diag by lia.
    cbn [lookup list_lookup mbind outcome_bind default from_option].
    rewrite own_key_prefix.
    replace (S (length pre)) with (length (pre ++ [k]))
      by (rewrite length_app; simpl; lia).
    rewrite IH by (by rewrite <- List.app_assoc).
    destruct (String.prefix STORAGE_PREFIX k) eqn:Hp.
    + rewrite filter_cons_True by done. by rewrite <- List.app_assoc.
    + rewrite filter_cons_False by congruence. done.
Qed.

Lemma own_keys_filter ls :
  blocked ls = false →
  own_keys ls
  = Ok (filter (λ k, String.prefix STORAGE_PREFIX k = true) (key_list ls)).
Proof.
  intros Hb. unfold own_keys, storage_length. rewrite Hb.
  cbn [mbind outcome_bind].
  apply (own_keys_loop ls (key_list ls) [] [] Hb eq_refl).
Qed.

Lemma removeItem_ok ls k :
  blocked ls = false →
  removeItem ls k
  = Ok {| items := delete k (items ls); quota := quota ls; blocked := false |}.
Proof. unfold removeItem. by intros ->. Qed.

Lemma remove_all ls keys :
  blocked ls = false →
  ∃ ls', for_each removeItem keys ls = Ok ls'
         ∧ blocked ls' = false
         ∧ quota ls' = quota ls
         ∧ ∀ k, items ls' !! k
                = if decide (k ∈ keys) then None else items ls !! k.
Proof.
  revert ls. induction keys as [|key keys IH]; intros ls Hb; simpl.
  - exists ls. by repeat split.
  - rewrite (removeItem_ok ls key Hb). cbn [mbind outcome_bind].
    edestruct IH as (ls' & -> & Hb' & Hq & Hlook); [reflexivity|].
    exists ls'. repeat split; try done. intros k. rewrite Hlook. simpl.
    destruct (decide (k = key)) as [->|Hne].
    + rewrite (decide_True (P := key ∈ key :: keys)) by left.
      case_decide; [done|]. by rewrite lookup_delete_eq.
    + rewrite lookup_delete_ne by done.
      case_decide as Hin.
      * rewrite decide_True; [done|]. by right.
      * rewrite decide_False; [done|].
        by intros [?|?]%elem_of_cons.
Qed.

Lemma key_list_elem ls k : k ∈ key_list ls ↔ is_Some (items ls !! k).
Proof.
  unfold key_list. rewrite list_elem_of_fmap. split.
  - intros ([k' v] & -> & Hin). apply elem_of_map_to_list in Hin. by exists v.
  - intros [v Hv]. exists (k, v). split; [done|]. by apply elem_of_map_to_list.
Qed.

Lemma prefix_prefixed key : String.prefix STORAGE_PREFIX (STORAGE_PREFIX +:+ key) = true.
Proof. cbv -[String.prefix]. simpl. by destruct key. Qed.

Lemma clearAllStorage_accessible env :
  has_window env = true →
  blocked (localStorage env) = false →
  ∃ ls',
    clearAllStorage env = Ok (with_storage env ls')
    ∧ blocked ls' = false
    ∧ ∀ k, items ls' !! k
           = if String.prefix STORAGE_PREFIX k then None
             else items (localStorage env) !! k.
Proof.
  intros Hw Hb. unfold clearAllStorage. rewrite Hw. cbn [negb].
  rewrite own_keys_filter by done. cbn [mbind outcome_bind].
  destruct (remove_all (localStorage env)
              (filter (λ k, String.prefix STORAGE_PREFIX k = true)
                 (key_list (localStorage env))) Hb)
    as (ls' & -> & Hb' & _ & Hlook).
  cbn [mbind outcome_bind try_catch].
  exists ls'. split; [done|]. split; [done|].
  intros k. rewrite Hlook.
  destruct (String.prefix STORAGE_PREFIX k) eqn:Hp.
  - case_decide as Hin; [done|].
    destruct (items (localStorage env) !! k) as [v|] eqn:Hk; [|done].
    exfalso. apply Hin. apply list_elem_of_filter. split; [done|].
    apply key_list_elem. by exists v.
  - rewrite decide_False; [done|].
    intros [Hp' _]%list_elem_of_filter. congruence.
Qed.

(** X5. [clearAllStorage] always returns; afterwards every
    [loadFromStorage] gives the caller's default, and the items of the
    store whose key does not start with the prefix are all as before; in
    a browser whose store can be read, no item whose key starts with the
    prefix is left. *)
Theorem clearAllStorage_clears (env : Env) :
  ∃ env',
    clearAllStorage env = Ok env'
    ∧ (∀ key d, loadFromStorage env' key d = Ok d)
    ∧ (∀ k, String.prefix STORAGE_PREFIX k = false →
            items (localStorage env') !! k = items (localStorage env) !! k)
    ∧ (∀ k, String.prefix STORAGE_PREFIX k = true →
            has_window env = true → blocked (localStorage env) = false →
            items (localStorage env') !! k = None).
Proof.
  destruct (has_window env) eqn:Hw.
  2:{ exists env. unfold clearAllStorage. rewrite Hw. split; [done|].
      split; [|done]. intros key d. unfold loadFromStorage. by rewrite Hw. }
  destruct (blocked (localStorage env)) eqn:Hb.
  { exists env. unfold clearAllStorage, own_keys, storage_length.
    rewrite Hw, Hb. split; [done|]. split; [|done].
    intros key d. rewrite loadFromStorage_unfold. unfold stored_entry.
    by rewrite Hw, Hb. }
  destruct (clearAllStorage_accessible env Hw Hb) as (ls' & -> & Hb' & Hlook).
  eexists. split; [done|]. split; [|split].
  - intros key d. rewrite loadFromStorage_unfold. unfold stored_entry. simpl.
    by rewrite Hw, Hb', Hlook, prefix_prefixed.
  - intros k Hp. simpl. by rewrite Hlook, Hp.
  - intros k Hp _ _. simpl. by rewrite Hlook, Hp.
Qed.

(** ** Usage statistics (lib/persistence.ts) *)

Lemma prefix_split p k :
  String.prefix p k = true → ∃ r, k = p +:+ r.
Proof.
  revert k. induction p as [|c p IH]; intros k.
  - by exists k.
  - destruct k as [|c' k]; simpl; [done|].
    destruct (ascii_dec c c') as [->|]; [|done].
    intros [r ->]%IH. by exists r.
Qed.

Lemma replace_unfold pattern by_ s :
  replace pattern by_ s
  = match JSON.strip_prefix pattern s with
    | Some rest => by_ +:+ rest
    | None =>
        match s with
        | EmptyString => EmptyString
        | String c r => String c (replace pattern by_ r)
        end
    end.
Proof. by destruct s. Qed.

Lemma replace_prefix p r : replace p EmptyString (p +:+ r) = r.
Proof. by rewrite replace_unfold, strip_prefix_app. Qed.

Lemma stats_step_accessible ls acc i :
  blocked ls = false →
  stats_step ls acc i
  = Ok (match key_list ls !! i with
        | Some k =>
            if String.prefix STORAGE_PREFIX k
            then {| totalSize := totalSize acc + (stat_entry ls k).2;
                    stat_items := stat_items acc ++ [stat_entry ls k] |}
            else acc
        | None => acc
        end).
Proof.
  intros Hb. unfold stats_step. rewrite key_at_lookup by done.
  cbn [mbind outcome_bind].
  destruct (key_list ls !! i) as [k|]; [|done].
  rewrite own_key_prefix. destruct (String.prefix STORAGE_PREFIX k); [|done].
  unfold getItem. rewrite Hb. cbn [mbind outcome_bind default from_option].
  unfold stat_entry. simpl. by destruct (items ls !! k) as [[|c v]|].
Qed.

Lemma stats_loop_accessible ls (l pre : list string) acc :
  blocked ls = false →
  key_list ls = pre ++ l →
  let own := filter (λ k, String.prefix STORAGE_PREFIX k = true) l in
  let stats := stats_loop ls (seq (length pre) (length l)) acc in
  totalSize stats = totalSize acc + sum_list (stat_entry ls <$> own).*2
  ∧ stat_items stats = stat_items acc ++ (stat_entry ls <$> own).
Proof.
  intros Hb. revert pre acc.
  induction l as [|k l IH]; intros pre acc Hkeys; simpl.
  - by rewrite Nat.add_0_r, List.app_nil_r.
  - rewrite stats_step_accessible by done. rewrite Hkeys.
    rewrite lookup_app_r, Nat.sub_diag by lia.
    cbn [lookup list_lookup].
    replace (S (length pre)) with (length (pre ++ [k]))
      by (rewrite length_app; simpl; lia).
    destruct (String.prefix STORAGE_PREFIX k) eqn:Hp.
    + rewrite filter_cons_True by done.
      destruct (IH (pre ++ [k])
                  {| totalSize := totalSize acc + (stat_entry ls k).2;
                     stat_items := stat_items acc ++ [stat_entry ls k] |})
        as [Ht Hi]; [by rewrite <- List.app_assoc|].
      split; [etrans; [exact Ht|]|etrans; [exact Hi|]]; csimpl.
      * lia.
      * by rewrite <- List.app_assoc.
    + rewrite filter_cons_False by congruence.
      apply IH. by rewrite <- List.app_assoc.
Qed.

(** X6. The size [getStorageStats] reports is the sum of the sizes it
    lists.  In a browser whose store can be read it lists exactly the
    entries that [loadFromStorage] can name: [key] is listed, with the
    byte length of the prefixed key and the value, if and only if the
    store has an item under the prefixed [key].  After
    [clearAllStorage] nothing is listed. *)
Theorem getStorageStats_lists_own_entries (env : Env) :
  totalSize (getStorageStats env)
  = sum_list (stat_items (getStorageStats env)).*2
  ∧ (has_window env = true → blocked (localStorage env) = false →
     ∀ key size,
       (key, size) ∈ stat_items (getStorageStats env)
       ↔ ∃ v, items (localStorage env) !! (STORAGE_PREFIX +:+ key) = Some v
              ∧ size = blob_size ((STORAGE_PREFIX +:+ key) +:+ v))
  ∧ (∀ env', clearAllStorage env = Ok env' →
             has_window env = true → blocked (localStorage env) = false →
             getStorageStats env' = {| totalSize := 0; stat_items := [] |}).
Proof.
  assert (∀ e, has_window e = true → blocked (localStorage e) = false →
    let own := filter (λ k, String.prefix STORAGE_PREFIX k = true)
                 (key_list (localStorage e)) in
    totalSize (getStorageStats e)
    = sum_list (stat_entry (localStorage e) <$> own).*2
    ∧ stat_items (getStorageStats e) = stat_entry (localStorage e) <$> own)
    as Hacc.
  { intros e Hw Hb. unfold getStorageStats, storage_length.
    rewrite Hw, Hb. cbn [negb].
    apply (stats_loop_accessible (localStorage e) (key_list (localStorage e))
             [] {| totalSize := 0; stat_items := [] |} Hb eq_refl). }
  split; [|split].
  - destruct (has_window env) eqn:Hw.
    2:{ unfold getStorageStats. by rewrite Hw. }
    destruct (blocked (localStorage env)) eqn:Hb.
    { unfold getStorageStats, storage_length. by rewrite Hw, Hb. }
    destruct (Hacc env Hw Hb) as [-> ->]. done.
  - intros Hw Hb key size. destruct (Hacc env Hw Hb) as [_ ->].
    rewrite list_elem_of_fmap. split.
    + intros (k & Heq & [Hp Hin]%list_elem_of_filter).
      apply prefix_split in Hp as [r ->].
      apply key_list_elem in Hin as [v Hv].
      unfold stat_entry in Heq. rewrite replace_prefix, Hv in Heq.
      injection Heq as -> ->. by exists v.
    + intros (v & Hv & ->). exists (STORAGE_PREFIX +:+ key). split.
      * unfold stat_entry. by rewrite replace_prefix, Hv.
      * apply list_elem_of_filter. split; [apply prefix_prefixed|].
        apply key_list_elem. by exists v.
  - intros env' Hclear Hw Hb.
    destruct (clearAllStorage_accessible env Hw Hb) as (ls' & Heq & Hb' & Hlook).
    rewrite Heq in Hclear. apply Ok_inj in Hclear as <-.
    unfold getStorageStats, storage_length. simpl. rewrite Hw, Hb'. cbn [negb].
    pose proof (stats_loop_accessible ls' (key_list ls') []
                  {| totalSize := 0; stat_items := [] |} Hb' eq_refl) as Hs.
    cbv zeta in Hs. simpl in Hs.
    rewrite filter_none in Hs.
    + destruct Hs as [Ht Hi]. simpl in *.
      destruct (stats_loop _ _ _) as [t i]. simpl in *. by subst.
    + intros k [v Hin]%key_list_elem Hp. by rewrite Hlook, Hp in Hin.
Qed.

(** ** The restore effect as a whole (context/GlobalContext.tsx) *)

Lemma restore_channel_returns c persisted updater acc :
  (∃ acc', restore_channel c persisted updater acc = Ok acc')
  ↔ persisted ≠ JNull ∧ persisted ≠ JUndefined.
Proof.
  unfold restore_channel, object_keys.
  destruct persisted; cbn [mbind outcome_bind]; try case_decide;
    split; try (by intros [? ?]); intros _; try (by eexists); done.
Qed.

Lemma loads a key d : ∃ v, loadFromStorage a key d = Ok v.
Proof. rewrite loadFromStorage_unfold. eauto. Qed.

Lemma isHydrated_saves l w :
  isHydrated (foldl (λ w c, auto_save c w) w l) = isHydrated w.
Proof.
  revert w. induction l as [|c l IH]; intros w; simpl; [done|].
  rewrite IH. unfold auto_save, debounce_call. by destruct (isHydrated w) eqn:E.
Qed.

(** X7. In a browser the restore effect runs to its end exactly when
    none of the five snapshots it reads is [null] or [undefined] (an entry
    of the right version whose data is missing makes [Object.keys] throw);
    when it does run to its end, the latch is set. *)
Theorem restore_completes (w : Provider) :
  has_window (env w) = true →
  ((∃ w', restore w = Ok w')
   ↔ ∀ c persisted,
       loadFromStorage (env w) (storage_key c) (JObj []) = Ok persisted →
       persisted ≠ JNull ∧ persisted ≠ JUndefined)
  ∧ (∀ w', restore w = Ok w' → isHydrated w' = true).
Proof.
  intros Hw. unfold restore. rewrite Hw. cbn [negb].
  destruct (loads (env w) (STORAGE_KEYS SOLVER) (JObj [])) as [pS ES].
  destruct (loads (env w) (STORAGE_KEYS QUESTION) (JObj [])) as [pQ EQ].
  destruct (loads (env w) (STORAGE_KEYS RESEARCH) (JObj [])) as [pR ER].
  destruct (loads (env w) (STORAGE_KEYS IDEAGEN) (JObj [])) as [pI EI].
  destruct (loads (env w) (STORAGE_KEYS CHAT) (JObj [])) as [pC EC].
  rewrite ES, EQ, ER, EI, EC. cbn [mbind outcome_bind].
  assert (∀ P : channel → jsval → Prop,
            (∀ c persisted,
               loadFromStorage (env w) (storage_key c) (JObj []) = Ok persisted →
               P c persisted)
            ↔ P Solver pS ∧ P Question pQ ∧ P Research pR ∧ P IdeaGen pI
              ∧ P Chat pC) as Hall.
  { intros P. split.
    - intros H. repeat split; by apply H.
    - intros (HS & HQ & HR & HI & HC) [] p Hp; unfold storage_key in Hp;
        congruence. }
  rewrite (Hall (λ _ p, p ≠ JNull ∧ p ≠ JUndefined)). clear Hall.
  split.
  - split.
    + intros [w' H].
      destruct (restore_channel Solver _ _ _) as [a1|] eqn:E1; [|done].
      cbn [mbind outcome_bind] in H.
      destruct (restore_channel Question _ _ _) as [a2|] eqn:E2; [|done].
      cbn [mbind outcome_bind] in H.
      destruct (restore_channel Research _ _ _) as [a3|] eqn:E3; [|done].
      cbn [mbind outcome_bind] in H.
      destruct (restore_channel IdeaGen _ _ _) as [a4|] eqn:E4; [|done].
      cbn [mbind outcome_bind] in H.
      destruct (restore_channel Chat _ _ _) as [a5|] eqn:E5; [|done].
      split; [|split; [|split; [|split]]];
        eapply restore_channel_returns; eauto.
    + intros (HS & HQ & HR & HI & HC).
      repeat match goal with
             | |- context [restore_channel ?c ?p ?u ?a] =>
                 destruct (proj2 (restore_channel_returns c p u a)) as [? ->];
                 [done|]; cbn [mbind outcome_bind]
             end.
      by eexists.
  - intros w' H.
    destruct (restore_channel Solver _ _ _) as [a1|]; [|done].
    cbn [mbind outcome_bind] in H.
    destruct (restore_channel Question _ _ _) as [a2|]; [|done].
    cbn [mbind outcome_bind] in H.
    destruct (restore_channel Research _ _ _) as [a3|]; [|done].
    cbn [mbind outcome_bind] in H.
    destruct (restore_channel IdeaGen _ _ _) as [a4|]; [|done].
    cbn [mbind outcome_bind] in H.
    destruct (restore_channel Chat _ _ _) as [a5|]; [|done].
    cbn [mbind outcome_bind] in H. apply Ok_inj in H as <-.
    rewrite isHydrated_saves. done.
Qed.

Lemma restore_completes_witness :
  (∃ w', restore (initial Examples.browser_v2) = Ok w')
  ∧ ¬ (∃ w', restore (initial Examples.browser_null) = Ok w').
Proof.
  split.
  - apply (proj1 (restore_completes (initial Examples.browser_v2) eq_refl)).
    intros c persisted Hp.
    assert (persisted = JObj []) as ->; [|done].
    destruct c; vm_compute in Hp; congruence.
  - intros Hex.
    destruct (proj1 (proj1 (restore_completes (initial Examples.browser_null)
                              eq_refl)) Hex Chat JNull) as [Hnull _].
    + vm_compute. reflexivity.
    + done.
Defined.

(** ** A saved state across a reload (context/GlobalContext.tsx) *)

Lemma wrap_serializable v t :
  JSON.serializable v = true → JSON.serializable (wrap v t) = true.
Proof. intros Hv. simpl. by rewrite Hv. Qed.

Lemma default_excluded_status :
  obj_get (default_state Research) "status" = JStr "idle"
  ∧ includes (exclude_fields Research) "status" = true.
Proof. done. Qed.

(** X8. What the save path of a channel writes is what the next page load
    restores: when the store accepts the write and JSON renders the saved
    object faithfully, then after a reload and the restore effect every
    field of the channel that is not excluded and was not [undefined] has
    the value it had when it was saved, and every other field has the
    value of the default state. *)
Theorem saved_state_survives_reload (c : channel) (state : props)
    (w w1 w2 : Provider) (ls : Storage) :
  isHydrated w = true →
  has_window (env w) = true →
  setItem (localStorage (env w)) (STORAGE_PREFIX +:+ storage_key c)
    (JSON.text (wrap (JObj (persistState state (exclude_fields c)))
                  (now (env w)))) = Ok ls →
  JSON.serializable (JObj (persistState state (exclude_fields c))) = true →
  save_state c state w = Ok w1 →
  restore (initial (env w1)) = Ok w2 →
  ∀ k, obj_get (states w2 c) k
       = if includes (exclude_fields c) k
            || is_undefined (obj_get state k)
         then obj_get (default_state c) k
         else obj_get state k.
Proof.
  intros Hh Hw Hset Hser Hsave Hrestore k.
  set (P := persistState state (exclude_fields c)) in *.
  assert (env w1 = with_storage (env w) ls) as Henv.
  { unfold save_state in Hsave. rewrite Hh in Hsave. cbn [negb] in Hsave.
    unfold saveToStorage in Hsave. rewrite Hw in Hsave. cbn [negb] in Hsave.
    cbv zeta in Hsave. fold P in Hsave.
    rewrite stringify_wrap, Hset in Hsave.
    cbn [mbind outcome_bind try_catch] in Hsave.
    by apply Ok_inj in Hsave as <-. }
  assert (loadFromStorage (env w1) (storage_key c) (JObj []) = Ok (JObj P))
    as Hload.
  { rewrite loadFromStorage_unfold, Henv. unfold stored_entry. simpl.
    rewrite Hw, (setItem_not_blocked _ _ _ _ Hset). simpl.
    pose proof (getItem_setItem _ _ _ _ Hset) as Hget.
    unfold getItem in Hget. rewrite (setItem_not_blocked _ _ _ _ Hset) in Hget.
    apply Ok_inj in Hget. rewrite Hget, parse_text; [done|].
    by apply wrap_serializable. }
  destruct (restore_states (initial (env w1)) w2 c Hrestore) as (p & Hp & ->).
  { simpl. by rewrite Henv. }
  simpl in Hp. rewrite Hload in Hp. apply Ok_inj in Hp as <-.
  assert (∀ k, obj_get P k
               = if includes (exclude_fields c) k then JUndefined
                 else obj_get state k) as HP.
  { intros k'. apply persistState_get. }
  unfold restored_state. simpl own_props. simpl states.
  case_decide as Hlen.
  - assert (∀ k, obj_get (mergeWithDefaults (JObj P) (default_state c)
                            (exclude_fields c)) k
                 = if includes (exclude_fields c) k
                      || is_undefined (obj_get state k)
                   then obj_get (default_state c) k
                   else obj_get state k) as Hm.
    { intros k'. rewrite mergeWithDefaults_get by done. simpl own_props.
      rewrite HP. by destruct (includes (exclude_fields c) k'). }
    destruct c; try apply Hm.
    rewrite Hm. destruct default_excluded_status as [Hd He].
    rewrite He. cbn [orb]. rewrite Hd. simpl. apply Hm.
  - assert (P = []) as HPnil.
    { destruct P; [done|]. simpl in Hlen. lia. }
    specialize (HP k). rewrite HPnil in HP. simpl in HP.
    destruct (includes (exclude_fields c) k); [done|].
    by rewrite <- HP.
Qed.

Lemma saved_state_survives_reload_witness :
  let w := after (initial Examples.browser) [Restore; StartSolver "q" "kb"] in
  let state := states w Solver in
  let w1 := value_or w (save_state Solver state w) in
  let w2 := after (initial (env w1)) [Restore] in
  obj_get (states w2 Solver) "question" = JStr "q"
  ∧ obj_get (states w2 Solver) "isSolving" = JBool false
  ∧ ∀ k, obj_get (states w2 Solver) k
         = if includes (exclude_fields Solver) k
              || is_undefined (obj_get state k)
           then obj_get (default_state Solver) k
           else obj_get state k.
Proof.
  intros w state w1 w2.
  split; [vm_compute; reflexivity|]. split; [vm_compute; reflexivity|].
  eapply (saved_state_survives_reload Solver state w w1 w2).
  - vm_compute. reflexivity.
  - vm_compute. reflexivity.
  - vm_compute. reflexivity.
  - vm_compute. reflexivity.
  - vm_compute. reflexivity.
  - vm_compute. reflexivity.
Defined.

(** ** Stopping and starting over (context/GlobalContext.tsx) *)

Lemma live_on_closed c w w' :
  one_transport c w = true →
  sockets w' = sockets (close_current c w) →
  live_on c w' = [].
Proof.
  intros Hone Hso.
  destruct (close_current_fields c w) as (_ & _ & Hlen & Hlook).
  unfold live_on. rewrite Hso, Hlen. apply filter_none.
  intros k Hk%elem_of_seq Hp. rewrite Hlook in Hp.
  destruct (sockets w !! k) as [s|] eqn:Hs; [|done]. simpl in Hp.
  apply Is_true_true in Hp. case_decide as Hcur.
  - unfold live_for in Hp. by rewrite closing_not_live in Hp.
  - apply Hcur. by apply (one_transport_current c w k s).
Qed.

(** What [stopSolver], [newSolverSession] and [newChatSession] do to the
    current socket: close it and forget it. *)
Lemma drop_current c w :
  let w0 :=
    match wsRefs w c with
    | Some id => set_ref c None (ws_close id w)
    | None => w
    end in
  sockets w0 = sockets (close_current c w)
  ∧ wsRefs w0 c = None
  ∧ states w0 = states w
  ∧ solverSessionIdRef w0 = solverSessionIdRef w
  ∧ sessionIdRef w0 = sessionIdRef w
  ∧ length (sockets w0) = length (sockets w).
Proof.
  unfold close_current. destruct (wsRefs w c) as [cur|] eqn:E; simpl.
  - rewrite length_alter. repeat split.
    unfold insert, fn_insert. by rewrite decide_True.
  - done.
Qed.

(** X9. [stopSolver] leaves the solver with no live socket and no current
    one, not solving, with one more log entry; every other field of the
    state, and the session the next question continues, are untouched. *)
Theorem stopSolver_stops (w : Provider) (logs : list jsval) :
  one_transport Solver w = true →
  obj_get (states w Solver) "logs" = JArr logs →
  ∃ w',
    stopSolver w = Ok w'
    ∧ live_on Solver w' = []
    ∧ wsRefs w' Solver = None
    ∧ obj_get (states w' Solver) "isSolving" = JBool false
    ∧ obj_get (states w' Solver) "logs"
      = JArr (logs ++ [log_entry "system" "Solver stopped by user."])
    ∧ (∀ k, k ≠ "isSolving" → k ≠ "logs" →
            obj_get (states w' Solver) k = obj_get (states w Solver) k)
    ∧ solverSessionIdRef w' = solverSessionIdRef w.
Proof.
  intros Hone Hlogs. unfold stopSolver.
  destruct (drop_current Solver w) as (Hso0 & Hrf0 & Hst0 & Hsid0 & _).
  cbv zeta in *.
  set (w0 := match wsRefs w Solver with
             | Some id => set_ref Solver None (ws_close id w)
             | None => w
             end) in *.
  destruct (setState_ok Solver
              (λ prev, Ok (obj_with prev [("isSolving", JBool false)]))
              w0 _ eq_refl)
    as (w1 & -> & Hst1 & Hso1 & Hrf1 & Hsid1 & _).
  cbn [mbind outcome_bind].
  destruct (add_log_ok Solver (log_entry "system" "Solver stopped by user.")
              w1 logs)
    as (w2 & -> & Hst2 & Hso2 & Hrf2 & Hsid2 & _).
  { rewrite Hst1, fn_lookup_insert_eq, Hst0. unfold obj_with. simpl.
    by rewrite obj_get_set_ne. }
  exists w2. split; [done|].
  split; [apply (live_on_closed Solver w); [done|congruence]|].
  split; [congruence|].
  rewrite Hst2, fn_lookup_insert_eq, Hst1, fn_lookup_insert_eq, Hst0.
  unfold obj_with. simpl. repeat split.
  - by rewrite obj_get_set_ne, obj_get_set_eq.
  - by rewrite obj_get_set_eq.
  - intros k Hk1 Hk2. by rewrite !obj_get_set_ne.
  - congruence.
Qed.

Lemma stopSolver_stops_witness :
  let w := Examples.solver_in_session in
  ∃ w',
    stopSolver w = Ok w'
    ∧ live_on Solver w' = []
    ∧ wsRefs w' Solver = None
    ∧ obj_get (states w' Solver) "isSolving" = JBool false
    ∧ obj_get (states w' Solver) "logs"
      = JArr ([log_entry "system" "Initializing connection..."]
              ++ [log_entry "system" "Solver stopped by user."])
    ∧ (∀ k, k ≠ "isSolving" → k ≠ "logs" →
            obj_get (states w' Solver) k = obj_get (states w Solver) k)
    ∧ solverSessionIdRef w' = solverSessionIdRef w.
Proof.
  intros w. apply (stopSolver_stops w).
  - vm_compute. reflexivity.
  - vm_compute. reflexivity.
Defined.

(** Opening the socket of a solver or chat session sends its frame. *)
Lemma solver_opens id s question kb logs w :
  sockets w !! id = Some s →
  readyState s = CONNECTING →
  handlers s = SolverWs question kb →
  obj_get (states w Solver) "logs" = JArr logs →
  ∃ w',
    deliver id WsOpen w = Some (Ok w')
    ∧ sent <$> sockets w' !! id
      = Some (sent s
              ++ [JSON.text (solver_frame question kb (solverSessionIdRef w))])
    ∧ solverSessionIdRef w' = solverSessionIdRef w
    ∧ wsRefs w' = wsRefs w
    ∧ ∀ k, k ≠ "logs" →
           obj_get (states w' Solver) k = obj_get (states w Solver) k.
Proof.
  intros Hs Hc Hh Hl.
  destruct (deliver_open id s w Hs Hc) as [-> Hs0].
  rewrite Hh. cbn [run_onopen]. unfold solver_onopen.
  set (w0 := set_socket_state id OPEN w) in *.
  change (solverSessionIdRef w0) with (solverSessionIdRef w).
  set (data := solver_frame question kb (solverSessionIdRef w)).
  destruct (ws_send_open id _ (JSON.text data) w0 Hs0 eq_refl)
    as (w1 & Hsend & Hsent & Hst1 & _).
  assert (JSON.stringify data = Some (JSON.text data)) as -> by done.
  cbn [string_arg]. rewrite Hsend. cbn [mbind outcome_bind].
  assert (solverSessionIdRef w1 = solverSessionIdRef w ∧ wsRefs w1 = wsRefs w)
    as [Hsid1 Hrf1].
  { unfold ws_send in Hsend. rewrite Hs0 in Hsend. simpl in Hsend.
    by apply Ok_inj in Hsend as <-. }
  destruct (add_log_ok Solver
              (log_entry "system" "Initializing connection...") w1 logs)
    as (w2 & Hlog & Hst2 & Hso2 & Hrf2 & Hsid2 & _).
  { by rewrite Hst1. }
  exists w2. rewrite Hlog, Hso2. split; [done|]. split; [done|].
  split; [congruence|]. split; [congruence|].
  intros k Hk. rewrite Hst2, fn_lookup_insert_eq, Hst1.
  unfold obj_with. simpl. by rewrite obj_get_set_ne.
Qed.

Lemma chat_opens id s message chatState am history w :
  sockets w !! id = Some s →
  readyState s = CONNECTING →
  handlers s = ChatWs message chatState am →
  chat_history chatState = Ok history →
  ∃ w',
    deliver id WsOpen w = Some (Ok w')
    ∧ sent <$> sockets w' !! id
      = Some (sent s
              ++ [JSON.text (chat_frame message (sessionIdRef w) history
                               chatState)])
    ∧ states w' = states w.
Proof.
  intros Hs Hc Hh Hhist.
  destruct (deliver_open id s w Hs Hc) as [-> Hs0].
  rewrite Hh. cbn [run_onopen]. unfold chat_onopen. rewrite Hhist.
  cbn [mbind outcome_bind].
  set (w0 := set_socket_state id OPEN w) in *.
  change (sessionIdRef w0) with (sessionIdRef w).
  set (data := chat_frame message (sessionIdRef w) history chatState).
  destruct (ws_send_open id _ (JSON.text data) w0 Hs0 eq_refl)
    as (w1 & Hsend & Hsent & Hst1 & _).
  assert (JSON.stringify data = Some (JSON.text data)) as -> by done.
  cbn [string_arg]. exists w1. by rewrite Hsend.
Qed.

(** The shape of a start, with the session refs it leaves alone. *)
Lemma start_keeps_session c u h updater w next :
  updater (states w c) = Ok next →
  ∃ w',
    (w1 ← setState c updater (close_current c w);
     Ok (set_ref c (Some (length (sockets w1))) (new_socket u h w1))) = Ok w'
    ∧ states w' = <[c := next]> (states w)
    ∧ wsRefs w' = <[c := Some (length (sockets w))]> (wsRefs w)
    ∧ sockets w'
      = sockets (close_current c w)
        ++ [{| url := u; readyState := CONNECTING; sent := []; handlers := h |}]
    ∧ solverSessionIdRef w' = solverSessionIdRef w
    ∧ sessionIdRef w' = sessionIdRef w.
Proof.
  intros Hu.
  destruct (close_current_fields c w) as (Hst & Hrf & Hlen & _).
  assert (solverSessionIdRef (close_current c w) = solverSessionIdRef w
          ∧ sessionIdRef (close_current c w) = sessionIdRef w) as [Hs1 Hs2].
  { unfold close_current. by destruct (wsRefs w c). }
  destruct (setState_ok c updater (close_current c w) next)
    as (w1 & -> & Hst1 & Hso1 & Hrf1 & Hsid1 & Hsid2); [by rewrite Hst|].
  eexists. split; [done|]. simpl.
  by rewrite Hst1, Hso1, Hrf1, Hst, Hrf, Hlen, Hsid1, Hsid2, Hs1, Hs2.
Qed.

(** The state update of [startSolver] and the socket it opens. *)
Lemma startSolver_ok question kb messages w :
  obj_get (states w Solver) "messages" = JArr messages →
  ∃ w',
    startSolver question kb w = Ok w'
    ∧ sockets w'
      = sockets (close_current Solver w)
        ++ [{| url := "/api/v1/solve"; readyState := CONNECTING; sent := [];
               handlers := SolverWs question kb |}]
    ∧ wsRefs w' = <[Solver := Some (length (sockets w))]> (wsRefs w)
    ∧ solverSessionIdRef w' = solverSessionIdRef w
    ∧ obj_get (states w' Solver) "logs" = JArr []
    ∧ obj_get (states w' Solver) "isSolving" = JBool true
    ∧ obj_get (states w' Solver) "sessionId"
      = obj_get (states w Solver) "sessionId"
    ∧ obj_get (states w' Solver) "messages"
      = JArr (messages
              ++ [JObj [("role", JStr "user"); ("content", JStr question)]]).
Proof.
  intros Hm. unfold startSolver.
  edestruct (start_keeps_session Solver "/api/v1/solve" (SolverWs question kb))
    as (w' & -> & Hst & Hrf & Hso & Hsid & _);
    [cbv beta; rewrite Hm; reflexivity|].
  exists w'. split; [done|]. split; [done|]. split; [done|].
  split; [done|]. rewrite Hst, fn_lookup_insert_eq.
  unfold obj_with. cbn [foldl]. by rewrite !obj_get_set.
Qed.

Lemma lookup_new_socket (l : list WebSocket) s : (l ++ [s]) !! length l = Some s.
Proof. by rewrite lookup_app_r, Nat.sub_diag by lia. Qed.

(** X10. After [newSolverSession] the next question starts a fresh
    session, whatever the solver held before: the state is the default
    one with the selected knowledge base kept, and the frame sent when the
    new socket opens has [session_id] null. *)
Theorem newSolverSession_starts_fresh (w : Provider) (question kb : string) :
  ∃ w1 w2 w3,
    newSolverSession w = Ok w1
    ∧ states w1 Solver
      = obj_with DEFAULT_SOLVER_STATE
          [("selectedKb", obj_get (states w Solver) "selectedKb")]
    ∧ wsRefs w1 Solver = None
    ∧ startSolver question kb w1 = Ok w2
    ∧ deliver (length (sockets w)) WsOpen w2 = Some (Ok w3)
    ∧ sent <$> sockets w3 !! length (sockets w)
      = Some [JSON.text (solver_frame question kb JNull)]
    ∧ obj_get (states w3 Solver) "sessionId" = JNull
    ∧ obj_get (states w3 Solver) "messages"
      = JArr [JObj [("role", JStr "user"); ("content", JStr question)]].
Proof.
  unfold newSolverSession.
  destruct (drop_current Solver w) as (Hso0 & Hrf0 & Hst0 & _ & _ & Hlen0).
  cbv zeta in *.
  set (w0 := match wsRefs w Solver with
             | Some id => set_ref Solver None (ws_close id w)
             | None => w
             end) in *.
  set (fresh := obj_with DEFAULT_SOLVER_STATE
                  [("selectedKb", obj_get (states w Solver) "selectedKb")]).
  destruct (setState_ok Solver (λ _, Ok fresh)
              (with_solverSessionIdRef JNull w0) fresh eq_refl)
    as (w1 & -> & Hst1 & Hso1 & Hrf1 & Hsid1 & _).
  assert (states w1 Solver = fresh) as Hfresh
    by (by rewrite Hst1, fn_lookup_insert_eq).
  destruct (startSolver_ok question kb [] w1)
    as (w2 & Hstart & Hso2 & Hrf2 & Hsid2 & Hlogs2 & _ & Hsess2 & Hmsg2).
  { by rewrite Hfresh. }
  assert (length (sockets (close_current Solver w1)) = length (sockets w))
    as Hlen.
  { destruct (close_current_fields Solver w1) as (_ & _ & -> & _).
    rewrite Hso1. simpl. done. }
  destruct (solver_opens (length (sockets w))
              {| url := "/api/v1/solve"; readyState := CONNECTING; sent := [];
                 handlers := SolverWs question kb |} question kb [] w2)
    as (w3 & Hopen & Hsent & _ & _ & Hkeep); [|done|done|done|].
  { rewrite Hso2, <- Hlen. apply lookup_new_socket. }
  exists w1, w2, w3. split; [done|]. split; [done|].
  split; [by rewrite Hrf1|].
  split; [done|]. split; [done|]. split.
  { rewrite Hsent, Hsid2, Hsid1. done. }
  rewrite !Hkeep by done. rewrite Hsess2, Hmsg2, Hfresh. done.
Qed.

Lemma sendChatMessage_ok message messages w :
  truthy (JStr (trim message)) = true →
  truthy (obj_get (states w Chat) "isLoading") = false →
  obj_get (states w Chat) "messages" = JArr messages →
  ∃ w',
    sendChatMessage message w = Ok w'
    ∧ sockets w'
      = sockets (close_current Chat w)
        ++ [{| url := "/api/v1/chat"; readyState := CONNECTING; sent := [];
               handlers := ChatWs message (states w Chat) EmptyString |}]
    ∧ wsRefs w' = <[Chat := Some (length (sockets w))]> (wsRefs w)
    ∧ sessionIdRef w' = sessionIdRef w
    ∧ states w' Chat
      = obj_with (states w Chat)
          [("isLoading", JBool true); ("currentStage", JStr "connecting");
           ("messages",
            JArr (messages
                  ++ [JObj [("role", JStr "user"); ("content", JStr message)]]))].
Proof.
  intros Hm Hl Hmsgs. unfold sendChatMessage. rewrite Hm, Hl. cbn [negb orb].
  destruct (setState_ok Chat
              (λ prev,
                 messages ← spread (obj_get prev "messages");
                 Ok (obj_with prev
                       [("isLoading", JBool true);
                        ("currentStage", JStr "connecting");
                        ("messages",
                         JArr (messages ++
                               [JObj [("role", JStr "user");
                                      ("content", JStr message)]]))])) w
              (obj_with (states w Chat)
                 [("isLoading", JBool true); ("currentStage", JStr "connecting");
                  ("messages",
                   JArr (messages
                         ++ [JObj [("role", JStr "user");
                                   ("content", JStr message)]]))]))
    as (w1 & -> & Hst1 & Hso1 & Hrf1 & _ & Hsid1).
  { by rewrite Hmsgs. }
  cbn [mbind outcome_bind].
  destruct (close_current_fields Chat w1) as (Hst2 & Hrf2 & Hlen2 & _).
  assert (sessionIdRef (close_current Chat w1) = sessionIdRef w1) as Hsid2.
  { unfold close_current. by destruct (wsRefs w1 Chat). }
  assert (sockets (close_current Chat w1) = sockets (close_current Chat w))
    as Hso2.
  { unfold close_current. rewrite Hrf1. destruct (wsRefs w Chat); simpl;
      by rewrite Hso1. }
  eexists. split; [done|]. simpl.
  rewrite Hlen2, Hso2, Hrf2, Hrf1, Hso1, Hsid2, Hsid1, Hst2, Hst1.
  by rewrite fn_lookup_insert_eq.
Qed.

(** A chat with an empty transcript, no session and nothing loading sends
    a first frame without session and without history. *)
Lemma fresh_chat_sends message w :
  truthy (JStr (trim message)) = true →
  truthy (obj_get (states w Chat) "isLoading") = false →
  obj_get (states w Chat) "messages" = JArr [] →
  sessionIdRef w = JNull →
  ∃ w2 w3,
    sendChatMessage message w = Ok w2
    ∧ deliver (length (sockets w)) WsOpen w2 = Some (Ok w3)
    ∧ sent <$> sockets w3 !! length (sockets w)
      = Some [JSON.text (chat_frame message JNull (JArr []) (states w Chat))]
    ∧ obj_get (states w3 Chat) "messages"
      = JArr [JObj [("role", JStr "user"); ("content", JStr message)]].
Proof.
  intros Hm Hl Hmsgs Hsid.
  destruct (sendChatMessage_ok message [] w Hm Hl Hmsgs)
    as (w2 & Hsend & Hso2 & Hrf2 & Hsid2 & Hst2).
  destruct (close_current_fields Chat w) as (_ & _ & Hlen & _).
  destruct (chat_opens (length (sockets w))
              {| url := "/api/v1/chat"; readyState := CONNECTING; sent := [];
                 handlers := ChatWs message (states w Chat) EmptyString |}
              message (states w Chat) EmptyString (JArr []) w2)
    as (w3 & Hopen & Hsent & Hst3); [|done|done| |].
  { rewrite Hso2, <- Hlen. apply lookup_new_socket. }
  { unfold chat_history. by rewrite Hmsgs. }
  exists w2, w3. split; [done|]. split; [done|].
  split; [by rewrite Hsent, Hsid2, Hsid|].
  rewrite Hst3, Hst2. unfold obj_with. cbn [foldl]. by rewrite !obj_get_set.
Qed.

(** X11. After [newChatSession] the next message starts a fresh
    conversation, whatever the chat held before: the frame sent when the
    new socket opens has the message, [session_id] null and an empty
    history, and keeps the knowledge base and the two switches of the
    state.  The same holds after [clearChatHistory] when no answer is
    loading. *)
Theorem newChatSession_starts_fresh (w : Provider) (message : string) :
  truthy (JStr (trim message)) = true →
  (∃ w1 w2 w3,
     newChatSession w = Ok w1
     ∧ sendChatMessage message w1 = Ok w2
     ∧ deliver (length (sockets w)) WsOpen w2 = Some (Ok w3)
     ∧ sent <$> sockets w3 !! length (sockets w)
       = Some [JSON.text
                 (JObj [("message", JStr message); ("session_id", JNull);
                        ("history", JArr []);
                        ("kb_name", obj_get (states w Chat) "selectedKb");
                        ("enable_rag", obj_get (states w Chat) "enableRag");
                        ("enable_web_search",
                         obj_get (states w Chat) "enableWebSearch")])]
     ∧ obj_get (states w3 Chat) "messages"
       = JArr [JObj [("role", JStr "user"); ("content", JStr message)]])
  ∧ (truthy (obj_get (states w Chat) "isLoading") = false →
     ∃ w1 w2 w3,
       clearChatHistory w = Ok w1
       ∧ sendChatMessage message w1 = Ok w2
       ∧ deliver (length (sockets w)) WsOpen w2 = Some (Ok w3)
       ∧ sent <$> sockets w3 !! length (sockets w)
         = Some [JSON.text
                   (JObj [("message", JStr message); ("session_id", JNull);
                          ("history", JArr []);
                          ("kb_name", obj_get (states w Chat) "selectedKb");
                          ("enable_rag", obj_get (states w Chat) "enableRag");
                          ("enable_web_search",
                           obj_get (states w Chat) "enableWebSearch")])]
       ∧ obj_get (states w3 Chat) "messages"
         = JArr [JObj [("role", JStr "user"); ("content", JStr message)]]).
Proof.
  intros Hm. split.
  - unfold newChatSession.
    destruct (drop_current Chat w) as (Hso0 & Hrf0 & Hst0 & _ & _ & Hlen0).
    cbv zeta in *.
    set (w0 := match wsRefs w Chat with
               | Some id => set_ref Chat None (ws_close id w)
               | None => w
               end) in *.
    edestruct (setState_ok Chat
                (λ prev,
                   Ok (obj_with prev
                         [("sessionId", JNull); ("messages", JArr []);
                          ("isLoading", JBool false); ("currentStage", JNull)]))
                (with_sessionIdRef JNull w0))
      as (w1 & -> & Hst1 & Hso1 & Hrf1 & _ & Hsid1); [reflexivity|].
    assert (states w1 Chat
            = obj_with (states w Chat)
                [("sessionId", JNull); ("messages", JArr []);
                 ("isLoading", JBool false); ("currentStage", JNull)])
      as Hfresh.
    { rewrite Hst1, fn_lookup_insert_eq. simpl. by rewrite Hst0. }
    assert (length (sockets w1) = length (sockets w)) as Hlen
      by (by rewrite Hso1).
    destruct (fresh_chat_sends message w1 Hm) as (w2 & w3 & H2 & H3 & H4 & H5).
    { rewrite Hfresh. unfold obj_with. cbn [foldl]. by rewrite !obj_get_set. }
    { rewrite Hfresh. unfold obj_with. cbn [foldl]. by rewrite !obj_get_set. }
    { by rewrite Hsid1. }
    rewrite Hlen in *. exists w1, w2, w3. repeat split; try done.
    rewrite H4. unfold chat_frame. rewrite Hfresh.
    unfold obj_with. cbn [foldl]. by rewrite !obj_get_set.
  - intros Hl. unfold clearChatHistory.
    edestruct (setState_ok Chat
                (λ prev,
                   Ok (obj_with prev
                         [("sessionId", JNull); ("messages", JArr []);
                          ("currentStage", JNull)]))
                (with_sessionIdRef JNull w))
      as (w1 & -> & Hst1 & Hso1 & Hrf1 & _ & Hsid1); [reflexivity|].
    assert (states w1 Chat
            = obj_with (states w Chat)
                [("sessionId", JNull); ("messages", JArr []);
                 ("currentStage", JNull)])
      as Hfresh.
    { by rewrite Hst1, fn_lookup_insert_eq. }
    assert (length (sockets w1) = length (sockets w)) as Hlen
      by (by rewrite Hso1).
    destruct (fresh_chat_sends message w1 Hm) as (w2 & w3 & H2 & H3 & H4 & H5).
    { rewrite Hfresh. unfold obj_with. cbn [foldl]. by rewrite !obj_get_set. }
    { rewrite Hfresh. unfold obj_with. cbn [foldl]. by rewrite !obj_get_set. }
    { by rewrite Hsid1. }
    rewrite Hlen in *. exists w1, w2, w3. repeat split; try done.
    rewrite H4. unfold chat_frame. rewrite Hfresh.
    unfold obj_with. cbn [foldl]. by rewrite !obj_get_set.
Qed.

Lemma newChatSession_starts_fresh_witness :
  let w := Examples.chat_in_session in
  sessionIdRef w = JStr "s1"
  ∧ ∃ w1 w2 w3,
      newChatSession w = Ok w1
      ∧ sendChatMessage "again" w1 = Ok w2
      ∧ deliver (length (sockets w)) WsOpen w2 = Some (Ok w3)
      ∧ sent <$> sockets w3 !! length (sockets w)
        = Some [JSON.text
                  (JObj [("message", JStr "again"); ("session_id", JNull);
                         ("history", JArr []);
                         ("kb_name", obj_get (states w Chat) "selectedKb");
                         ("enable_rag", obj_get (states w Chat) "enableRag");
                         ("enable_web_search",
                          obj_get (states w Chat) "enableWebSearch")])]
      ∧ obj_get (states w3 Chat) "messages"
        = JArr [JObj [("role", JStr "user"); ("content", JStr "again")]].
Proof.
  intros w. split; [vm_compute; reflexivity|].
  apply (proj1 (newChatSession_starts_fresh w "again" eq_refl)).
Defined.

(** ** Sessions named by the server (context/GlobalContext.tsx) *)

Lemma parse_session_frame sid :
  JSON.parse (frame "session" [("session_id", JStr sid)])
  = Ok (JObj [("type", JStr "session"); ("session_id", JStr sid)]).
Proof. by apply parse_frame. Qed.

(** X12. When the server names the session on an open solver socket, the
    ref and the state both take the name, and the frame of the next
    question carries it: the conversation continues in that session. *)
Theorem solver_session_continues (w : Provider) (id : nat) (s : WebSocket)
    (question kb sid question' kb' : string) (messages : list jsval) :
  sockets w !! id = Some s →
  readyState s = OPEN →
  handlers s = SolverWs question kb →
  obj_get (states w Solver) "messages" = JArr messages →
  ∃ w1 w2 w3,
    deliver id (WsMessage (frame "session" [("session_id", JStr sid)])) w
    = Some (Ok w1)
    ∧ solverSessionIdRef w1 = JStr sid
    ∧ obj_get (states w1 Solver) "sessionId" = JStr sid
    ∧ startSolver question' kb' w1 = Ok w2
    ∧ deliver (length (sockets w)) WsOpen w2 = Some (Ok w3)
    ∧ sent <$> sockets w3 !! length (sockets w)
      = Some [JSON.text (solver_frame question' kb' (JStr sid))]
    ∧ obj_get (states w3 Solver) "sessionId" = JStr sid.
Proof.
  intros Hs Hopen Hh Hm.
  destruct (setState_ok Solver
              (λ prev, Ok (obj_with prev [("sessionId", JStr sid)]))
              (with_solverSessionIdRef (JStr sid) w) _ eq_refl)
    as (w1 & Hset & Hst1 & Hso1 & Hrf1 & Hsid1 & _).
  assert (deliver id (WsMessage (frame "session" [("session_id", JStr sid)])) w
          = Some (Ok w1)) as Hmsg.
  { unfold deliver. rewrite Hs, Hopen. unfold run_onmessage. rewrite Hh.
    unfold solver_onmessage. rewrite parse_session_frame.
    cbn [mbind outcome_bind get_prop get_opt own_props obj_get String.eqb
         Ascii.eqb Bool.eqb is_str].
    by rewrite Hset. }
  assert (obj_get (states w1 Solver) "sessionId" = JStr sid) as Hsess1.
  { rewrite Hst1, fn_lookup_insert_eq. unfold obj_with. cbn [foldl].
    by rewrite obj_get_set_eq. }
  destruct (startSolver_ok question' kb' messages w1)
    as (w2 & Hstart & Hso2 & Hrf2 & Hsid2 & Hlogs2 & _ & Hsess2 & _).
  { rewrite Hst1, fn_lookup_insert_eq. unfold obj_with. cbn [foldl].
    by rewrite obj_get_set_ne. }
  assert (length (sockets (close_current Solver w1)) = length (sockets w))
    as Hlen.
  { destruct (close_current_fields Solver w1) as (_ & _ & -> & _).
    by rewrite Hso1. }
  destruct (solver_opens (length (sockets w))
              {| url := "/api/v1/solve"; readyState := CONNECTING; sent := [];
                 handlers := SolverWs question' kb' |} question' kb' [] w2)
    as (w3 & Hopen3 & Hsent & _ & _ & Hkeep); [|done|done|done|].
  { rewrite Hso2, <- Hlen. apply lookup_new_socket. }
  exists w1, w2, w3. split; [done|]. split; [by rewrite Hsid1|].
  split; [done|]. split; [done|]. split; [done|]. split.
  - by rewrite Hsent, Hsid2, Hsid1.
  - rewrite Hkeep by done. by rewrite Hsess2.
Qed.

Lemma solver_session_continues_witness :
  let w := after (initial Examples.browser)
             [Restore; StartSolver "q" "kb"; Deliver 0 WsOpen] in
  ∃ w1 w2 w3,
    deliver 0 (WsMessage (frame "session" [("session_id", JStr "s1")])) w
    = Some (Ok w1)
    ∧ solverSessionIdRef w1 = JStr "s1"
    ∧ obj_get (states w1 Solver) "sessionId" = JStr "s1"
    ∧ startSolver "q2" "kb" w1 = Ok w2
    ∧ deliver (length (sockets w)) WsOpen w2 = Some (Ok w3)
    ∧ sent <$> sockets w3 !! length (sockets w)
      = Some [JSON.text (solver_frame "q2" "kb" (JStr "s1"))]
    ∧ obj_get (states w3 Solver) "sessionId" = JStr "s1".
Proof.
  intros w.
  eapply (solver_session_continues w 0 _ "q" "kb" "s1" "q2" "kb").
  - vm_compute. reflexivity.
  - reflexivity.
  - reflexivity.
  - vm_compute. reflexivity.
Defined.

Lemma history_mapM messages :
  Forall (λ m, m ≠ JNull ∧ m ≠ JUndefined) messages →
  mapM (λ msg : jsval,
          role ← get_prop msg "role";
          Ok (JObj [("role", role); ("content", get_opt msg "content")]))
       messages
  = Ok (history_entry <$> messages).
Proof.
  induction 1 as [|m l [Hn Hu] _ IH]; [done|].
  cbn [mapM]. rewrite get_prop_defined by done. cbn [mbind outcome_bind].
  by rewrite IH.
Qed.

Lemma chat_history_entries chatState messages :
  obj_get chatState "messages" = JArr messages →
  Forall (λ m, m ≠ JNull ∧ m ≠ JUndefined) messages →
  chat_history chatState = Ok (JArr (history_entry <$> messages)).
Proof.
  intros Hm Hall. unfold chat_history. rewrite Hm.
  by rewrite (history_mapM messages Hall).
Qed.

Lemma parse_result_frame answer :
  JSON.parse (frame "result" [("content", JStr answer)])
  = Ok (JObj [("type", JStr "result"); ("content", JStr answer)]).
Proof. by apply parse_frame. Qed.

Lemma ws_close_fields id w :
  states (ws_close id w) = states w
  ∧ wsRefs (ws_close id w) = wsRefs w
  ∧ sessionIdRef (ws_close id w) = sessionIdRef w
  ∧ solverSessionIdRef (ws_close id w) = solverSessionIdRef w
  ∧ length (sockets (ws_close id w)) = length (sockets w)
  ∧ ∀ k, sockets (ws_close id w) !! k
         = (if decide (id = k) then closing else λ s, s) <$> sockets w !! k.
Proof.
  unfold ws_close. simpl. rewrite length_alter. repeat split.
  intros k. rewrite list_lookup_alter. case_decide as Hk; [by subst k|].
  by destruct (sockets w !! k).
Qed.

Lemma chat_result_ok id s message chatState am answer messages w :
  sockets w !! id = Some s →
  readyState s = OPEN →
  handlers s = ChatWs message chatState am →
  obj_get (states w Chat) "messages" = JArr messages →
  ∃ w' messages',
    deliver id (WsMessage (frame "result" [("content", JStr answer)])) w
    = Some (Ok w')
    ∧ obj_get (states w' Chat) "messages" = JArr messages'
    ∧ length messages' = length messages
    ∧ (is_str (get_opt (last_message messages) "role") "assistant" = true →
       get_opt (last_message messages') "content" = JStr answer
       ∧ get_opt (last_message messages') "isStreaming" = JBool false
       ∧ is_str (get_opt (last_message messages') "role") "assistant" = true
       ∧ ∀ i, i ≠ length messages - 1 → messages' !! i = messages !! i)
    ∧ (is_str (get_opt (last_message messages) "role") "assistant" = false →
       messages' = messages)
    ∧ obj_get (states w' Chat) "isLoading" = JBool false
    ∧ obj_get (states w' Chat) "currentStage" = JNull
    ∧ (∀ k, k ≠ "messages" → k ≠ "isLoading" → k ≠ "currentStage" →
            obj_get (states w' Chat) k = obj_get (states w Chat) k)
    ∧ readyState <$> sockets w' !! id = Some CLOSING
    ∧ sessionIdRef w' = sessionIdRef w
    ∧ wsRefs w' = wsRefs w
    ∧ length (sockets w') = length (sockets w)
    ∧ (Forall (λ m, m ≠ JNull ∧ m ≠ JUndefined) messages →
       Forall (λ m, m ≠ JNull ∧ m ≠ JUndefined) messages').
Proof.
  intros Hs Hopen Hh Hm.
  set (data := JObj [("type", JStr "result"); ("content", JStr answer)]).
  set (last := last_message messages).
  set (entry := JObj (obj_with (own_props last)
                        [("content", JStr answer); ("isStreaming", JBool false)])).
  set (messages' := if is_str (get_opt last "role") "assistant"
                    then set_last messages entry else messages).
  destruct (setState_ok Chat
              (λ prev,
                 messages ← spread (obj_get prev "messages");
                 let lastMessage := last_message messages in
                 let messages :=
                   if is_str (get_opt lastMessage "role") "assistant"
                   then
                     set_last messages
                       (JObj (obj_with (own_props lastMessage)
                                [("content", get_opt data "content");
                                 ("isStreaming", JBool false)]))
                   else messages in
                 Ok (obj_with prev
                       [("messages", JArr messages);
                        ("isLoading", JBool false);
                        ("currentStage", JNull)])) w
              (obj_with (states w Chat)
                 [("messages", JArr messages'); ("isLoading", JBool false);
                  ("currentStage", JNull)]))
    as (w1 & Hset & Hst1 & Hso1 & Hrf1 & _ & Hsid1).
  { by rewrite Hm. }
  destruct (ws_close_fields id w1) as (Hst2 & Hrf2 & Hsid2 & _ & Hlen2 & Hlook2).
  exists (ws_close id w1), messages'.
  split.
  { unfold deliver. rewrite Hs, Hopen. unfold run_onmessage. rewrite Hh.
    unfold chat_onmessage. rewrite parse_result_frame.
    cbn [mbind outcome_bind get_prop own_props obj_get String.eqb Ascii.eqb
         Bool.eqb is_str].
    match goal with
    | |- Some (mbind _ ?m) = _ =>
        replace m with (Ok w1 : outcome Provider) by (symmetry; exact Hset)
    end.
    done. }
  rewrite Hst2, Hst1, fn_lookup_insert_eq, Hrf2, Hrf1, Hsid2, Hsid1, Hlen2, Hso1.
  unfold obj_with at 1 2 3 4. cbn [foldl]. rewrite !obj_get_set.
  split; [done|]. split.
  { unfold messages'. destruct (is_str _ _); [|done].
    unfold set_last. by rewrite length_insert. }
  split.
  { intros Hrole. unfold messages'. fold last in Hrole. rewrite Hrole.
    rewrite last_message_set_last by (by apply last_message_role).
    unfold entry, obj_with. cbn [foldl get_opt own_props].
    rewrite !obj_get_set. cbn [String.eqb Ascii.eqb Bool.eqb].
    split; [done|]. split; [done|]. split.
    - destruct last; try done.
    - intros i Hi. unfold set_last. by rewrite list_lookup_insert_ne. }
  split.
  { intros Hrole. unfold messages'. fold last in Hrole. by rewrite Hrole. }
  split; [done|]. split; [done|]. split.
  { intros k H1 H2 H3. unfold obj_with. cbn [foldl].
    by rewrite !obj_get_set_ne. }
  split.
  { rewrite Hlook2, decide_True, Hso1, Hs by done. simpl.
    unfold closing, live. by rewrite Hopen. }
  split; [done|]. split; [done|]. split; [done|].
  intros Hall. unfold messages'. destruct (is_str _ _); [|done].
  unfold set_last. apply Forall_insert; [done|]. by unfold entry.
Qed.

(** X13. A [result] frame on an open chat socket ends the exchange:
    nothing is loading any more, the stage is cleared and the socket is
    closed by the client.  The answer it carries replaces the content of
    a trailing assistant entry, which stops streaming; when the transcript
    does not end with an assistant entry (no [stream] frame came before),
    the transcript is left as it is and the answer is not shown. *)
Theorem chat_result_finishes (w : Provider) (id : nat) (s : WebSocket)
    (message : string) (chatState : props) (am answer : string)
    (messages : list jsval) :
  sockets w !! id = Some s →
  readyState s = OPEN →
  handlers s = ChatWs message chatState am →
  obj_get (states w Chat) "messages" = JArr messages →
  ∃ w' messages',
    deliver id (WsMessage (frame "result" [("content", JStr answer)])) w
    = Some (Ok w')
    ∧ obj_get (states w' Chat) "messages" = JArr messages'
    ∧ length messages' = length messages
    ∧ (is_str (get_opt (last_message messages) "role") "assistant" = true →
       get_opt (last_message messages') "content" = JStr answer
       ∧ get_opt (last_message messages') "isStreaming" = JBool false
       ∧ ∀ i, i ≠ length messages - 1 → messages' !! i = messages !! i)
    ∧ (is_str (get_opt (last_message messages) "role") "assistant" = false →
       messages' = messages)
    ∧ obj_get (states w' Chat) "isLoading" = JBool false
    ∧ obj_get (states w' Chat) "currentStage" = JNull
    ∧ readyState <$> sockets w' !! id = Some CLOSING.
Proof.
  intros Hs Hopen Hh Hm.
  destruct (chat_result_ok id s message chatState am answer messages w
              Hs Hopen Hh Hm)
    as (w' & messages' & H1 & H2 & H3 & H4 & H5 & H6 & H7 & _ & H9 & _).
  exists w', messages'. repeat split; try done; by apply H4.
Qed.

Lemma chat_result_finishes_witness :
  let w := after (initial Examples.browser)
             [Restore; SendChatMessage "hello"; Deliver 0 WsOpen] in
  ∃ w' messages',
    deliver 0 (WsMessage (frame "result" [("content", JStr "Hi there")])) w
    = Some (Ok w')
    ∧ obj_get (states w' Chat) "messages" = JArr messages'
    ∧ length messages'
      = length [JObj [("role", JStr "user"); ("content", JStr "hello")]]
    ∧ (is_str (get_opt (last_message
                          [JObj [("role", JStr "user");
                                 ("content", JStr "hello")]]) "role")
         "assistant" = true →
       get_opt (last_message messages') "content" = JStr "Hi there"
       ∧ get_opt (last_message messages') "isStreaming" = JBool false
       ∧ ∀ i, i ≠ length [JObj [("role", JStr "user");
                                ("content", JStr "hello")]] - 1 →
              messages' !! i
              = [JObj [("role", JStr "user"); ("content", JStr "hello")]] !! i)
    ∧ (is_str (get_opt (last_message
                          [JObj [("role", JStr "user");
                                 ("content", JStr "hello")]]) "role")
         "assistant" = false →
       messages' = [JObj [("role", JStr "user"); ("content", JStr "hello")]])
    ∧ obj_get (states w' Chat) "isLoading" = JBool false
    ∧ obj_get (states w' Chat) "currentStage" = JNull
    ∧ readyState <$> sockets w' !! 0 = Some CLOSING.
Proof.
  intros w.
  eapply (chat_result_finishes w 0 _ "hello").
  - vm_compute. reflexivity.
  - reflexivity.
  - reflexivity.
  - vm_compute. reflexivity.
Defined.

Lemma chat_session_ok id s message chatState am sid w :
  sockets w !! id = Some s →
  readyState s = OPEN →
  handlers s = ChatWs message chatState am →
  ∃ w',
    deliver id (WsMessage (frame "session" [("session_id", JStr sid)])) w
    = Some (Ok w')
    ∧ sessionIdRef w' = JStr sid
    ∧ obj_get (states w' Chat) "sessionId" = JStr sid
    ∧ (∀ k, k ≠ "sessionId" →
            obj_get (states w' Chat) k = obj_get (states w Chat) k)
    ∧ sockets w' = sockets w
    ∧ wsRefs w' = wsRefs w.
Proof.
  intros Hs Hopen Hh.
  destruct (setState_ok Chat
              (λ prev, Ok (obj_with prev [("sessionId", JStr sid)]))
              (with_sessionIdRef (JStr sid) w) _ eq_refl)
    as (w1 & Hset & Hst1 & Hso1 & Hrf1 & _ & Hsid1).
  exists w1. split.
  { unfold deliver. rewrite Hs, Hopen. unfold run_onmessage. rewrite Hh.
    unfold chat_onmessage. rewrite parse_session_frame.
    cbn [mbind outcome_bind get_prop get_opt own_props obj_get String.eqb
         Ascii.eqb Bool.eqb is_str].
    by rewrite Hset. }
  rewrite Hst1, fn_lookup_insert_eq. unfold obj_with. cbn [foldl].
  split; [by rewrite Hsid1|]. split; [by rewrite obj_get_set_eq|].
  split; [|done]. intros k Hk. by rewrite obj_get_set_ne.
Qed.

(** X14. A conversation continues: when the server has named the session
    and sent its result on an open chat socket, the next message opens a
    new socket whose first frame carries that session id and, as history,
    the role and content of every entry of the transcript as the result
    left it. *)
Theorem chat_conversation_continues (w : Provider) (id : nat) (s : WebSocket)
    (message : string) (chatState : props) (am sid answer message' : string)
    (messages : list jsval) :
  sockets w !! id = Some s →
  readyState s = OPEN →
  handlers s = ChatWs message chatState am →
  obj_get (states w Chat) "messages" = JArr messages →
  Forall (λ m, m ≠ JNull ∧ m ≠ JUndefined) messages →
  truthy (JStr (trim message')) = true →
  ∃ w1 w2 w3 w4 messages2,
    deliver id (WsMessage (frame "session" [("session_id", JStr sid)])) w
    = Some (Ok w1)
    ∧ deliver id (WsMessage (frame "result" [("content", JStr answer)])) w1
      = Some (Ok w2)
    ∧ obj_get (states w2 Chat) "messages" = JArr messages2
    ∧ sendChatMessage message' w2 = Ok w3
    ∧ deliver (length (sockets w)) WsOpen w3 = Some (Ok w4)
    ∧ sent <$> sockets w4 !! length (sockets w)
      = Some [JSON.text
                (chat_frame message' (JStr sid)
                   (JArr (history_entry <$> messages2)) (states w2 Chat))]
    ∧ obj_get (states w4 Chat) "sessionId" = JStr sid.
Proof.
  intros Hs Hopen Hh Hm Hall Hmsg.
  destruct (chat_session_ok id s message chatState am sid w Hs Hopen Hh)
    as (w1 & H1 & Hsid1 & Hsess1 & Hkeep1 & Hso1 & _).
  destruct (chat_result_ok id s message chatState am answer messages w1)
    as (w2 & messages2 & H2 & Hm2 & _ & _ & _ & Hl2 & _ & Hkeep2 & _ & Hsid2
        & _ & Hlen2 & Hall2); [by rewrite Hso1|done|done|by rewrite Hkeep1|].
  destruct (sendChatMessage_ok message' messages2 w2)
    as (w3 & H3 & Hso3 & _ & Hsid3 & Hst3); [done|by rewrite Hl2|done|].
  destruct (close_current_fields Chat w2) as (_ & _ & Hlen & _).
  destruct (chat_opens (length (sockets w))
              {| url := "/api/v1/chat"; readyState := CONNECTING; sent := [];
                 handlers := ChatWs message' (states w2 Chat) EmptyString |}
              message' (states w2 Chat) EmptyString
              (JArr (history_entry <$> messages2)) w3)
    as (w4 & H4 & Hsent & Hst4); [|done|done| |].
  { rewrite Hso3, <- Hso1, <- Hlen2, <- Hlen. apply lookup_new_socket. }
  { by apply chat_history_entries; [|apply Hall2]. }
  exists w1, w2, w3, w4, messages2. repeat split; try done.
  - by rewrite Hsent, Hsid3, Hsid2, Hsid1.
  - rewrite Hst4, Hst3. unfold obj_with. cbn [foldl].
    rewrite !obj_get_set_ne by done. by rewrite Hkeep2.
Qed.

Lemma chat_conversation_continues_witness :
  let w := after (initial Examples.browser)
             [Restore; SendChatMessage "hello"; Deliver 0 WsOpen;
              Deliver 0 (WsMessage (stream_frame "Hi"))] in
  ∃ w1 w2 w3 w4 messages2,
    deliver 0 (WsMessage (frame "session" [("session_id", JStr "s1")])) w
    = Some (Ok w1)
    ∧ deliver 0 (WsMessage (frame "result" [("content", JStr "Hi there")])) w1
      = Some (Ok w2)
    ∧ obj_get (states w2 Chat) "messages" = JArr messages2
    ∧ sendChatMessage "again" w2 = Ok w3
    ∧ deliver (length (sockets w)) WsOpen w3 = Some (Ok w4)
    ∧ sent <$> sockets w4 !! length (sockets w)
      = Some [JSON.text
                (chat_frame "again" (JStr "s1")
                   (JArr (history_entry <$> messages2)) (states w2 Chat))]
    ∧ obj_get (states w4 Chat) "sessionId" = JStr "s1".
Proof.
  intros w.
  eapply (chat_conversation_continues w 0 _ "hello" _ _ "s1" "Hi there" "again").
  - vm_compute. reflexivity.
  - reflexivity.
  - reflexivity.
  - vm_compute. reflexivity.
  - repeat constructor; discriminate.
  - reflexivity.
Defined.

(** ** The solver's answer (context/GlobalContext.tsx) *)





(** ** Sending a chat message (context/GlobalContext.tsx) *)

Lemma trim_end_blank s : trim_end s = EmptyString ↔ blank s = true.
Proof.
  induction s as [|c r IH]; [done|]. simpl.
  destruct (trim_end r) eqn:E.
  - destruct (is_space c); simpl; [|split; done].
    split; [intros _; by apply IH|done].
  - split; [done|]. intros [_ Hb]%andb_true_iff. by apply IH in Hb.
Qed.

Lemma trim_start_blank s : blank (trim_start s) = blank s.
Proof.
  induction s as [|c r IH]; [done|]. simpl.
  destruct (is_space c) eqn:E; simpl; [done|]. by rewrite E.
Qed.

Lemma trim_blank s : truthy (JStr (trim s)) = negb (blank s).
Proof.
  unfold trim. rewrite <- trim_start_blank.
  destruct (trim_end (trim_start s)) eqn:E.
  - apply trim_end_blank in E. by rewrite E.
  - destruct (blank (trim_start s)) eqn:Hb; [|done].
    apply trim_end_blank in Hb. congruence.
Qed.

(** X16. [sendChatMessage] does nothing at all when the message is white
    space only or an answer is still loading; otherwise, on a transcript
    that is an array, it appends the message, marks the chat as loading
    and opens one socket, which becomes the current one. *)
Theorem sendChatMessage_guard (w : Provider) (message : string) :
  (blank message = true
   ∨ truthy (obj_get (states w Chat) "isLoading") = true →
   sendChatMessage message w = Ok w)
  ∧ (blank message = false →
     truthy (obj_get (states w Chat) "isLoading") = false →
     ∀ messages,
       obj_get (states w Chat) "messages" = JArr messages →
       ∃ w',
         sendChatMessage message w = Ok w'
         ∧ length (sockets w') = S (length (sockets w))
         ∧ wsRefs w' Chat = Some (length (sockets w))
         ∧ obj_get (states w' Chat) "isLoading" = JBool true
         ∧ obj_get (states w' Chat) "messages"
           = JArr (messages
                   ++ [JObj [("role", JStr "user");
                             ("content", JStr message)]])).
Proof.
  split.
  - intros Hor. unfold sendChatMessage. rewrite trim_blank, negb_involutive.
    destruct Hor as [-> | ->]; [done|]. by rewrite orb_true_r.
  - intros Hb Hl messages Hm.
    destruct (sendChatMessage_ok message messages w)
      as (w' & -> & Hso & Hrf & _ & Hst); [by rewrite trim_blank, Hb|done..|].
    exists w'. split; [done|]. rewrite Hso, Hrf, Hst, length_app.
    destruct (close_current_fields Chat w) as (_ & _ & -> & _). simpl.
    split; [lia|]. split; [apply fn_lookup_insert_eq|].
    unfold obj_with. cbn [foldl]. by rewrite !obj_get_set.
Qed.

(** ** The sidebar (context/GlobalContext.tsx) *)








(** ** Loading a session from the history *)

Lemma loaded_mapM (f : jsval → jsval → jsval) messages :
  Forall (λ m, m ≠ JNull ∧ m ≠ JUndefined) messages →
  mapM (λ msg : jsval, role ← get_prop msg "role"; Ok (f msg role)) messages
  = Ok ((λ msg, f msg (get_opt msg "role")) <$> messages).
Proof.
  induction 1 as [|m l [Hn Hu] _ IH]; [done|].
  cbn [mapM fmap list_fmap]. rewrite IH.
  by destruct m.
Qed.

Lemma loaded_mapM_inv (f : jsval → jsval → jsval) messages l :
  mapM (λ msg : jsval, role ← get_prop msg "role"; Ok (f msg role)) messages
  = Ok l →
  Forall (λ m, m ≠ JNull ∧ m ≠ JUndefined) messages.
Proof.
  revert l. induction messages as [|m ms IH]; intros l H; [constructor|].
  cbn [mapM] in H.
  destruct m; try discriminate H;
    (constructor; [done|]);
    cbn [get_prop mbind outcome_bind] in H;
    (destruct (mapM _ ms) as [l'|] eqn:E; [by eapply IH|discriminate H]).
Qed.

Lemma map_method_inv v f l :
  map_method v f = Ok l → ∃ msgs, v = JArr msgs.
Proof. destruct v; try discriminate; eauto. Qed.

Lemma loadChatSession_ok w session msgs :
  get_prop session "messages" = Ok (JArr msgs) →
  Forall (λ m, m ≠ JNull ∧ m ≠ JUndefined) msgs →
  ∃ w1,
    loadChatSession (Status true (Ok session)) w = Fulfilled w1
    ∧ sockets w1 = sockets w
    ∧ wsRefs w1 = wsRefs w
    ∧ sessionIdRef w1 = get_opt session "session_id"
    ∧ obj_get (states w1 Chat) "sessionId" = get_opt session "session_id"
    ∧ obj_get (states w1 Chat) "isLoading" = JBool false
    ∧ obj_get (states w1 Chat) "currentStage" = JNull
    ∧ obj_get (states w1 Chat) "messages"
      = JArr ((λ msg, JObj [("role", get_opt msg "role");
                            ("content", get_opt msg "content");
                            ("sources", get_opt msg "sources");
                            ("isStreaming", JBool false)]) <$> msgs).
Proof.
  intros Hraw Hall.
  unfold loadChatSession, settle. rewrite Hraw.
  cbn [mbind outcome_bind map_method].
  rewrite (loaded_mapM
             (λ msg role, JObj [("role", role); ("content", get_opt msg "content");
                                ("sources", get_opt msg "sources");
                                ("isStreaming", JBool false)]) msgs Hall).
  cbn [mbind outcome_bind]. cbv zeta.
  match goal with
  | |- context [setState Chat ?u ?w0] =>
      destruct (setState_ok Chat u w0 _ eq_refl)
        as (w1 & -> & Hst & Hso & Hrf & _ & Hsid)
  end.
  exists w1. split; [done|]. split; [done|]. split; [done|].
  split; [done|].
  rewrite Hst, fn_lookup_insert_eq. unfold obj_with. cbn [foldl].
  by rewrite !obj_get_set.
Qed.

Lemma history_entry_loaded (f : jsval → props) msgs :
  Forall (λ m, m ≠ JNull ∧ m ≠ JUndefined) msgs →
  history_entry
    <$> ((λ msg, JObj (("role", get_opt msg "role")
                       :: ("content", get_opt msg "content") :: f msg)) <$> msgs)
  = history_entry <$> msgs.
Proof.
  intros _. rewrite <- list_fmap_compose. by apply list_fmap_ext.
Qed.

(** X19.  A chat session loaded from the history is continued: the load
    succeeds on a body whose [messages] are objects, leaves the state idle
    with the session's identifier in the state and in the ref, and the next
    message sent goes out with that identifier and with the roles and
    contents of the loaded messages as its history. *)
Theorem loaded_chat_session_continues (w : Provider) (session : jsval)
    (msgs : list jsval) (message : string) :
  get_prop session "messages" = Ok (JArr msgs) →
  Forall (λ m, m ≠ JNull ∧ m ≠ JUndefined) msgs →
  truthy (JStr (trim message)) = true →
  ∃ w1 w2 w3,
    loadChatSession (Status true (Ok session)) w = Fulfilled w1
    ∧ sessionIdRef w1 = get_opt session "session_id"
    ∧ obj_get (states w1 Chat) "sessionId" = get_opt session "session_id"
    ∧ obj_get (states w1 Chat) "isLoading" = JBool false
    ∧ sendChatMessage message w1 = Ok w2
    ∧ deliver (length (sockets w)) WsOpen w2 = Some (Ok w3)
    ∧ sent <$> sockets w3 !! length (sockets w)
      = Some [JSON.text
                (chat_frame message (get_opt session "session_id")
                   (JArr (history_entry <$> msgs)) (states w1 Chat))].
Proof.
  intros Hraw Hall Hm.
  destruct (loadChatSession_ok w session msgs Hraw Hall)
    as (w1 & Hload & Hso1 & Hrf1 & Hsid1 & Hsess1 & Hl1 & _ & Hmsgs1).
  edestruct (sendChatMessage_ok message) with (w := w1)
    as (w2 & Hsend & Hso2 & Hrf2 & Hsid2 & Hst2);
    [exact Hm|by rewrite Hl1|exact Hmsgs1|].
  assert (length (sockets (close_current Chat w1)) = length (sockets w))
    as Hlen.
  { destruct (close_current_fields Chat w1) as (_ & _ & -> & _).
    by rewrite Hso1. }
  destruct (chat_opens (length (sockets w))
              {| url := "/api/v1/chat"; readyState := CONNECTING; sent := [];
                 handlers := ChatWs message (states w1 Chat) EmptyString |}
              message (states w1 Chat) EmptyString
              (JArr (history_entry <$> msgs)) w2)
    as (w3 & Hopen & Hsent & Hst3); [|done|done| |].
  { rewrite Hso2, <- Hlen. apply lookup_new_socket. }
  { rewrite (chat_history_entries _ _ Hmsgs1).
    - by rewrite (history_entry_loaded
                    (λ msg, [("sources", get_opt msg "sources");
                             ("isStreaming", JBool false)]) msgs Hall).
    - apply list.Forall_forall. intros m [m' [-> _]]%list_elem_of_fmap.
      done. }
  exists w1, w2, w3. repeat (split; [done|]).
  by rewrite Hsent, Hsid2, Hsid1.
Qed.

Lemma loaded_chat_session_continues_witness :
  let w := Examples.chat_in_session in
  let msgs := [JObj [("role", JStr "user"); ("content", JStr "hi")];
               JObj [("role", JStr "assistant"); ("content", JStr "hello");
                     ("sources", JObj [])]] in
  let session := JObj [("session_id", JStr "s7"); ("messages", JArr msgs)] in
  ∃ w1 w2 w3,
    loadChatSession (Status true (Ok session)) w = Fulfilled w1
    ∧ sessionIdRef w1 = JStr "s7"
    ∧ obj_get (states w1 Chat) "sessionId" = JStr "s7"
    ∧ obj_get (states w1 Chat) "isLoading" = JBool false
    ∧ sendChatMessage "more" w1 = Ok w2
    ∧ deliver (length (sockets w)) WsOpen w2 = Some (Ok w3)
    ∧ sent <$> sockets w3 !! length (sockets w)
      = Some [JSON.text
                (chat_frame "more" (JStr "s7")
                   (JArr (history_entry <$> msgs)) (states w1 Chat))].
Proof.
  intros w msgs session.
  apply (loaded_chat_session_continues w session msgs "more").
  - reflexivity.
  - repeat constructor; discriminate.
  - reflexivity.
Defined.

Lemma loadSolverSession_ok w session msgs :
  get_prop session "messages" = Ok (JArr msgs) →
  Forall (λ m, m ≠ JNull ∧ m ≠ JUndefined) msgs →
  ∃ w1,
    loadSolverSession (Status true (Ok session)) w = Fulfilled w1
    ∧ sockets w1 = sockets w
    ∧ wsRefs w1 = wsRefs w
    ∧ solverSessionIdRef w1 = get_opt session "session_id"
    ∧ obj_get (states w1 Solver) "sessionId" = get_opt session "session_id"
    ∧ obj_get (states w1 Solver) "isSolving" = JBool false
    ∧ obj_get (states w1 Solver) "logs" = JArr []
    ∧ obj_get (states w1 Solver) "question"
      = match msgs with
        | first :: _ =>
            if is_str (get_opt first "role") "user"
            then get_opt first "content" else JStr EmptyString
        | [] => JStr EmptyString
        end
    ∧ obj_get (states w1 Solver) "messages"
      = JArr ((λ msg, JObj [("role", get_opt msg "role");
                            ("content", get_opt msg "content");
                            ("outputDir", get_opt msg "output_dir")]) <$> msgs).
Proof.
  intros Hraw Hall.
  unfold loadSolverSession, settle. rewrite Hraw.
  cbn [mbind outcome_bind map_method].
  rewrite (loaded_mapM
             (λ msg role, JObj [("role", role); ("content", get_opt msg "content");
                                ("outputDir", get_opt msg "output_dir")])
             msgs Hall).
  cbn [mbind outcome_bind]. cbv zeta.
  match goal with
  | |- context [setState Solver ?u ?w0] =>
      destruct (setState_ok Solver u w0 _ eq_refl)
        as (w1 & -> & Hst & Hso & Hrf & Hsid & _)
  end.
  exists w1. split; [done|]. split; [done|]. split; [done|].
  split; [done|].
  rewrite Hst, fn_lookup_insert_eq. unfold obj_with. cbn [foldl].
  rewrite !obj_get_set. repeat (split; [done|]).
  split; [|done]. by destruct msgs.
Qed.

(** X20.  A solver session loaded from the history is continued: the load
    succeeds on a body whose [messages] are objects, stops any run shown,
    shows the first message as the question when the user wrote it (the
    empty string otherwise), and the next question asked goes out with the
    loaded session's identifier. *)
Theorem loaded_solver_session_continues (w : Provider) (session : jsval)
    (msgs : list jsval) (question kb : string) :
  get_prop session "messages" = Ok (JArr msgs) →
  Forall (λ m, m ≠ JNull ∧ m ≠ JUndefined) msgs →
  ∃ w1 w2 w3,
    loadSolverSession (Status true (Ok session)) w = Fulfilled w1
    ∧ solverSessionIdRef w1 = get_opt session "session_id"
    ∧ obj_get (states w1 Solver) "sessionId" = get_opt session "session_id"
    ∧ obj_get (states w1 Solver) "isSolving" = JBool false
    ∧ obj_get (states w1 Solver) "question"
      = match msgs with
        | first :: _ =>
            if is_str (get_opt first "role") "user"
            then get_opt first "content" else JStr EmptyString
        | [] => JStr EmptyString
        end
    ∧ startSolver question kb w1 = Ok w2
    ∧ deliver (length (sockets w)) WsOpen w2 = Some (Ok w3)
    ∧ sent <$> sockets w3 !! length (sockets w)
      = Some [JSON.text
                (solver_frame question kb (get_opt session "session_id"))]
    ∧ obj_get (states w3 Solver) "sessionId" = get_opt session "session_id".
Proof.
  intros Hraw Hall.
  destruct (loadSolverSession_ok w session msgs Hraw Hall)
    as (w1 & Hload & Hso1 & Hrf1 & Hsid1 & Hsess1 & Hrun1 & _ & Hq1 & Hmsgs1).
  destruct (startSolver_ok question kb _ w1 Hmsgs1)
    as (w2 & Hstart & Hso2 & Hrf2 & Hsid2 & Hlogs2 & _ & Hsess2 & _).
  assert (length (sockets (close_current Solver w1)) = length (sockets w))
    as Hlen.
  { destruct (close_current_fields Solver w1) as (_ & _ & -> & _).
    by rewrite Hso1. }
  destruct (solver_opens (length (sockets w))
              {| url := "/api/v1/solve"; readyState := CONNECTING; sent := [];
                 handlers := SolverWs question kb |} question kb [] w2)
    as (w3 & Hopen3 & Hsent & _ & _ & Hkeep); [|done|done|done|].
  { rewrite Hso2, <- Hlen. apply lookup_new_socket. }
  exists w1, w2, w3. repeat (split; [done|]). split.
  - by rewrite Hsent, Hsid2, Hsid1.
  - rewrite Hkeep by done. by rewrite Hsess2.
Qed.

Lemma loaded_solver_session_continues_witness :
  let w := Examples.solver_in_session in
  let msgs := [JObj [("role", JStr "user"); ("content", JStr "why?")];
               JObj [("role", JStr "assistant"); ("content", JStr "because");
                     ("output_dir", JStr "out/1")]] in
  let session := JObj [("session_id", JStr "s7"); ("messages", JArr msgs)] in
  ∃ w1 w2 w3,
    loadSolverSession (Status true (Ok session)) w = Fulfilled w1
    ∧ solverSessionIdRef w1 = JStr "s7"
    ∧ obj_get (states w1 Solver) "sessionId" = JStr "s7"
    ∧ obj_get (states w1 Solver) "isSolving" = JBool false
    ∧ obj_get (states w1 Solver) "question" = JStr "why?"
    ∧ startSolver "next" "kb" w1 = Ok w2
    ∧ deliver (length (sockets w)) WsOpen w2 = Some (Ok w3)
    ∧ sent <$> sockets w3 !! length (sockets w)
      = Some [JSON.text (solver_frame "next" "kb" (JStr "s7"))]
    ∧ obj_get (states w3 Solver) "sessionId" = JStr "s7".
Proof.
  intros w msgs session.
  apply (loaded_solver_session_continues w session msgs "next" "kb").
  - reflexivity.
  - repeat constructor; discriminate.
Defined.

Lemma settle_fulfilled r body w1 :
  settle r body = Fulfilled w1 →
  ∃ session, r = Status true (Ok session) ∧ body session = Ok w1.
Proof.
  destruct r as [|[] [session|e]]; try discriminate.
  cbn [settle]. destruct (body session) eqn:E; [|discriminate].
  intros [= <-]. eauto.
Qed.

Lemma load_body_inv session (f : jsval → jsval → jsval)
    (k : jsval → outcome Provider) w1 :
  (raw ← get_prop session "messages";
   messages ← map_method raw (λ msg, role ← get_prop msg "role";
                                     Ok (f msg role));
   k messages) = Ok w1 →
  ∃ msgs, get_prop session "messages" = Ok (JArr msgs)
          ∧ Forall (λ m, m ≠ JNull ∧ m ≠ JUndefined) msgs.
Proof.
  destruct (get_prop session "messages") as [raw|] eqn:Hraw; [|discriminate].
  cbn [mbind outcome_bind].
  destruct (map_method raw _) as [messages|] eqn:Hmap; [|discriminate].
  intros _.
  destruct raw; try discriminate Hmap.
  cbn [map_method] in Hmap.
  destruct (mapM _ _) as [l'|] eqn:HmapM; [|discriminate Hmap].
  eexists. split; [done|]. by eapply loaded_mapM_inv.
Qed.

(** X21.  Loading a session from the history is fulfilled exactly when the
    response is [ok] and its decoded body has a [messages] array none of
    whose elements is [null] or [undefined]; every other response rejects
    the promise, for the chat and for the solver alike. *)
Theorem load_session_fulfilled_iff (r : response) (w : Provider) :
  ((∃ w1, loadChatSession r w = Fulfilled w1)
   ↔ ∃ session msgs,
       r = Status true (Ok session)
       ∧ get_prop session "messages" = Ok (JArr msgs)
       ∧ Forall (λ m, m ≠ JNull ∧ m ≠ JUndefined) msgs)
  ∧ ((∃ w1, loadSolverSession r w = Fulfilled w1)
     ↔ ∃ session msgs,
         r = Status true (Ok session)
         ∧ get_prop session "messages" = Ok (JArr msgs)
         ∧ Forall (λ m, m ≠ JNull ∧ m ≠ JUndefined) msgs).
Proof.
  split; split.
  - intros (w1 & (session & -> & Hbody)%settle_fulfilled).
    apply load_body_inv in Hbody as (msgs & Hraw & Hall). eauto.
  - intros (session & msgs & -> & Hraw & Hall).
    destruct (loadChatSession_ok w session msgs Hraw Hall) as (w1 & H & _).
    eauto.
  - intros (w1 & (session & -> & Hbody)%settle_fulfilled).
    apply load_body_inv in Hbody as (msgs & Hraw & Hall). eauto.
  - intros (session & msgs & -> & Hraw & Hall).
    destruct (loadSolverSession_ok w session msgs Hraw Hall) as (w1 & H & _).
    eauto.
Qed.
(** ** The end of a research run *)

(** X22.  A [result] frame on the open research socket ends the run: the
    status becomes [completed], the report is the one of the frame, the
    other fields stay, and the socket is closed without an error entry;
    when its [close] event arrives the reference to the socket is dropped
    if it still was the current one, and left alone otherwise. *)
Theorem research_result_finishes (w : Provider) (id : nat) (s : WebSocket)
    (topic kb planMode : string) (enabledTools : list string)
    (skipRephrase : bool) (report : string) :
  sockets w !! id = Some s →
  readyState s = OPEN →
  handlers s = ResearchWs topic kb planMode enabledTools skipRephrase →
  ∃ w1 w2,
    deliver id (WsMessage (frame "result" [("report", JStr report)])) w
    = Some (Ok w1)
    ∧ obj_get (states w1 Research) "status" = JStr "completed"
    ∧ obj_get (states w1 Research) "report" = JStr report
    ∧ (∀ k, k ≠ "status" → k ≠ "report" →
            obj_get (states w1 Research) k = obj_get (states w Research) k)
    ∧ readyState <$> sockets w1 !! id = Some CLOSING
    ∧ deliver id (WsClosed false) w1 = Some (Ok w2)
    ∧ states w2 = states w1
    ∧ readyState <$> sockets w2 !! id = Some CLOSED
    ∧ wsRefs w2 Research
      = if decide (wsRefs w Research = Some id) then None
        else wsRefs w Research.
Proof.
  intros Hs Hopen Hh.
  set (data := JObj [("type", JStr "result"); ("report", JStr report)]).
  destruct (setState_ok Research
              (λ prev, Ok (obj_with prev
                             [("status", JStr "completed");
                              ("report", get_opt data "report")])) w _ eq_refl)
    as (w0 & Hset & Hst0 & Hso0 & Hrf0 & _).
  destruct (ws_close_fields id w0) as (Hst1 & Hrf1 & _ & _ & Hlen1 & Hlook1).
  set (w1 := ws_close id w0) in *.
  assert (sockets w1 !! id = Some (closing s)) as Hs1.
  { by rewrite Hlook1, decide_True, Hso0, Hs. }
  assert (readyState (closing s) = CLOSING) as Hcl.
  { unfold closing, live. by rewrite Hopen. }
  exists w1, (clear_ref_if_current Research id (set_socket_state id CLOSED w1)).
  split.
  { unfold deliver. rewrite Hs, Hopen. unfold run_onmessage. rewrite Hh.
    unfold research_onmessage. rewrite parse_frame by done.
    cbn [mbind outcome_bind get_prop own_props obj_get String.eqb Ascii.eqb
         Bool.eqb is_str].
    match goal with
    | |- Some (mbind _ ?m) = _ =>
        replace m with (Ok w0 : outcome Provider) by (symmetry; exact Hset)
    end.
    done. }
  rewrite Hst1, Hst0, fn_lookup_insert_eq.
  unfold obj_with. cbn [foldl]. rewrite !obj_get_set.
  split; [done|]. split; [done|]. split.
  { intros k H1 H2. by rewrite !obj_get_set_ne. }
  split; [by rewrite Hs1; simpl; rewrite Hcl|].
  split.
  { unfold deliver. rewrite Hs1, Hcl. cbn [mbind outcome_bind].
    unfold run_onclose. by rewrite (closing_handlers s), Hh. }
  assert (wsRefs (set_socket_state id CLOSED w1) = wsRefs w) as Hrf2.
  { transitivity (wsRefs w1); [done|]. by rewrite Hrf1, Hrf0. }
  assert (readyState <$> sockets (set_socket_state id CLOSED w1) !! id
          = Some CLOSED) as Hs2.
  { unfold set_socket_state.
    change (sockets (with_sockets ?l _)) with l.
    by rewrite list_lookup_alter, decide_True, Hs1 by done. }
  assert (states (set_socket_state id CLOSED w1) = states w1) as Hst2 by done.
  unfold clear_ref_if_current. rewrite Hrf2.
  case_decide as Hcur.
  - split; [done|]. split; [done|].
    unfold set_ref. simpl. by rewrite fn_lookup_insert_eq.
  - by rewrite Hrf2.
Qed.

Lemma research_result_finishes_witness :
  let w := Examples.researching in
  ∃ w1 w2,
    deliver 0 (WsMessage (frame "result" [("report", JStr "done")])) w
    = Some (Ok w1)
    ∧ obj_get (states w1 Research) "status" = JStr "completed"
    ∧ obj_get (states w1 Research) "report" = JStr "done"
    ∧ (∀ k, k ≠ "status" → k ≠ "report" →
            obj_get (states w1 Research) k = obj_get (states w Research) k)
    ∧ readyState <$> sockets w1 !! 0 = Some CLOSING
    ∧ deliver 0 (WsClosed false) w1 = Some (Ok w2)
    ∧ states w2 = states w1
    ∧ readyState <$> sockets w2 !! 0 = Some CLOSED
    ∧ wsRefs w2 Research
      = if decide (wsRefs w Research = Some 0) then None
        else wsRefs w Research.
Proof.
  intros w.
  eapply (research_result_finishes w 0 _ "t" "kb" "medium" ["RAG"] false "done").
  - vm_compute. reflexivity.
  - reflexivity.
  - reflexivity.
Defined.
(** ** The end of a question generation *)

(** X23.  A [complete] frame on the open question socket ends the
    generation: the screen moves to the results, the progress is marked
    complete with as many completed questions as there are results, the
    other fields of the progress and of the state stay, and the socket is
    closed. *)
Theorem question_complete_finishes (w : Provider) (id : nat) (s : WebSocket)
    (topic diff type : string) (count : Z) (kb : string)
    (results : list jsval) :
  sockets w !! id = Some s →
  readyState s = OPEN →
  handlers s = QuestionWs topic diff type count kb →
  obj_get (states w Question) "results" = JArr results →
  ∃ w',
    deliver id (WsMessage (frame "complete" [])) w = Some (Ok w')
    ∧ obj_get (states w' Question) "step" = JStr "result"
    ∧ get_opt (obj_get (states w' Question) "progress") "stage"
      = JStr "complete"
    ∧ get_opt (obj_get (states w' Question) "progress") "completedQuestions"
      = JNum (Z.of_nat (length results))
    ∧ (∀ k, k ≠ "stage" → k ≠ "completedQuestions" →
            get_opt (obj_get (states w' Question) "progress") k
            = obj_get (own_props (obj_get (states w Question) "progress")) k)
    ∧ (∀ k, k ≠ "step" → k ≠ "progress" →
            obj_get (states w' Question) k = obj_get (states w Question) k)
    ∧ readyState <$> sockets w' !! id = Some CLOSING.
Proof.
  intros Hs Hopen Hh Hr.
  destruct (setState_ok Question
              (λ prev,
                 results ← js_length (obj_get prev "results");
                 Ok (obj_with prev
                       [("step", JStr "result");
                        ("progress",
                         JObj (obj_with (own_props (obj_get prev "progress"))
                                 [("stage", JStr "complete");
                                  ("completedQuestions", results)]))])) w
              (obj_with (states w Question)
                 [("step", JStr "result");
                  ("progress",
                   JObj (obj_with
                           (own_props (obj_get (states w Question) "progress"))
                           [("stage", JStr "complete");
                            ("completedQuestions",
                             JNum (Z.of_nat (length results)))]))]))
    as (w1 & Hset & Hst1 & Hso1 & _).
  { by rewrite Hr. }
  destruct (ws_close_fields id w1) as (Hst2 & _ & _ & _ & _ & Hlook2).
  exists (ws_close id w1). split.
  { unfold deliver. rewrite Hs, Hopen. unfold run_onmessage. rewrite Hh.
    unfold question_onmessage. rewrite parse_frame by done.
    cbn [mbind outcome_bind get_prop own_props obj_get String.eqb Ascii.eqb
         Bool.eqb is_str existsb orb].
    match goal with
    | |- Some (mbind _ ?m) = _ =>
        replace m with (Ok w1 : outcome Provider) by (symmetry; exact Hset)
    end.
    done. }
  rewrite Hst2, Hst1, fn_lookup_insert_eq.
  unfold obj_with. cbn [foldl]. rewrite !obj_get_set.
  cbn [fst snd String.eqb Ascii.eqb Bool.eqb get_opt own_props].
  rewrite !obj_get_set.
  cbn [fst snd String.eqb Ascii.eqb Bool.eqb].
  split; [done|]. split; [done|]. split; [done|]. split.
  { intros k H1 H2. by rewrite !obj_get_set_ne. }
  split.
  { intros k H1 H2. by rewrite !obj_get_set_ne. }
  rewrite Hlook2, decide_True, Hso1, Hs by done. simpl.
  unfold closing, live. by rewrite Hopen.
Qed.

Lemma question_complete_finishes_witness :
  let w := Examples.generating in
  ∃ w',
    deliver 0 (WsMessage (frame "complete" [])) w = Some (Ok w')
    ∧ obj_get (states w' Question) "step" = JStr "result"
    ∧ get_opt (obj_get (states w' Question) "progress") "stage"
      = JStr "complete"
    ∧ get_opt (obj_get (states w' Question) "progress") "completedQuestions"
      = JNum (Z.of_nat (length (@nil jsval)))
    ∧ (∀ k, k ≠ "stage" → k ≠ "completedQuestions" →
            get_opt (obj_get (states w' Question) "progress") k
            = obj_get (own_props (obj_get (states w Question) "progress")) k)
    ∧ (∀ k, k ≠ "step" → k ≠ "progress" →
            obj_get (states w' Question) k = obj_get (states w Question) k)
    ∧ readyState <$> sockets w' !! 0 = Some CLOSING.
Proof.
  intros w.
  eapply (question_complete_finishes w 0 _ "Monads" "medium" "choice" 3 "kb" []).
  - vm_compute. reflexivity.
  - reflexivity.
  - reflexivity.
  - vm_compute. reflexivity.
Defined.
(** ** A connection that fails *)

Lemma set_socket_state_fields id r w :
  states (set_socket_state id r w) = states w
  ∧ wsRefs (set_socket_state id r w) = wsRefs w
  ∧ ∀ s, sockets w !! id = Some s →
         sockets (set_socket_state id r w) !! id = Some (set_readyState r s).
Proof.
  split; [done|]. split; [done|]. intros s Hs. unfold set_socket_state.
  change (sockets (with_sockets ?l _)) with l.
  by rewrite list_lookup_alter, decide_True, Hs.
Qed.

Lemma clear_ref_fields c id w :
  states (clear_ref_if_current c id w) = states w
  ∧ sockets (clear_ref_if_current c id w) = sockets w
  ∧ wsRefs (clear_ref_if_current c id w) c
    = if decide (wsRefs w c = Some id) then None else wsRefs w c.
Proof.
  unfold clear_ref_if_current. case_decide; [|done].
  split; [done|]. split; [done|]. unfold set_ref. simpl.
  by rewrite fn_lookup_insert_eq.
Qed.

(** The entry a failed connection leaves in the log of its channel, or in
    the transcript of the chat. *)
Lemma failure_recorded h w l :
  obj_get (states w (channel_of h))
    (match h with ChatWs _ _ _ => "messages" | _ => "logs" end) = JArr l →
  ∃ w',
    run_onerror h w = Ok w'
    ∧ sockets w' = sockets w
    ∧ wsRefs w' = wsRefs w
    ∧ obj_get (states w' (channel_of h))
        (match h with ChatWs _ _ _ => "messages" | _ => "logs" end)
      = JArr (l ++ [match h with
                    | SolverWs _ _ => log_entry "error" "Connection error"
                    | ChatWs _ _ _ =>
                        JObj [("role", JStr "assistant");
                              ("content",
                               JStr "Connection error. Please try again.")]
                    | _ => log_entry "error" "WebSocket connection error"
                    end])
    ∧ match h with
      | SolverWs _ _ =>
          obj_get (states w' Solver) "isSolving" = JBool false
      | QuestionWs _ _ _ _ _ | MimicWs _ _ _ _ =>
          obj_get (states w' Question) "step" = JStr "config"
      | ResearchWs _ _ _ _ _ =>
          obj_get (states w' Research) "status" = JStr "idle"
      | ChatWs _ _ _ =>
          obj_get (states w' Chat) "isLoading" = JBool false
      end.
Proof.
  intros Hl.
  destruct h; cbn [channel_of] in Hl |- *; unfold run_onerror;
    [unfold solver_onerror|unfold question_onerror|unfold mimic_onerror
    |unfold research_onerror|unfold chat_onerror].
  1-4: (edestruct add_log_ok as (w1 & -> & Hst1 & Hso1 & Hrf1 & _); [exact Hl|];
        cbn [mbind outcome_bind];
        match goal with
        | |- context [setState ?c ?u w1] =>
            destruct (setState_ok c u w1 _ eq_refl)
              as (w2 & -> & Hst2 & Hso2 & Hrf2 & _)
        end;
        exists w2; split; [done|];
        split; [by rewrite Hso2|]; split; [by rewrite Hrf2|];
        rewrite Hst2, fn_lookup_insert_eq, Hst1, fn_lookup_insert_eq;
        unfold obj_with; cbn [foldl]; by rewrite !obj_get_set).
  match goal with
  | |- context [setState Chat ?u w] =>
      edestruct (setState_ok Chat u w) as (w2 & -> & Hst2 & Hso2 & Hrf2 & _);
        [by rewrite Hl|]
  end.
  exists w2. split; [done|]. split; [done|]. split; [done|].
  rewrite Hst2, fn_lookup_insert_eq.
  unfold obj_with. cbn [foldl]. by rewrite !obj_get_set.
Qed.

(** X24.  A connection that fails, before or after it opened, leaves its
    channel idle: the solver is no longer solving, question generation is
    back at its configuration step, research is idle, the chat is no
    longer loading; the failure is recorded as the last entry of the
    channel's log (of the transcript, for the chat); and the reference to
    the socket is dropped if it was the current one, except for the socket
    of the mimic generation, which has no close handler. *)
Theorem connection_failure_releases (w : Provider) (id : nat) (s : WebSocket)
    (l : list jsval) :
  sockets w !! id = Some s →
  readyState s ≠ CLOSED →
  obj_get (states w (channel_of (handlers s)))
    (match handlers s with ChatWs _ _ _ => "messages" | _ => "logs" end)
  = JArr l →
  ∃ w',
    deliver id (WsClosed true) w = Some (Ok w')
    ∧ readyState <$> sockets w' !! id = Some CLOSED
    ∧ obj_get (states w' (channel_of (handlers s)))
        (match handlers s with ChatWs _ _ _ => "messages" | _ => "logs" end)
      = JArr (l ++ [match handlers s with
                    | SolverWs _ _ => log_entry "error" "Connection error"
                    | ChatWs _ _ _ =>
                        JObj [("role", JStr "assistant");
                              ("content",
                               JStr "Connection error. Please try again.")]
                    | _ => log_entry "error" "WebSocket connection error"
                    end])
    ∧ match handlers s with
      | SolverWs _ _ =>
          obj_get (states w' Solver) "isSolving" = JBool false
      | QuestionWs _ _ _ _ _ | MimicWs _ _ _ _ =>
          obj_get (states w' Question) "step" = JStr "config"
      | ResearchWs _ _ _ _ _ =>
          obj_get (states w' Research) "status" = JStr "idle"
      | ChatWs _ _ _ =>
          obj_get (states w' Chat) "isLoading" = JBool false
      end
    ∧ match handlers s with
      | MimicWs _ _ _ _ => wsRefs w' = wsRefs w
      | h => wsRefs w' (channel_of h)
             = if decide (wsRefs w (channel_of h) = Some id) then None
               else wsRefs w (channel_of h)
      end.
Proof.
  intros Hs Hopen Hl.
  destruct (set_socket_state_fields id CLOSED w) as (Hst0 & Hrf0 & Hlook0).
  specialize (Hlook0 s Hs).
  set (w0 := set_socket_state id CLOSED w) in *.
  destruct (failure_recorded (handlers s) w0 l)
    as (w1 & Herr & Hso1 & Hrf1 & Hlog1 & Hidle1); [by rewrite Hst0|].
  assert (deliver id (WsClosed true) w
          = Some (run_onclose id (handlers s) w1)) as ->.
  { unfold deliver. rewrite Hs.
    destruct (readyState s); try done; fold w0; by rewrite Herr. }
  assert (readyState <$> sockets w1 !! id = Some CLOSED) as Hclosed.
  { by rewrite Hso1, Hlook0. }
  destruct (clear_ref_fields (channel_of (handlers s)) id w1)
    as (Hst2 & Hso2 & Hrf2).
  rewrite Hrf1, Hrf0 in Hrf2.
  destruct (handlers s) eqn:Hh; cbn [channel_of] in *; unfold run_onclose.
  - eexists. split; [done|]. rewrite Hst2, Hso2. done.
  - eexists. split; [done|]. rewrite Hst2, Hso2. done.
  - exists w1. split; [done|]. by rewrite Hrf1.
  - eexists. split; [done|]. rewrite Hst2, Hso2. done.
  - unfold chat_onclose.
    match goal with
    | |- context [setState Chat ?u ?w2] =>
        destruct (setState_ok Chat u w2 _ eq_refl)
          as (w3 & -> & Hst3 & Hso3 & Hrf3 & _)
    end.
    exists w3. split; [done|]. rewrite Hso3, Hso2, Hrf3.
    split; [done|]. rewrite Hst3, fn_lookup_insert_eq, Hst2.
    unfold obj_with. cbn [foldl]. rewrite !obj_get_set.
    cbn [fst snd String.eqb Ascii.eqb Bool.eqb]. done.
Qed.

Lemma connection_failure_releases_witness :
  let w := Examples.generating in
  ∃ w',
    deliver 0 (WsClosed true) w = Some (Ok w')
    ∧ readyState <$> sockets w' !! 0 = Some CLOSED
    ∧ obj_get (states w' Question) "logs"
      = JArr ([log_entry "system" "Initializing Generator..."]
              ++ [log_entry "error" "WebSocket connection error"])
    ∧ obj_get (states w' Question) "step" = JStr "config"
    ∧ wsRefs w' Question
      = if decide (wsRefs w Question = Some 0) then None
        else wsRefs w Question.
Proof.
  intros w.
  destruct (connection_failure_releases w 0
              {| url := "/api/v1/question/generate"; readyState := OPEN;
                 sent := [JSON.text (question_frame "Monads" "medium" "choice"
                                       3 "kb")];
                 handlers := QuestionWs "Monads" "medium" "choice" 3 "kb" |}
              [log_entry "system" "Initializing Generator..."])
    as (w' & H); [vm_compute; reflexivity|discriminate|vm_compute; reflexivity|].
  exists w'. exact H.
Defined.
(** ** The guide hook across a reload *)

Lemma setItem_items ls k v ls' :
  setItem ls k v = Ok ls' →
  items ls' = <[k := v]> (items ls) ∧ blocked ls' = false.
Proof.
  unfold setItem. destruct (blocked ls); [done|].
  destruct (quota ls) as [q|].
  - case_decide; [|done]. by intros <-%Ok_inj.
  - by intros <-%Ok_inj.
Qed.

Lemma saveToStorage_written env key value ls :
  has_window env = true →
  setItem (localStorage env) (STORAGE_PREFIX +:+ key)
    (JSON.text (wrap value (now env))) = Ok ls →
  saveToStorage env key value = Ok (with_storage env ls).
Proof.
  intros Hw Hset. unfold saveToStorage. rewrite Hw. cbn [negb]. cbv zeta.
  by rewrite stringify_wrap, Hset.
Qed.

Lemma load_written env key value t d :
  has_window env = true →
  blocked (localStorage env) = false →
  items (localStorage env) !! (STORAGE_PREFIX +:+ key)
  = Some (JSON.text (wrap value t)) →
  JSON.serializable value = true →
  loadFromStorage env key d = Ok value.
Proof.
  intros Hw Hb Hi Hser. rewrite loadFromStorage_unfold. unfold stored_entry.
  rewrite Hw, Hb. simpl. rewrite Hi, parse_text; [done|].
  by apply wrap_serializable.
Qed.

(** X25.  What the guide hook saved comes back after a reload.  Once
    hydrated, a session state and a transcript that were set and whose
    debounced saves were accepted by the store are what a freshly mounted
    hook restores: the transcript as it was, and every field of the session
    that was not [undefined], the others keeping their initial value. *)
Theorem guide_session_survives_reload (positive : jsval → bool)
    (init next : props) (msgs : list jsval) (h : GuideSession.Hook)
    (ls1 ls2 : Storage) :
  (∀ n, positive (JNum n) = (0 <? n)%Z) →
  GuideSession.isHydrated h = true →
  has_window (GuideSession.env h) = true →
  JSON.serializable
    (JObj (persistState next GuideSession.GUIDE_SESSION_EXCLUDE)) = true →
  JSON.serializable (JArr msgs) = true →
  setItem (localStorage (GuideSession.env h))
    (STORAGE_PREFIX +:+ STORAGE_KEYS GUIDE)
    (JSON.text
       (wrap (JObj (persistState next GuideSession.GUIDE_SESSION_EXCLUDE))
          (now (GuideSession.env h)))) = Ok ls1 →
  setItem ls1 (STORAGE_PREFIX +:+ GuideSession.GUIDE_CHAT_KEY)
    (JSON.text (wrap (JArr msgs) (now (GuideSession.env h)))) = Ok ls2 →
  ∃ h1 h2,
    GuideSession.perform_all positive
      [GuideSession.SetSessionState next;
       GuideSession.SetChatMessages (JArr msgs);
       GuideSession.SessionTimerFires; GuideSession.ChatTimerFires] h
    = Ok h1
    ∧ localStorage (GuideSession.env h1) = ls2
    ∧ GuideSession.restore positive
        (GuideSession.initial init (GuideSession.env h1)) = Ok h2
    ∧ GuideSession.isHydrated h2 = true
    ∧ GuideSession.chatMessages h2 = JArr msgs
    ∧ ∀ k, obj_get (GuideSession.sessionState h2) k
           = if is_undefined (obj_get next k) then obj_get init k
             else obj_get next k.
Proof.
  intros Hpos Hh Hw Hser1 Hser2 Hset1 Hset2.
  set (P := persistState next GuideSession.GUIDE_SESSION_EXCLUDE) in *.
  set (e := GuideSession.env h) in *.
  set (e2 := with_storage (with_storage e ls1) ls2).
  destruct (setItem_items _ _ _ _ Hset1) as [Hi1 Hb1].
  destruct (setItem_items _ _ _ _ Hset2) as [Hi2 Hb2].
  assert (loadFromStorage e2 (STORAGE_KEYS GUIDE) (JObj []) = Ok (JObj P))
    as Hload1.
  { apply (load_written e2 _ _ (now e)); [done|done| |done].
    simpl. rewrite Hi2, lookup_insert_ne, Hi1, lookup_insert_eq; [done|].
    intros Heq. by apply prefixed_inj in Heq. }
  assert (loadFromStorage e2 GuideSession.GUIDE_CHAT_KEY (JArr [])
          = Ok (JArr msgs)) as Hload2.
  { apply (load_written e2 _ _ (now e)); [done|done| |done].
    simpl. by rewrite Hi2, lookup_insert_eq. }
  eexists _, _. split.
  { cbn [GuideSession.perform_all GuideSession.perform mbind outcome_bind].
    unfold GuideSession.session_timer_fires, GuideSession.setChatMessages,
      GuideSession.setSessionState.
    cbn [GuideSession.pendingSession GuideSession.isHydrated GuideSession.env
         GuideSession.pendingChat GuideSession.sessionState
         GuideSession.chatMessages].
    rewrite Hh. fold e. fold P.
    rewrite (saveToStorage_written e _ _ ls1 Hw Hset1).
    cbn [mbind outcome_bind].
    unfold GuideSession.chat_timer_fires.
    cbn [GuideSession.pendingSession GuideSession.isHydrated GuideSession.env
         GuideSession.pendingChat GuideSession.sessionState
         GuideSession.chatMessages].
    rewrite (saveToStorage_written (with_storage e ls1) _ _ ls2 Hw Hset2).
    cbn [mbind outcome_bind]. reflexivity. }
  cbn [GuideSession.env]. fold e2.
  split; [done|].
  unfold GuideSession.restore, GuideSession.initial.
  cbn [GuideSession.pendingSession GuideSession.isHydrated GuideSession.env
       GuideSession.pendingChat GuideSession.sessionState
       GuideSession.chatMessages].
  replace (has_window e2) with true by (symmetry; exact Hw).
  cbn [negb]. rewrite Hload1, Hload2.
  cbn [mbind outcome_bind object_keys js_length own_props].
  split; [reflexivity|]. split; [done|].
  cbn [GuideSession.chatMessages GuideSession.sessionState].
  rewrite Hpos. split.
  - destruct msgs; [done|]. simpl length.
    replace (0 <? Z.of_nat (S (length msgs)))%Z with true
      by (symmetry; apply Z.ltb_lt; lia).
    done.
  - intros k.
    assert (obj_get P k = obj_get next k) as HP.
    { unfold P. by rewrite persistState_get. }
    case_decide as Hlen; cbn [default from_option id].
    + rewrite mergeWithDefaults_get by done. cbn [own_props]. by rewrite HP.
    + assert (P = []) as HPnil.
      { destruct P; [done|]. simpl in Hlen. lia. }
      rewrite HPnil in HP. simpl in HP. by rewrite <- HP.
Qed.

Lemma guide_session_survives_reload_witness :
  let positive := λ v, match v with JNum n => (0 <? n)%Z | _ => false end in
  let init := [("session_id", JNull); ("status", JStr "idle");
               ("current_index", JNum (-1))] in
  let next := [("session_id", JStr "g1"); ("status", JStr "learning");
               ("current_index", JNum 0)] in
  let msgs := [JObj [("id", JStr "plan"); ("role", JStr "system");
                     ("content", JStr "Plan")]] in
  let h := {| GuideSession.env := Examples.browser;
              GuideSession.isHydrated := true;
              GuideSession.sessionState := init;
              GuideSession.chatMessages := JArr [];
              GuideSession.pendingSession := None;
              GuideSession.pendingChat := None |} in
  ∃ h1 h2,
    GuideSession.perform_all positive
      [GuideSession.SetSessionState next;
       GuideSession.SetChatMessages (JArr msgs);
       GuideSession.SessionTimerFires; GuideSession.ChatTimerFires] h
    = Ok h1
    ∧ GuideSession.restore positive
        (GuideSession.initial init (GuideSession.env h1)) = Ok h2
    ∧ GuideSession.isHydrated h2 = true
    ∧ GuideSession.chatMessages h2 = JArr msgs
    ∧ ∀ k, obj_get (GuideSession.sessionState h2) k
           = if is_undefined (obj_get next k) then obj_get init k
             else obj_get next k.
Proof.
  intros positive init next msgs h.
  edestruct (guide_session_survives_reload positive init next msgs h)
    as (h1 & h2 & H1 & _ & H2 & H3);
    [done|reflexivity|reflexivity|reflexivity|reflexivity
    |vm_compute; reflexivity|vm_compute; reflexivity|].
  exists h1, h2. split; [exact H1|]. split; [exact H2|]. exact H3.
Defined.

(** X26.  In a browser the restore effect of the guide hook completes,
    and raises the hydration latch without touching the store, exactly
    when neither of its two entries decodes to [null] or [undefined]; an
    entry whose payload is [null] makes the effect throw. *)
Theorem guide_restore_completes (positive : jsval → bool)
    (h : GuideSession.Hook) :
  has_window (GuideSession.env h) = true →
  ((∃ h', GuideSession.restore positive h = Ok h')
   ↔ (∀ p, loadFromStorage (GuideSession.env h) (STORAGE_KEYS GUIDE) (JObj [])
           = Ok p → p ≠ JNull ∧ p ≠ JUndefined)
     ∧ (∀ p, loadFromStorage (GuideSession.env h) GuideSession.GUIDE_CHAT_KEY
               (JArr []) = Ok p → p ≠ JNull ∧ p ≠ JUndefined))
  ∧ (∀ h', GuideSession.restore positive h = Ok h' →
           GuideSession.isHydrated h' = true
           ∧ GuideSession.env h' = GuideSession.env h).
Proof.
  intros Hw. unfold GuideSession.restore. rewrite Hw. cbn [negb].
  destruct (loads (GuideSession.env h) (STORAGE_KEYS GUIDE) (JObj []))
    as [p1 E1].
  destruct (loads (GuideSession.env h) GuideSession.GUIDE_CHAT_KEY (JArr []))
    as [p2 E2].
  rewrite E1, E2. cbn [mbind outcome_bind].
  assert ((∃ keys, object_keys p1 = Ok keys) ↔ p1 ≠ JNull ∧ p1 ≠ JUndefined)
    as Hk.
  { unfold object_keys. destruct p1; split; try (by intros [? ?]);
      try (by intros [? ?]); intros _; by eauto. }
  assert ((∃ n, js_length p2 = Ok n) ↔ p2 ≠ JNull ∧ p2 ≠ JUndefined) as Hn.
  { unfold js_length. destruct p2; split; try (by intros [? ?]);
      try (by intros [? ?]); intros _; by eauto. }
  split; [split|].
  - intros [h' H].
    destruct (object_keys p1) as [keys|] eqn:Ek; [|done].
    cbn [mbind outcome_bind] in H.
    destruct (js_length p2) as [n|] eqn:En; [|done].
    split; intros p [= <-]; [apply Hk|apply Hn]; eauto.
  - intros [H1 H2].
    destruct (proj2 Hk (H1 _ eq_refl)) as [keys ->].
    destruct (proj2 Hn (H2 _ eq_refl)) as [n ->].
    cbn [mbind outcome_bind]. eauto.
  - intros h' H.
    destruct (object_keys p1) as [keys|] eqn:Ek; [|done].
    cbn [mbind outcome_bind] in H.
    destruct (js_length p2) as [n|] eqn:En; [|done].
    cbn [mbind outcome_bind] in H. apply Ok_inj in H as <-. done.
Qed.

Lemma guide_restore_completes_witness :
  let positive := λ v, match v with JNum n => (0 <? n)%Z | _ => false end in
  let h := GuideSession.initial [("status", JStr "idle")] Examples.browser in
  ∃ h', GuideSession.restore positive h = Ok h'.
Proof.
  intros positive h.
  apply (proj2 (proj1 (guide_restore_completes positive h eq_refl))).
  split; intros p; vm_compute; intros [= <-]; split; discriminate.
Defined.

(** ** Instances of the properties above *)

Lemma clearAllStorage_clears_witness :
  ∃ env',
    clearAllStorage Examples.browser_v2 = Ok env'
    ∧ items (localStorage Examples.browser_v2) !! "deeptutor_chat_state" ≠ None
    ∧ items (localStorage env') !! "deeptutor_chat_state" = None.
Proof.
  destruct (clearAllStorage_clears Examples.browser_v2)
    as (env' & H & _ & _ & H3).
  exists env'. split; [exact H|]. split; [vm_compute; discriminate|].
  apply H3; reflexivity.
Defined.

Lemma getStorageStats_lists_own_entries_witness :
  getStorageStats
    (value_or Examples.browser_v2 (clearAllStorage Examples.browser_v2))
  = {| totalSize := 0; stat_items := [] |}.
Proof.
  apply (proj2 (proj2 (getStorageStats_lists_own_entries Examples.browser_v2)));
    vm_compute; reflexivity.
Defined.

Lemma sendChatMessage_guard_witness :
  let w := after (initial Examples.browser) [Restore] in
  sendChatMessage "  " w = Ok w
  ∧ ∃ w',
      sendChatMessage "hi" w = Ok w'
      ∧ length (sockets w') = S (length (sockets w))
      ∧ wsRefs w' Chat = Some (length (sockets w))
      ∧ obj_get (states w' Chat) "isLoading" = JBool true
      ∧ obj_get (states w' Chat) "messages"
        = JArr ([] ++ [JObj [("role", JStr "user"); ("content", JStr "hi")]]).
Proof.
  intros w. split.
  - apply (proj1 (sendChatMessage_guard w "  ")). left. reflexivity.
  - apply (proj2 (sendChatMessage_guard w "hi")); vm_compute; reflexivity.
Defined.

Lemma removeFromStorage_forgets_witness :
  ∃ env',
    removeFromStorage Examples.browser_v2 "chat_state" = Ok env'
    ∧ loadFromStorage env' "chat_state" (JStr "none") = Ok (JStr "none")
    ∧ loadFromStorage env' "solver_state" JNull
      = loadFromStorage Examples.browser_v2 "solver_state" JNull.
Proof.
  destruct (removeFromStorage_forgets Examples.browser_v2 "chat_state")
    as (env' & H & H1 & H2 & _).
  exists env'. split; [exact H|]. split; [apply H1|].
  apply H2. discriminate.
Defined.

Lemma load_session_fulfilled_iff_witness :
  let w := initial Examples.browser in
  let session := JObj [("session_id", JStr "s7"); ("messages", JArr [])] in
  (∃ w1, loadChatSession (Status true (Ok session)) w = Fulfilled w1)
  ∧ ((∃ w1, loadSolverSession (Status true (Ok (JObj []))) w = Fulfilled w1)
     → False).
Proof.
  intros w session. split.
  - apply (proj2 (proj1 (load_session_fulfilled_iff _ w))).
    exists session, []. split; [reflexivity|]. split; [reflexivity|constructor].
  - intros H.
    apply (proj1 (proj2 (load_session_fulfilled_iff _ w))) in H
      as (s & msgs & Hr & Hraw & _).
    apply (f_equal (λ r, match r with
                         | Status _ (Ok v) => v
                         | _ => JNull
                         end)) in Hr.
    simpl in Hr. subst s. discriminate Hraw.
Defined.
